(** * SkillForge API: the research-enhanced roadmap generator

    A shallow embedding of the roadmap pipeline of the SkillForge backend
    (researchAgentService, llmClient, roadmapLlmService and the
    compare-resources route) together with the part of the JavaScript
    runtime these functions rely on (strings, regular expressions,
    [JSON.parse]), and of the code around it: the other handlers of the
    research routes, the skill memory (memoryService, the recommendations
    of adaptiveEngine), the lesson generator (lessonLlmService), the resume
    extractor, and the progress handler with the points and badges it
    awards.

    Conventions.
    - A JavaScript string is a [string]: a sequence of code units.  The model
      keeps the code units U+0000..U+00FF, so [length] is the JavaScript
      [length] on such text.
    - Scores are exact rationals ([Q]); the additions of [rankResources] are
      the mathematical ones.
    - An asynchronous function is a computation in the monad [M]: it reads
      the outside world from an oracle record ([World]), counts the calls
      made to the language model, and ends resolved, rejected (an exception
      with its message) or out of fuel (the only unbounded loop of the
      code base is the array-repair loop of [cleanupJSON]).
    - The services that write other collections than the roadmaps are
      computations in the monad [DB], over the record of the collections
      ([Collections]); a database that is reachable is assumed, so that an
      operation on a collection fails only by the validation of a schema.
      The dates a schema fills in are left out of the documents. *)

From Stdlib Require Import String Ascii List Bool Arith Lia ZArith QArith Qminmax Qround.
From Stdlib Require Import Sorting Permutation.
Import ListNotations.
Open Scope string_scope.
Open Scope nat_scope.

(* ===================================================================== *)
(** * The JavaScript runtime *)
(* ===================================================================== *)

Module JS.

(** ** Characters *)

Definition code (c : ascii) : nat := nat_of_ascii c.

Definition in_range (lo hi : ascii) (c : ascii) : bool :=
  (code lo <=? code c) && (code c <=? code hi).

(** [\s]: WhiteSpace and LineTerminator code units (below U+0100). *)
Definition is_space (c : ascii) : bool :=
  let n := code c in
  (n =? 9) || (n =? 10) || (n =? 11) || (n =? 12) || (n =? 13) || (n =? 32) || (n =? 160).

(** [\d] *)
Definition is_digit (c : ascii) : bool := in_range "0" "9" c.

(** [[a-zA-Z0-9_$]] *)
Definition is_ident (c : ascii) : bool :=
  in_range "a" "z" c || in_range "A" "Z" c || is_digit c
  || Ascii.eqb c "_" || Ascii.eqb c "$".

Definition one_of (set : string) (c : ascii) : bool :=
  existsb (Ascii.eqb c) (list_ascii_of_string set).

Definition none_of (set : string) (c : ascii) : bool := negb (one_of set c).

Definition any_char (c : ascii) : bool := true.

Definition lower_char (c : ascii) : ascii :=
  let n := code c in
  if ((65 <=? n) && (n <=? 90)) || ((192 <=? n) && (n <=? 222) && negb (n =? 215))
  then ascii_of_nat (n + 32) else c.

(** ** Strings *)

Definition str1 (c : ascii) : string := String c EmptyString.

Fixpoint toLowerCase (s : string) : string :=
  match s with
  | EmptyString => EmptyString
  | String c s' => String (lower_char c) (toLowerCase s')
  end.

(** [s.startsWith(p)] *)
Fixpoint startsWith (p s : string) : bool :=
  match p with
  | EmptyString => true
  | String a p' =>
      match s with
      | EmptyString => false
      | String b s' => if Ascii.eqb a b then startsWith p' s' else false
      end
  end.

(** [s.indexOf(p)], [None] for -1. *)
Fixpoint indexOf (p s : string) : option nat :=
  if startsWith p s then Some 0
  else match s with
       | EmptyString => None
       | String _ s' => option_map S (indexOf p s')
       end.

(** [s.includes(p)] *)
Definition includes (s p : string) : bool :=
  match indexOf p s with Some _ => true | None => false end.

(** [s.substring(0, n)] *)
Definition take (n : nat) (s : string) : string := substring 0 n s.

(** [s.substring(n)] *)
Fixpoint drop (n : nat) (s : string) : string :=
  match n with
  | 0 => s
  | S k => match s with EmptyString => EmptyString | String _ s' => drop k s' end
  end.

Fixpoint trimStart (s : string) : string :=
  match s with
  | String c s' => if is_space c then trimStart s' else s
  | EmptyString => EmptyString
  end.

Fixpoint trimEnd (s : string) : string :=
  match s with
  | EmptyString => EmptyString
  | String c s' =>
      match trimEnd s' with
      | EmptyString => if is_space c then EmptyString else str1 c
      | t => String c t
      end
  end.

Definition trim (s : string) : string := trimEnd (trimStart s).

(** [s.split(sep)] for a non-empty separator: the pieces between the
    successive occurrences of [sep], found left to right.  [skip] counts the
    characters of a separator still to be passed over; [acc] is the current
    piece. *)
Fixpoint split_go (sep : string) (s : string) (skip : nat) (acc : string) : list string :=
  match skip with
  | S k =>
      match s with
      | EmptyString => [acc]
      | String _ s' => split_go sep s' k acc
      end
  | 0 =>
      match s with
      | EmptyString => [acc]
      | String c s' =>
          if startsWith sep s
          then acc :: split_go sep s' (String.length sep - 1) EmptyString
          else split_go sep s' 0 (acc ++ str1 c)
      end
  end.

Definition split (sep s : string) : list string := split_go sep s 0 EmptyString.

Fixpoint join (sep : string) (l : list string) : string :=
  match l with
  | [] => EmptyString
  | [x] => x
  | x :: l' => x ++ sep ++ join sep l'
  end.

Fixpoint repeat_str (s : string) (n : nat) : string :=
  match n with 0 => EmptyString | S k => s ++ repeat_str s k end.

Fixpoint count_char (c : ascii) (s : string) : nat :=
  match s with
  | EmptyString => 0
  | String d s' => (if Ascii.eqb c d then 1 else 0) + count_char c s'
  end.

(** Decimal rendering of a natural number, as in a template literal. *)
Fixpoint digits_go (fuel n : nat) (acc : string) : string :=
  match fuel with
  | 0 => acc
  | S f =>
      let acc' := String (ascii_of_nat (48 + n mod 10)) acc in
      if n / 10 =? 0 then acc' else digits_go f (n / 10) acc'
  end.

Definition nat_to_string (n : nat) : string := digits_go (S n) n EmptyString.

(** ** Regular expressions

    The fragment of ECMAScript regular expressions the code base uses: every
    quantifier applies to a character class, so the backtracking matcher is
    structural in the expression and, for a quantifier, in the text.  The
    matcher is written with continuations: the continuation is the rest of
    the pattern, so that a failure after a quantifier gives the quantifier
    its next choice, in the order ECMAScript tries them. *)

Inductive regex : Type :=
| Eps
| Chr (c : ascii)                               (* a character *)
| ChrI (c : ascii)                              (* a character, flag i *)
| Cls (p : ascii -> bool)                       (* [...] , \s, \d *)
| Rep (greedy : bool) (min : nat) (p : ascii -> bool)
                                                (* C*, C+, C*?, C+? *)
| Seq (r1 r2 : regex)
| Alt (r1 r2 : regex)                           (* r1|r2 *)
| Opt (r : regex)                               (* (?:r)? *)
| Grp (n : nat) (r : regex)                     (* the n-th capture group *)
| Ahead (p : ascii -> bool)                     (* (?=[...]) *)
| NotBehind (c : ascii)                         (* (?<!c) *)
| Bol                                           (* ^ *)
| Eol.                                          (* $ *)

Fixpoint lit (s : string) : regex :=
  match s with
  | EmptyString => Eps
  | String c s' => Seq (Chr c) (lit s')
  end.

Fixpoint lit_i (s : string) : regex :=
  match s with
  | EmptyString => Eps
  | String c s' => Seq (ChrI c) (lit_i s')
  end.

Definition star := Rep true 0.
Definition plus := Rep true 1.
Definition star_lazy := Rep false 0.

Definition captures := list (nat * string).

Fixpoint capture (n : nat) (cs : captures) : option string :=
  match cs with
  | [] => None
  | (m, s) :: cs' => if n =? m then Some s else capture n cs'
  end.

(** A capture that did not take part in the match reads as the empty string
    in a replacement. *)
Definition capture_text (n : nat) (cs : captures) : string :=
  match capture n cs with Some s => s | None => EmptyString end.

Record mstate : Type := MState {
  pos : nat;                 (* index of the next character *)
  prev : option ascii;       (* the character before it *)
  rest : string;             (* the text from [pos] on *)
  caps : captures
}.

Definition cont := mstate -> option mstate.

(** The text read between two states of one match: [from] less its
    suffix [to]. *)
Definition consumed (from to : string) : string :=
  take (String.length from - String.length to) from.

Definition advance (c : ascii) (s' : string) (st : mstate) : mstate :=
  MState (S (pos st)) (Some c) s' (caps st).

Fixpoint rep (greedy : bool) (p : ascii -> bool) (k : cont) (min : nat)
    (s : string) (i : nat) (pv : option ascii) (cs : captures) {struct s}
    : option mstate :=
  match s with
  | String c s' =>
      if p c then
        if greedy then
          match rep greedy p k (pred min) s' (S i) (Some c) cs with
          | Some r => Some r
          | None => match min with 0 => k (MState i pv s cs) | S _ => None end
          end
        else
          match (match min with 0 => k (MState i pv s cs) | S _ => None end) with
          | Some r => Some r
          | None => rep greedy p k (pred min) s' (S i) (Some c) cs
          end
      else match min with 0 => k (MState i pv s cs) | S _ => None end
  | EmptyString => match min with 0 => k (MState i pv s cs) | S _ => None end
  end.

Fixpoint mtch (r : regex) (k : cont) (st : mstate) : option mstate :=
  match r with
  | Eps => k st
  | Chr c =>
      match rest st with
      | String d s' => if Ascii.eqb c d then k (advance d s' st) else None
      | EmptyString => None
      end
  | ChrI c =>
      match rest st with
      | String d s' =>
          if Ascii.eqb (lower_char c) (lower_char d) then k (advance d s' st) else None
      | EmptyString => None
      end
  | Cls p =>
      match rest st with
      | String d s' => if p d then k (advance d s' st) else None
      | EmptyString => None
      end
  | Rep g min p => rep g p k min (rest st) (pos st) (prev st) (caps st)
  | Seq r1 r2 => mtch r1 (mtch r2 k) st
  | Alt r1 r2 =>
      match mtch r1 k st with
      | Some x => Some x
      | None => mtch r2 k st
      end
  | Opt r1 =>
      match mtch r1 k st with
      | Some x => Some x
      | None => k st
      end
  | Grp n r1 =>
      mtch r1 (fun st' =>
        k (MState (pos st') (prev st') (rest st')
             ((n, consumed (rest st) (rest st')) :: caps st'))) st
  | Ahead p =>
      match rest st with
      | String d _ => if p d then k st else None
      | EmptyString => None
      end
  | NotBehind c =>
      match prev st with
      | Some d => if Ascii.eqb c d then None else k st
      | None => k st
      end
  | Bol => match prev st with None => k st | Some _ => None end
  | Eol => match rest st with EmptyString => k st | String _ _ => None end
  end.

(** The result of [exec]/[match]: where the match starts and ends, its
    text, its captures and the text that follows it. *)
Record match_result : Type := MatchResult {
  m_index : nat;
  m_end : nat;
  m_text : string;
  m_caps : captures;
  m_after : string
}.

(** One attempt, at the current position. *)
Definition match_here (r : regex) (s : string) (i : nat) (pv : option ascii)
    : option match_result :=
  match mtch r Some (MState i pv s []) with
  | Some st => Some (MatchResult i (pos st) (consumed s (rest st)) (caps st) (rest st))
  | None => None
  end.

(** The leftmost match at or after the current position. *)
Fixpoint search (r : regex) (s : string) (i : nat) (pv : option ascii)
    : option match_result :=
  match match_here r s i pv with
  | Some m => Some m
  | None =>
      match s with
      | String c s' => search r s' (S i) (Some c)
      | EmptyString => None
      end
  end.

(** [re.exec(s)] of a global expression whose [lastIndex] is [lastIndex];
    the new [lastIndex] is [m_end], and 0 after a failure. *)
Fixpoint exec_from (r : regex) (s : string) (lastIndex : nat) (i : nat)
    (pv : option ascii) {struct lastIndex} : option match_result :=
  match lastIndex with
  | 0 => search r s i pv
  | S n =>
      match s with
      | String c s' => exec_from r s' n (S i) (Some c)
      | EmptyString => None
      end
  end.

Definition exec (r : regex) (s : string) (lastIndex : nat) : option match_result :=
  exec_from r s lastIndex 0 None.

(** [s.match(re)] without the flag g, and [re.test(s)]. *)
Definition match_ (r : regex) (s : string) : option match_result := exec r s 0.

Definition test (r : regex) (s : string) : bool :=
  match match_ r s with Some _ => true | None => false end.

(** GetSubstitution: the replacement text of a match, with [$$], [$&],
    [$`], [$'] and [$n]/[$nn] expanded; [ngroups] is the number of capture
    groups of the pattern (0 for a string pattern). *)
Definition digit_val (c : ascii) : nat := code c - 48.

Fixpoint getSubstitution (ngroups : nat) (cs : captures)
    (matched before after template : string) : string :=
  match template with
  | EmptyString => EmptyString
  | String c t1 =>
      if Ascii.eqb c "$" then
        match t1 with
        | EmptyString => "$"
        | String d t2 =>
            if Ascii.eqb d "$" then
              String "$" (getSubstitution ngroups cs matched before after t2)
            else if Ascii.eqb d "&" then
              matched ++ getSubstitution ngroups cs matched before after t2
            else if Ascii.eqb d "`" then
              before ++ getSubstitution ngroups cs matched before after t2
            else if Ascii.eqb d "'" then
              after ++ getSubstitution ngroups cs matched before after t2
            else if is_digit d then
              let one :=
                if (1 <=? digit_val d) && (digit_val d <=? ngroups)
                then capture_text (digit_val d) cs
                       ++ getSubstitution ngroups cs matched before after t2
                else String "$" (String d (getSubstitution ngroups cs matched before after t2)) in
              match t2 with
              | String e t3 =>
                  let nn := 10 * digit_val d + digit_val e in
                  if is_digit e && (1 <=? nn) && (nn <=? ngroups)
                  then capture_text nn cs
                         ++ getSubstitution ngroups cs matched before after t3
                  else one
              | EmptyString => one
              end
            else String "$" (String d (getSubstitution ngroups cs matched before after t2))
        end
      else String c (getSubstitution ngroups cs matched before after t1)
  end.

(** [s.replace(re, f)] for a global expression: the matches are found left
    to right, each search starting where the previous match ended. [whole]
    is the subject, [s] its part from index [i] on, [skip] the number of
    characters of the current match still to be passed over. *)
Fixpoint replace_go (r : regex) (f : string -> match_result -> string)
    (whole s : string) (i : nat) (pv : option ascii) (skip : nat) : string :=
  match skip with
  | S k =>
      match s with
      | String c s' => replace_go r f whole s' (S i) (Some c) k
      | EmptyString => EmptyString
      end
  | 0 =>
      match match_here r s i pv with
      | Some m =>
          f (take i whole) m ++
          match m_end m - i with
          | 0 =>
              match s with
              | String c s' => String c (replace_go r f whole s' (S i) (Some c) 0)
              | EmptyString => EmptyString
              end
          | S k =>
              match s with
              | String c s' => replace_go r f whole s' (S i) (Some c) k
              | EmptyString => EmptyString
              end
          end
      | None =>
          match s with
          | String c s' => String c (replace_go r f whole s' (S i) (Some c) 0)
          | EmptyString => EmptyString
          end
      end
  end.

(** [s.replace(re, callback)] *)
Definition replace_with (r : regex) (f : match_result -> string) (s : string) : string :=
  replace_go r (fun _ m => f m) s s 0 None 0.

(** [s.replace(re, template)], [re] global with [ngroups] groups. *)
Definition replace (r : regex) (ngroups : nat) (template : string) (s : string) : string :=
  replace_go r
    (fun before m => getSubstitution ngroups (m_caps m) (m_text m) before (m_after m) template)
    s s 0 None 0.

(** [s.replace(pattern, template)] for a string pattern: the first
    occurrence only, the template expanded as above. *)
Definition replace_first (pattern template s : string) : string :=
  match indexOf pattern s with
  | None => s
  | Some i =>
      let before := take i s in
      let after := drop (i + String.length pattern) s in
      before ++ getSubstitution 0 [] pattern before after template ++ after
  end.

(** [s.split(/\s+/)] *)
Fixpoint split_ws_go (s : string) (in_sep : bool) (acc : string) : list string :=
  match s with
  | EmptyString => [acc]
  | String c s' =>
      if is_space c
      then if in_sep then split_ws_go s' true acc
           else acc :: split_ws_go s' true EmptyString
      else split_ws_go s' false (acc ++ str1 c)
  end.

Definition split_ws (s : string) : list string := split_ws_go s false EmptyString.

(** ** Values and [JSON.parse] *)

#[local] Unset Elimination Schemes.
Inductive JSValue : Type :=
| JUndefined
| JNull
| JBool (b : bool)
| JNum (q : Q)
| JStr (s : string)
| JArr (items : list JSValue)
| JObj (fields : list (string * JSValue)).
#[local] Set Elimination Schemes.

(** ToBoolean (NaN does not occur: numbers are rationals). *)
Definition truthy (v : JSValue) : bool :=
  match v with
  | JUndefined | JNull => false
  | JBool b => b
  | JNum q => negb (Qeq_bool q 0)
  | JStr s => negb (String.eqb s EmptyString)
  | JArr _ | JObj _ => true
  end.

(** Own property lookup of an object built by [JSON.parse]: the last
    definition of a duplicated key wins. *)
Fixpoint get_field (k : string) (fields : list (string * JSValue)) : JSValue :=
  match fields with
  | [] => JUndefined
  | (k', v) :: rest =>
      match get_field k rest with
      | JUndefined => if String.eqb k k' then v else JUndefined
      | later => later
      end
  end.

Inductive token : Type :=
| TLBrace | TRBrace | TLBracket | TRBracket | TColon | TComma
| TStr (s : string) | TNum (q : Q) | TTrue | TFalse | TNull.

Fixpoint span (p : ascii -> bool) (s : string) : string * string :=
  match s with
  | String c s' =>
      if p c then let (a, b) := span p s' in (String c a, b) else (EmptyString, s)
  | EmptyString => (EmptyString, EmptyString)
  end.

Fixpoint digits_value (s : string) (acc : Z) : Z :=
  match s with
  | EmptyString => acc
  | String c s' => digits_value s' (10 * acc + Z.of_nat (digit_val c))%Z
  end.

(** The JSON number grammar: an optional minus sign; 0, or a nonzero digit
    and further digits; optionally a point and one digit or more; optionally
    e or E, a sign and one digit or more. *)
Definition parse_number (s : string) : option Q :=
  let (neg, s1) :=
    match s with
    | String c r => if Ascii.eqb c "-" then (true, r) else (false, s)
    | EmptyString => (false, s)
    end in
  let (ip, s2) := span is_digit s1 in
  let int_ok :=
    match ip with
    | EmptyString => false
    | String c r => negb (Ascii.eqb c "0") || String.eqb r EmptyString
    end in
  let '(frac_ok, fp, s3) :=
    match s2 with
    | String c r =>
        if Ascii.eqb c "." then
          let (f, r') := span is_digit r in (negb (String.eqb f EmptyString), f, r')
        else (true, EmptyString, s2)
    | EmptyString => (true, EmptyString, s2)
    end in
  let '(exp_ok, ex, s4) :=
    match s3 with
    | String c r =>
        if Ascii.eqb c "e" || Ascii.eqb c "E" then
          let (eneg, r1) :=
            match r with
            | String d r' =>
                if Ascii.eqb d "-" then (true, r')
                else if Ascii.eqb d "+" then (false, r') else (false, r)
            | EmptyString => (false, r)
            end in
          let (e, r2) := span is_digit r1 in
          (negb (String.eqb e EmptyString),
           (if eneg then Z.opp (digits_value e 0) else digits_value e 0), r2)
        else (true, 0%Z, s3)
    | EmptyString => (true, 0%Z, s3)
    end in
  if int_ok && frac_ok && exp_ok && String.eqb s4 EmptyString then
    let m := digits_value (ip ++ fp) 0 in
    let m' := if neg then Z.opp m else m in
    Some (Qred (inject_Z m' * Qpower (inject_Z 10) (ex - Z.of_nat (String.length fp))))
  else None.

Definition classify_word (w : string) : option token :=
  if String.eqb w "true" then Some TTrue
  else if String.eqb w "false" then Some TFalse
  else if String.eqb w "null" then Some TNull
  else option_map TNum (parse_number w).

Definition is_json_space (c : ascii) : bool :=
  let n := code c in (n =? 9) || (n =? 10) || (n =? 13) || (n =? 32).

Definition is_word_char (c : ascii) : bool :=
  is_digit c || in_range "a" "z" c || in_range "A" "Z" c
  || one_of "-+." c.

Definition is_word_start (c : ascii) : bool :=
  is_digit c || in_range "a" "z" c || in_range "A" "Z" c || Ascii.eqb c "-".

Definition hex_val (c : ascii) : option nat :=
  if is_digit c then Some (code c - 48)
  else if in_range "a" "f" c then Some (code c - 87)
  else if in_range "A" "F" c then Some (code c - 55)
  else None.

Inductive lex_mode : Type :=
| LDefault
| LWord (acc : string)
| LStr (acc : string)
| LEsc (acc : string)
| LUni (acc : string) (digits : list nat).

(** A [\uXXXX] escape above U+00FF denotes a code unit outside the model's
    strings: the lexer refuses it. *)
Fixpoint lex (s : string) (mode : lex_mode) : option (list token) :=
  let default (c : ascii) (s' : string) : option (list token) :=
    if is_json_space c then lex s' LDefault
    else if Ascii.eqb c "{" then option_map (cons TLBrace) (lex s' LDefault)
    else if Ascii.eqb c "}" then option_map (cons TRBrace) (lex s' LDefault)
    else if Ascii.eqb c "[" then option_map (cons TLBracket) (lex s' LDefault)
    else if Ascii.eqb c "]" then option_map (cons TRBracket) (lex s' LDefault)
    else if Ascii.eqb c ":" then option_map (cons TColon) (lex s' LDefault)
    else if Ascii.eqb c "," then option_map (cons TComma) (lex s' LDefault)
    else if Ascii.eqb c (ascii_of_nat 34) then lex s' (LStr EmptyString)
    else if is_word_start c then lex s' (LWord (str1 c))
    else None in
  match s with
  | EmptyString =>
      match mode with
      | LDefault => Some []
      | LWord w => option_map (fun t => [t]) (classify_word w)
      | _ => None
      end
  | String c s' =>
      match mode with
      | LDefault => default c s'
      | LWord w =>
          if is_word_char c then lex s' (LWord (w ++ str1 c))
          else match classify_word w with
               | Some t => option_map (cons t) (default c s')
               | None => None
               end
      | LStr acc =>
          if Ascii.eqb c (ascii_of_nat 34) then option_map (cons (TStr acc)) (lex s' LDefault)
          else if Ascii.eqb c "\" then lex s' (LEsc acc)
          else if code c <? 32 then None
          else lex s' (LStr (acc ++ str1 c))
      | LEsc acc =>
          if Ascii.eqb c (ascii_of_nat 34) || Ascii.eqb c "\" || Ascii.eqb c "/"
          then lex s' (LStr (acc ++ str1 c))
          else if Ascii.eqb c "b" then lex s' (LStr (acc ++ str1 (ascii_of_nat 8)))
          else if Ascii.eqb c "f" then lex s' (LStr (acc ++ str1 (ascii_of_nat 12)))
          else if Ascii.eqb c "n" then lex s' (LStr (acc ++ str1 (ascii_of_nat 10)))
          else if Ascii.eqb c "r" then lex s' (LStr (acc ++ str1 (ascii_of_nat 13)))
          else if Ascii.eqb c "t" then lex s' (LStr (acc ++ str1 (ascii_of_nat 9)))
          else if Ascii.eqb c "u" then lex s' (LUni acc [])
          else None
      | LUni acc ds =>
          match hex_val c with
          | None => None
          | Some d =>
              match ds with
              | [d1; d2; d3] =>
                  let n := ((d1 * 16 + d2) * 16 + d3) * 16 + d in
                  if n <? 256 then lex s' (LStr (acc ++ str1 (ascii_of_nat n))) else None
              | _ => lex s' (LUni acc (ds ++ [d]))
              end
          end
      end
  end.

(** The parser proper: a stack of the arrays and objects still open. *)
Inductive frame : Type :=
| FArr (done : list JSValue)
| FObj (done : list (string * JSValue)) (key : string).

Inductive parse_mode : Type :=
| PValue                               (* a value must come *)
| PValueOrClose                        (* just after [ *)
| PKeyOrClose (done : list (string * JSValue))   (* just after { *)
| PKey (done : list (string * JSValue))          (* after , in an object *)
| PColon (done : list (string * JSValue)) (key : string)
| PAfter                               (* after a value inside a frame *)
| PDone (v : JSValue).                 (* the top-level value is complete *)

Definition push_value (v : JSValue) (stack : list frame) : list frame * parse_mode :=
  match stack with
  | [] => ([], PDone v)
  | FArr done :: st => (FArr (v :: done) :: st, PAfter)
  | FObj done key :: st => (FObj ((key, v) :: done) key :: st, PAfter)
  end.

Fixpoint parse_tokens (ts : list token) (stack : list frame) (mode : parse_mode)
    : option JSValue :=
  match ts with
  | [] => match mode with PDone v => Some v | _ => None end
  | t :: ts' =>
      let value (allow_close : bool) : option JSValue :=
        match t with
        | TStr s => let (st, m) := push_value (JStr s) stack in parse_tokens ts' st m
        | TNum q => let (st, m) := push_value (JNum q) stack in parse_tokens ts' st m
        | TTrue => let (st, m) := push_value (JBool true) stack in parse_tokens ts' st m
        | TFalse => let (st, m) := push_value (JBool false) stack in parse_tokens ts' st m
        | TNull => let (st, m) := push_value JNull stack in parse_tokens ts' st m
        | TLBracket => parse_tokens ts' (FArr [] :: stack) PValueOrClose
        | TLBrace => parse_tokens ts' stack (PKeyOrClose [])
        | TRBracket =>
            if allow_close then
              match stack with
              | FArr done :: st =>
                  let (st', m) := push_value (JArr (rev done)) st in parse_tokens ts' st' m
              | _ => None
              end
            else None
        | _ => None
        end in
      match mode with
      | PValue => value false
      | PValueOrClose => value true
      | PKeyOrClose done =>
          match t with
          | TStr k => parse_tokens ts' stack (PColon done k)
          | TRBrace => let (st, m) := push_value (JObj (rev done)) stack in parse_tokens ts' st m
          | _ => None
          end
      | PKey done =>
          match t with
          | TStr k => parse_tokens ts' stack (PColon done k)
          | _ => None
          end
      | PColon done k =>
          match t with
          | TColon => parse_tokens ts' (FObj done k :: stack) PValue
          | _ => None
          end
      | PAfter =>
          match t, stack with
          | TComma, FArr _ :: _ => parse_tokens ts' stack PValue
          | TRBracket, FArr done :: st =>
              let (st', m) := push_value (JArr (rev done)) st in parse_tokens ts' st' m
          | TComma, FObj done _ :: st => parse_tokens ts' st (PKey done)
          | TRBrace, FObj done _ :: st =>
              let (st', m) := push_value (JObj (rev done)) st in parse_tokens ts' st' m
          | _, _ => None
          end
      | PDone _ => None
      end
  end.

(** [JSON.parse(text)]; [None] stands for the SyntaxError it throws. *)
Definition JSON_parse (text : string) : option JSValue :=
  match lex text LDefault with
  | Some ts => parse_tokens ts [] PValue
  | None => None
  end.

(** ** Conversions *)

(** A number as [Number(v)] produces it. *)
Inductive Num : Type :=
| Finite (q : Q)
| NaN
| Infinite (negative : bool).

Definition hex_digits_value (base : nat) (s : string) : option Z :=
  (fix go (s : string) (acc : Z) : option Z :=
     match s with
     | EmptyString => Some acc
     | String c s' =>
         match hex_val c with
         | Some d => if d <? base then go s' (Z.of_nat base * acc + Z.of_nat d)%Z else None
         | None => None
         end
     end) s 0%Z.

(** StringToNumber: the text trimmed; empty is 0; Infinity with a sign; a
    decimal literal with a sign, a point and an exponent; a hexadecimal,
    octal or binary integer literal; anything else is NaN. *)
Definition StringToNumber (text : string) : Num :=
  let s := trim text in
  let radix (r : string) (base : nat) : Num :=
    match r with
    | EmptyString => NaN
    | _ => match hex_digits_value base r with
           | Some z => Finite (inject_Z z)
           | None => NaN
           end
    end in
  let decimal (neg : bool) (s1 : string) : Num :=
    if String.eqb s1 "Infinity" then Infinite neg
    else
      let (ip, s2) := span is_digit s1 in
      let '(fp, s3) :=
        match s2 with
        | String c r => if Ascii.eqb c "." then span is_digit r else (EmptyString, s2)
        | EmptyString => (EmptyString, s2)
        end in
      let '(exp_ok, ex, s4) :=
        match s3 with
        | String c r =>
            if Ascii.eqb c "e" || Ascii.eqb c "E" then
              let (eneg, r1) :=
                match r with
                | String d r' =>
                    if Ascii.eqb d "-" then (true, r')
                    else if Ascii.eqb d "+" then (false, r') else (false, r)
                | EmptyString => (false, r)
                end in
              let (e, r2) := span is_digit r1 in
              (negb (String.eqb e EmptyString),
               (if eneg then Z.opp (digits_value e 0) else digits_value e 0), r2)
            else (true, 0%Z, s3)
        | EmptyString => (true, 0%Z, s3)
        end in
      if negb (String.eqb (ip ++ fp) EmptyString) && exp_ok && String.eqb s4 EmptyString
      then
        let m := digits_value (ip ++ fp) 0 in
        let m' := if neg then Z.opp m else m in
        Finite (Qred (inject_Z m' * Qpower (inject_Z 10) (ex - Z.of_nat (String.length fp))))
      else NaN in
  match s with
  | EmptyString => Finite 0
  | String c r =>
      if Ascii.eqb c "-" then decimal true r
      else if Ascii.eqb c "+" then decimal false r
      else if startsWith "0x" s || startsWith "0X" s then radix (drop 2 s) 16
      else if startsWith "0o" s || startsWith "0O" s then radix (drop 2 s) 8
      else if startsWith "0b" s || startsWith "0B" s then radix (drop 2 s) 2
      else decimal false s
  end.

(** [Number(v)].  An array converts through its text: the empty array is
    0, an array of one item converts as the text of that item, a longer one
    has a comma in its text. *)
Fixpoint ToNumber (v : JSValue) : Num :=
  match v with
  | JUndefined => NaN
  | JNull => Finite 0
  | JBool b => Finite (if b then 1 else 0)
  | JNum q => Finite q
  | JStr s => StringToNumber s
  | JArr [] => Finite 0
  | JArr [x] =>
      match x with
      | JUndefined | JNull => Finite 0
      | JBool _ | JObj _ => NaN
      | _ => ToNumber x
      end
  | JArr _ => NaN
  | JObj _ => NaN
  end.

(** [String(v)]; [numberToString] is Number.prototype.toString. *)
Fixpoint ToString (numberToString : Q -> string) (v : JSValue) : string :=
  match v with
  | JUndefined => "undefined"
  | JNull => "null"
  | JBool b => if b then "true" else "false"
  | JNum q => numberToString q
  | JStr s => s
  | JArr items =>
      join ","
        ((fix each (l : list JSValue) : list string :=
            match l with
            | [] => []
            | x :: l' =>
                match x with
                | JUndefined | JNull => EmptyString
                | _ => ToString numberToString x
                end :: each l'
            end) items)
  | JObj _ => "[object Object]"
  end.

(** [v.name] for the property names the code reads ([steps], [length],
    [day], ...): a TypeError on null and undefined. *)
Definition get_prop (v : JSValue) (name : string) : JSValue + string :=
  match v with
  | JUndefined => inr ("TypeError: Cannot read properties of undefined (reading '" ++ name ++ "')")
  | JNull => inr ("TypeError: Cannot read properties of null (reading '" ++ name ++ "')")
  | JObj fields => inl (get_field name fields)
  | JArr items =>
      inl (if String.eqb name "length" then JNum (inject_Z (Z.of_nat (List.length items)))
           else JUndefined)
  | JStr s =>
      inl (if String.eqb name "length" then JNum (inject_Z (Z.of_nat (String.length s)))
           else JUndefined)
  | JBool _ | JNum _ => inl JUndefined
  end.

(** [v?.name] *)
Definition get_prop_opt (v : JSValue) (name : string) : JSValue :=
  match get_prop v name with
  | inl x => x
  | inr _ => JUndefined
  end.

(** [a ?? b] and [a || b] *)
Definition nullish (a b : JSValue) : JSValue :=
  match a with
  | JUndefined | JNull => b
  | _ => a
  end.

Definition or_else (a b : JSValue) : JSValue := if truthy a then a else b.

(** [array.slice(0, end)], [end] an integer: a negative [end] counts from
    the end of the array. *)
Definition slice0 {A : Type} (l : list A) (e : Z) : list A :=
  if (0 <=? e)%Z then firstn (Z.to_nat e) l
  else firstn (Z.to_nat (Z.of_nat (List.length l) + e)) l.

(** [parseInt(text)]: white space at the start and a sign are skipped, a
    0x prefix makes the digits hexadecimal, and the digits are read as far
    as they go; [None] is NaN, the result when there is no digit.  (Beyond
    2^53 the engine rounds the integer to a double.) *)
Definition parseInt (text : string) : option Z :=
  let s := trimStart text in
  let (negative, s) :=
    match s with
    | String c r =>
        if Ascii.eqb c "-" then (true, r)
        else if Ascii.eqb c "+" then (false, r) else (false, s)
    | EmptyString => (false, s)
    end in
  let sign (z : Z) : Z := if negative then Z.opp z else z in
  if startsWith "0x" s || startsWith "0X" s
  then
    match fst (span (fun c => match hex_val c with Some _ => true | None => false end)
                 (drop 2 s)) with
    | EmptyString => None
    | digits => option_map sign (hex_digits_value 16 digits)
    end
  else
    match fst (span is_digit s) with
    | EmptyString => None
    | digits => Some (sign (digits_value digits 0))
    end.



(** ** Completions

    How a call ends: it returns a value, throws (the exception is kept as
    its message), or its loop is still running when the fuel is spent. *)

Inductive Outcome (A : Type) : Type :=
| Returned (a : A)
| Thrown (message : string)
| OutOfFuel.

Arguments Returned {A} a.
Arguments Thrown {A} message.
Arguments OutOfFuel {A}.

Definition obind {A B : Type} (x : Outcome A) (f : A -> Outcome B) : Outcome B :=
  match x with
  | Returned a => f a
  | Thrown e => Thrown e
  | OutOfFuel => OutOfFuel
  end.

Declare Scope outcome_scope.
Delimit Scope outcome_scope with outcome.
Notation "x <~ m ;; k" := (obind m (fun x => k))
  (at level 61, m at next level, right associativity) : outcome_scope.

(** [try { body } catch (e) { handler(e) }] *)
Definition otry {A : Type} (body : Outcome A) (handler : string -> Outcome A) : Outcome A :=
  match body with
  | Thrown e => handler e
  | other => other
  end.

(** [JSON.parse] as a call that may throw. *)
Definition JSON_parse_call (text : string) : Outcome JSValue :=
  match JSON_parse text with
  | Some v => Returned v
  | None => Thrown "SyntaxError: Unexpected token in JSON"
  end.

End JS.

(* ===================================================================== *)
(** * services/llmClient.js: [extractJSON] and its repair tiers *)
(* ===================================================================== *)

Module LlmClient.
Import JS.

Definition quote : string := String "034" EmptyString.

(** The two quote characters, the class ['\x22]. *)
Definition quotes : string := "'" ++ quote.

(** /,\s*([}\]])/g *)
Definition trailingComma : regex :=
  Seq (Chr ",") (Seq (star is_space) (Grp 1 (Cls (one_of "}]")))).

(** /\.\.\.+/g *)
Definition ellipsis : regex :=
  Seq (Chr ".") (Seq (Chr ".") (plus (one_of "."))).

(** The key-quoting expression, flag g: group 1 is [{,] and then \s* ; group
    2 is [a-zA-Z0-9_$]+ ; then \s* and a colon. *)
Definition unquotedKey : regex :=
  Seq (Grp 1 (Seq (Cls (one_of "{,")) (star is_space)))
    (Seq (Grp 2 (plus is_ident)) (Seq (star is_space) (Chr ":"))).

(** /(?<!\\)'/g *)
Definition singleQuote : regex := Seq (NotBehind "\") (Chr "'").

(** The array-trailing-comma expression, flag g: group 1 is either \[ and
    \s* or a comma and \s* ; then \s*,\s* ; group 2 is [\]\}]. *)
Definition arrayTrailingComma : regex :=
  Seq (Grp 1 (Alt (Seq (Chr "[") (star is_space)) (Seq (Chr ",") (star is_space))))
    (Seq (star is_space)
       (Seq (Chr ",") (Seq (star is_space) (Grp 2 (Cls (one_of "]}")))))).

(** /}\s*{/g *)
Definition adjacentObjects : regex :=
  Seq (Chr "}") (Seq (star is_space) (Chr "{")).

(** /]\s*\[/g *)
Definition adjacentArrays : regex :=
  Seq (Chr "]") (Seq (star is_space) (Chr "[")).

(** /\[([^\[\]]*?)\]/g *)
Definition arrayRegex : regex :=
  Seq (Chr "[") (Seq (Grp 1 (star_lazy (none_of "[]"))) (Chr "]")).

(** /(['\x22])\s+(['\x22])/g *)
Definition stringsWithoutComma : regex :=
  Seq (Grp 1 (Cls (one_of quotes)))
    (Seq (plus is_space) (Grp 2 (Cls (one_of quotes)))).

(** The class [{['\x22tf] of the look-aheads. *)
Definition itemStart (c : ascii) : bool := one_of ("{[" ++ quotes ++ "tf") c.

(** /true\s+(?=[{['\x22tf])/g and /false\s+(?=[{['\x22tf])/g *)
Definition trueWithoutComma : regex :=
  Seq (lit "true") (Seq (plus is_space) (Ahead itemStart)).

Definition falseWithoutComma : regex :=
  Seq (lit "false") (Seq (plus is_space) (Ahead itemStart)).

(** /(\d+)\s+(?=[{['\x22tf\d])/g *)
Definition numberWithoutComma : regex :=
  Seq (Grp 1 (plus is_digit))
    (Seq (plus is_space) (Ahead (fun c => itemStart c || is_digit c))).

(** The four replacements applied to the content of one array. *)
Definition fixArrayContent (arrayContent : string) : string :=
  replace numberWithoutComma 1 "$1, "
    (replace falseWithoutComma 0 "false, "
       (replace trueWithoutComma 0 "true, "
          (replace stringsWithoutComma 2 "$1, $2" arrayContent))).

(** One turn of [while ((match = arrayRegex.exec(cleaned)) !== null)]:
    [None] when [exec] returns null, otherwise the new [cleaned] and the
    new [lastIndex] of the expression. *)
Definition arrayStep (cleaned : string) (lastIndex : nat) : option (string * nat) :=
  match exec arrayRegex cleaned lastIndex with
  | None => None
  | Some m =>
      let arrayContent := capture_text 1 (m_caps m) in
      if String.eqb arrayContent EmptyString then Some (cleaned, m_end m)
      else
        Some (replace_first ("[" ++ arrayContent ++ "]")
                ("[" ++ fixArrayContent arrayContent ++ "]") cleaned,
              m_end m)
  end.

Fixpoint arrayLoop (fuel : nat) (cleaned : string) (lastIndex : nat) : Outcome string :=
  match fuel with
  | 0 => OutOfFuel
  | S f =>
      match arrayStep cleaned lastIndex with
      | None => Returned cleaned
      | Some (cleaned', lastIndex') => arrayLoop f cleaned' lastIndex'
      end
  end.

(** The replacements of [cleanupJSON] that come before its loop. *)
Definition cleanupReplacements (text : string) : string :=
  let cleaned := replace trailingComma 1 "$1" text in
  let cleaned := replace ellipsis 0 (quote ++ quote) cleaned in
  let cleaned := replace unquotedKey 2 ("$1" ++ quote ++ "$2" ++ quote ++ ":") cleaned in
  let cleaned := replace singleQuote 0 quote cleaned in
  let cleaned := replace arrayTrailingComma 2 "$1$2" cleaned in
  let cleaned := replace adjacentObjects 0 "}, {" cleaned in
  replace adjacentArrays 0 "], [" cleaned.

Definition cleanupJSON (fuel : nat) (text : string) : Outcome string :=
  if String.eqb text EmptyString then Returned text
  else arrayLoop fuel (cleanupReplacements text) 0.

(** /\x22([a-zA-Z0-9_$]+)\x22\s*:\s*([^\[{][^,}\]]*?)(?=[,}])/g *)
Definition bareValue : regex :=
  Seq (Chr "034")
    (Seq (Grp 1 (plus is_ident))
       (Seq (Chr "034")
          (Seq (star is_space)
             (Seq (Chr ":")
                (Seq (star is_space)
                   (Seq (Grp 2 (Seq (Cls (none_of "[{")) (star_lazy (none_of ",}]"))))
                      (Ahead (one_of ",}")))))))).

Definition fixArrays (str : string) : string :=
  replace_with bareValue
    (fun m =>
       let key := capture_text 1 (m_caps m) in
       let value := capture_text 2 (m_caps m) in
       if (1 <? List.length (split_ws (trim value)))
          && negb (includes value "[") && negb (includes value "{")
       then
         let items :=
           join ", "
             (map (fun item => quote ++ replace (Cls (one_of quotes)) 0 "" item ++ quote)
                (split_ws (trim value))) in
         quote ++ key ++ quote ++ ": [" ++ items ++ "]"
       else m_text m)
    str.

Definition balanceBrackets (str : string) : string :=
  let openBraces := count_char "{" str in
  let closeBraces := count_char "}" str in
  let openBrackets := count_char "[" str in
  let closeBrackets := count_char "]" str in
  let result := str ++ repeat_str "}" (openBraces - closeBraces) in
  let closeBraces := closeBraces + (openBraces - closeBraces) in
  let result := result ++ repeat_str "]" (openBrackets - closeBrackets) in
  let closeBrackets := closeBrackets + (openBrackets - closeBrackets) in
  if (openBraces <? closeBraces) || (openBrackets <? closeBrackets) then str
  else result.

Definition deepCleanJSON (fuel : nat) (text : string) : Outcome string :=
  if String.eqb text EmptyString then Returned text
  else obind (cleanupJSON fuel text) (fun cleaned =>
         Returned (balanceBrackets (fixArrays cleaned))).

(** /```(?:json)?([\s\S]*?)```/i *)
Definition tripleFence : regex :=
  Seq (lit_i "```")
    (Seq (Opt (lit_i "json")) (Seq (Grp 1 (star_lazy any_char)) (lit_i "```"))).

(** /`([\s\S]*?)`/ *)
Definition singleFence : regex :=
  Seq (Chr "`") (Seq (Grp 1 (star_lazy any_char)) (Chr "`")).

(** /{[\s\S]*?}/ *)
Definition jsonPattern : regex :=
  Seq (Chr "{") (Seq (star_lazy any_char) (Chr "}")).

(** /^\s*\{[\s\S]*\}\s*$/ *)
Definition objectLiteral : regex :=
  Seq Bol
    (Seq (star is_space)
       (Seq (Chr "{")
          (Seq (star any_char) (Seq (Chr "}") (Seq (star is_space) Eol))))).

(** /(function|eval|setTimeout|setInterval|new\s+Function)/ *)
Definition unsafeCode : regex :=
  Grp 1
    (Alt (lit "function")
       (Alt (lit "eval")
          (Alt (lit "setTimeout")
             (Alt (lit "setInterval")
                (Seq (lit "new") (Seq (plus is_space) (lit "Function"))))))).

(** The text handed to the parsers: the inside of the first code fence, if
    the text has one with something in it. *)
Definition fencedContent (text : string) : string :=
  match match_ tripleFence text with
  | Some m =>
      if negb (String.eqb (capture_text 1 (m_caps m)) EmptyString)
      then trim (capture_text 1 (m_caps m))
      else
        match match_ singleFence text with
        | Some m' =>
            if negb (String.eqb (capture_text 1 (m_caps m')) EmptyString)
            then trim (capture_text 1 (m_caps m')) else text
        | None => text
        end
  | None =>
      match match_ singleFence text with
      | Some m' =>
          if negb (String.eqb (capture_text 1 (m_caps m')) EmptyString)
          then trim (capture_text 1 (m_caps m')) else text
      | None => text
      end
  end.

(** [try { ...; return v } catch (e) {}] followed by [next]: the attempt
    returns from the function ([Some v]), falls through ([None]) or throws,
    and a throw is swallowed. *)
Definition attempt (a : Outcome (option JSValue)) (next : Outcome JSValue)
    : Outcome JSValue :=
  match a with
  | Returned (Some v) => Returned v
  | Returned None => next
  | Thrown _ => next
  | OutOfFuel => OutOfFuel
  end.

Definition returning (a : Outcome JSValue) : Outcome (option JSValue) :=
  obind a (fun v => Returned (Some v)).

(** [extractJSON(text)]; the argument is [None] for null or undefined. *)
Definition extractJSON (fuel : nat) (text : option string) : Outcome JSValue :=
  match text with
  | None => Returned JNull
  | Some text =>
      if String.eqb text EmptyString then Returned JNull
      else
        let jsonContent := fencedContent text in
        otry
          ((* Method 1: direct parse *)
           attempt (returning (JSON_parse_call jsonContent))
          ((* Method 2: basic cleanup then parse *)
           attempt (returning (obind (cleanupJSON fuel jsonContent) JSON_parse_call))
          ((* Method 3: deep cleanup then parse *)
           attempt (returning (obind (deepCleanJSON fuel jsonContent) JSON_parse_call))
          ((* Method 4: the first {...} of the text *)
           attempt
             (match match_ jsonPattern text with
              | Some m =>
                  returning (obind (deepCleanJSON fuel (m_text m)) JSON_parse_call)
              | None => Returned None
              end)
          ((* Method 5: object literal made into JSON *)
           attempt
             (if test objectLiteral jsonContent && negb (test unsafeCode jsonContent)
              then
                let safeJson :=
                  replace trailingComma 1 "$1"
                    (replace singleQuote 0 quote
                       (replace unquotedKey 2 ("$1" ++ quote ++ "$2" ++ quote ++ ":")
                          jsonContent)) in
                returning (JSON_parse_call safeJson)
              else Returned None)
          ((* All methods failed *)
           Returned JNull))))))
          (fun _ => Returned JNull)
  end.

End LlmClient.

(* ===================================================================== *)
(** * The outside world and asynchronous functions *)
(* ===================================================================== *)

Module Async.
Import JS.

(** The answer of an external service: a value, or a failure (a network
    error, a timeout, a status that is not 2xx) with its message. *)
Inductive Reply (A : Type) : Type :=
| Ok (a : A)
| Failed (message : string).

Arguments Ok {A} a.
Arguments Failed {A} message.

(** A message sent to the language model: the opening words of its template
    and the values interpolated into it, in order. *)
Record Prompt : Type := mkPrompt {
  template : string;
  values : list string
}.

(** The instant-answer payload of the search API; an absent field reads as
    the empty string, [RelatedTopics] is [None] when it is not an array.  A
    payload of another shape, on which the code would throw, is a failed
    request. *)
Record RelatedTopic : Type := mkRelatedTopic {
  FirstURL : string;
  Text : string
}.

Record SearchData : Type := mkSearchData {
  AbstractText : string;
  AbstractURL : string;
  Heading : string;
  AbstractSource : string;
  RelatedTopics : option (list RelatedTopic)
}.

(** A page as cheerio presents it once the script, style, nav, header,
    footer and advertisement elements are removed: what a selector finds
    (how many elements, and their text), and the h1..h4 elements in
    document order. *)
Record Selection : Type := mkSelection {
  sel_length : nat;
  sel_text : string
}.

Record Element : Type := mkElement {
  tagName : string;
  el_text : string
}.

Record Page : Type := mkPage {
  select : string -> Selection;
  headings : list Element
}.

Record Profile : Type := mkProfile {
  skill : string;
  p_level : string;
  dailyTime : nat;
  goal : string
}.

Record Concept : Type := mkConcept {
  c_topic : string;
  strengthLevel : Z
}.

Record World : Type := mkWorld {
  (** the reply of the model to the n-th call of [chat] *)
  llm : nat -> Prompt -> Reply string;
  (** [axios.get] on the search API, by the augmented query *)
  search_api : string -> Reply SearchData;
  (** [axios.get(url)]: the body of the page *)
  http_get : string -> Reply string;
  (** [cheerio.load] and the queries on the document *)
  cheerio_load : string -> Reply Page;
  (** [UserProfile.findOne] and [SkillMemoryBank.findOne] *)
  findProfile : string -> option Profile;
  findBank : string -> option (list Concept);
  (** Number.prototype.toString *)
  numberToString : Q -> string
}.

(** ** The data model of the pipeline *)

Record SearchResult : Type := mkSearchResult {
  sr_title : string;
  sr_url : string;
  snippet : string;
  source : string;
  relevanceScore : Q
}.

Record Header : Type := mkHeader {
  level : option nat;           (* parseInt of the digit of the tag; None is NaN *)
  text : string
}.

(** The time stamps ([scrapedAt], [generatedAt]) are left out. *)
Record ScrapedContent : Type := mkScrapedContent {
  sc_url : string;
  sc_title : string;
  content : string;
  summary : string;
  headers : list Header;
  wordCount : nat;
  error : option string
}.

Record RankedResource : Type := mkRankedResource {
  result : SearchResult;
  scrapedContent : option ScrapedContent;
  qualityScore : Q
}.

(** A step of a roadmap, with the fields [generateRoadmapWithLLM] gives it.
    The schema of the collection (models/Roadmap.js) has the first three
    only: in a stored step the other ones are absent (no concept,
    [JUndefined]). *)
Record Step : Type := mkStep {
  day : Num;
  topic : string;
  lessonIds : list string;
  concepts : list string;
  description : JSValue;
  resources : JSValue;
  type : JSValue;
  duration : JSValue
}.

(** A document of the Roadmap collection: the schema has the user and the
    steps, and nothing else. *)
Record RoadmapDoc : Type := mkRoadmapDoc {
  userId : string;
  steps : list Step
}.

(** The state an asynchronous function changes: the number of calls made
    to the model so far, and the Roadmap collection (one document per
    user). *)
Record State : Type := mkState {
  calls : nat;
  roadmaps : list (string * RoadmapDoc)
}.

(** A promise: run from a state, it settles with an outcome and a state. *)
Definition M (A : Type) : Type := State -> Outcome A * State.

Definition ret {A : Type} (a : A) : M A := fun st => (Returned a, st).

Definition throw {A : Type} (message : string) : M A := fun st => (Thrown message, st).

Definition bind {A B : Type} (m : M A) (f : A -> M B) : M B :=
  fun st =>
    match m st with
    | (Returned a, st') => f a st'
    | (Thrown e, st') => (Thrown e, st')
    | (OutOfFuel, st') => (OutOfFuel, st')
    end.

(** [try { await body } catch (error) { handler(error.message) }] *)
Definition try_catch {A : Type} (body : M A) (handler : string -> M A) : M A :=
  fun st =>
    match body st with
    | (Thrown e, st') => handler e st'
    | other => other
    end.

(** A synchronous call inside an asynchronous function. *)
Definition lift {A : Type} (o : Outcome A) : M A := fun st => (o, st).

(** An awaited external call. *)
Definition await {A : Type} (r : Reply A) : M A :=
  fun st => match r with
            | Ok a => (Returned a, st)
            | Failed e => (Thrown e, st)
            end.

(** [chat(messages)] of llmClient: one request to the provider; a failure
    is rethrown by [chatWithOpenRouter] with its prefix. *)
Definition chat (W : World) (p : Prompt) : M string :=
  fun st =>
    (match llm W (calls st) p with
     | Ok text => Returned text
     | Failed e => Thrown ("Failed to connect to OpenRouter: " ++ e)
     end,
     mkState (S (calls st)) (roadmaps st)).

(** How a promise handed to [Promise.allSettled] has settled. *)
Inductive Settled (A : Type) : Type :=
| Fulfilled (value : A)
| RejectedWith (reason : string).

(** [await Promise.allSettled(promises)].  The promises run concurrently;
    each one's outcome depends on its own external calls only, so they are
    run here one after the other, in the order of the array. *)
Fixpoint allSettled {A : Type} (promises : list (M A)) : M (list (Settled A)) :=
  match promises with
  | [] => ret []
  | p :: rest =>
      fun st =>
        match p st with
        | (Returned a, st') =>
            bind (allSettled rest) (fun l => ret (Fulfilled A a :: l)) st'
        | (Thrown e, st') =>
            bind (allSettled rest) (fun l => ret (RejectedWith A e :: l)) st'
        | (OutOfFuel, st') => (OutOfFuel, st')
        end
  end.

Arguments Fulfilled {A} value.
Arguments RejectedWith {A} reason.

Declare Scope async_scope.
Delimit Scope async_scope with async.
Notation "x <- m ;; k" := (bind m (fun x => k))
  (at level 61, m at next level, right associativity) : async_scope.

End Async.

(* ===================================================================== *)
(** * services/researchAgentService.js *)
(* ===================================================================== *)

Module ResearchAgent.
Import JS Async LlmClient.
Local Open Scope async_scope.

Definition newline : string := String "010" EmptyString.

(** [a || b] on strings *)
Definition str_or (a b : string) : string :=
  if String.eqb a EmptyString then b else a.

(** The curated table of [getCuratedSources]. *)
Definition javascriptSources : list SearchResult :=
  [ mkSearchResult "MDN JavaScript Guide"
      "https://developer.mozilla.org/en-US/docs/Web/JavaScript/Guide"
      "Comprehensive JavaScript guide covering fundamentals to advanced topics"
      "MDN" 0.95;
    mkSearchResult "JavaScript.info Modern Tutorial"
      "https://javascript.info/"
      "Modern JavaScript tutorial covering ES6+, async programming, and best practices"
      "JavaScript.info" 0.9 ].

Definition pythonSources : list SearchResult :=
  [ mkSearchResult "Python Official Tutorial"
      "https://docs.python.org/3/tutorial/"
      "Official Python tutorial covering syntax, data structures, and standard library"
      "Python.org" 0.95;
    mkSearchResult "Real Python Learning Path"
      "https://realpython.com/learning-paths/"
      "Structured learning paths for Python development from beginner to advanced"
      "Real Python" 0.9 ].

Definition dataScienceSources : list SearchResult :=
  [ mkSearchResult "Coursera Data Science Specialization"
      "https://www.coursera.org/specializations/jhu-data-science"
      "Johns Hopkins Data Science specialization covering R, statistics, and machine learning"
      "Coursera" 0.9;
    mkSearchResult "Kaggle Learn"
      "https://www.kaggle.com/learn"
      "Free micro-courses on data science, machine learning, and AI topics"
      "Kaggle" 0.85 ].

Definition reactSources : list SearchResult :=
  [ mkSearchResult "React Official Documentation"
      "https://react.dev/learn"
      "Official React documentation with interactive examples and best practices"
      "React.dev" 0.95;
    mkSearchResult "Frontend Masters Learning Paths"
      "https://frontendmasters.com/learn/"
      "Structured learning paths for frontend development and modern frameworks"
      "Frontend Masters" 0.85 ].

Definition leadershipSources : list SearchResult :=
  [ mkSearchResult "Harvard Business Review Leadership"
      "https://hbr.org/topic/leadership"
      "Leadership insights, case studies, and management best practices"
      "Harvard Business Review" 0.9;
    mkSearchResult "LinkedIn Learning Leadership Courses"
      "https://www.linkedin.com/learning/topics/leadership"
      "Professional leadership development courses and skill assessments"
      "LinkedIn Learning" 0.8 ].

(** [getCuratedSources(query)]: no external call, and nothing that throws
    on a string. *)
Definition getCuratedSources (query : string) : list SearchResult :=
  let lowerQuery := toLowerCase query in
  ((if includes lowerQuery "javascript" || includes lowerQuery "js"
    then javascriptSources else [])
   ++ (if includes lowerQuery "python" then pythonSources else [])
   ++ (if includes lowerQuery "data science" || includes lowerQuery "machine learning"
       then dataScienceSources else [])
   ++ (if includes lowerQuery "react" || includes lowerQuery "frontend"
       then reactSources else [])
   ++ (if includes lowerQuery "leadership" || includes lowerQuery "management"
       then leadershipSources else []))%list.

(** The entries [performWebSearch] reads off the payload. *)
Definition abstractResult (query : string) (data : SearchData) : list SearchResult :=
  if negb (String.eqb (AbstractText data) EmptyString)
     && negb (String.eqb (AbstractURL data) EmptyString)
  then [ mkSearchResult (str_or (Heading data) query) (AbstractURL data)
           (AbstractText data) (str_or (AbstractSource data) "DuckDuckGo") 0.9 ]
  else [].

Definition topicResult (t : RelatedTopic) : list SearchResult :=
  if negb (String.eqb (FirstURL t) EmptyString) && negb (String.eqb (Text t) EmptyString)
  then [ mkSearchResult (str_or (hd EmptyString (split " - " (Text t))) (take 100 (Text t)))
           (FirstURL t) (Text t) "Wikipedia" 0.7 ]
  else [].

Definition len {A : Type} (l : list A) : Z := Z.of_nat (List.length l).

(** The entries of the live provider that have both a URL and a text. *)
Definition liveResults (query : string) (maxResults : Z) (data : SearchData)
    : list SearchResult :=
  let results := abstractResult query data in
  (results ++
   match RelatedTopics data with
   | Some topics => flat_map topicResult (slice0 topics (maxResults - len results))
   | None => []
   end)%list.

(** The body of the [try] of [performWebSearch], after the request. *)
Definition searchResults (query : string) (maxResults : Z) (data : SearchData)
    : list SearchResult :=
  let results := liveResults query maxResults data in
  let results :=
    if (len results <? 3)%Z
    then (results ++ slice0 (getCuratedSources query) (maxResults - len results))%list
    else results in
  slice0 results maxResults.

Definition performWebSearch (W : World) (query : string) (maxResults : Z)
    : M (list SearchResult) :=
  try_catch
    (data <- await (search_api W (query ++ " roadmap guide tutorial")) ;;
     ret (searchResults query maxResults data))
    (fun _ => ret (getCuratedSources query)).

(** [summarizeContent(content, title)] *)
Definition summarizeContent (W : World) (content title : string) : M string :=
  try_catch
    (if String.eqb content EmptyString || (String.length content <? 50)
     then ret (title ++ ": Content not available for summary.")
     else
       summary <- chat W (mkPrompt "Summarize the following content about"
                            [title; take 2000 content]) ;;
       ret (str_or (trim summary) (title ++ ": Summary not available.")))
    (fun _ => ret (title ++ ": Summary generation failed.")).

Definition contentSelectors : list string :=
  [ "main"; "article"; ".content"; ".post-content";
    ".entry-content"; ".markdown-body"; ".wiki-content";
    "#content"; ".main-content"; "body" ].

(** The [for] loop over the selectors: the text of the first selection that
    is not empty and has more than 100 characters once trimmed. *)
Fixpoint firstContent (page : Page) (selectors : list string) : string :=
  match selectors with
  | [] => EmptyString
  | selector :: rest =>
      let element := select page selector in
      if negb (sel_length element =? 0) && (100 <? String.length (trim (sel_text element)))
      then trim (sel_text element)
      else firstContent page rest
  end.

(** [parseInt(el.tagName.charAt(1))] *)
Definition headerLevel (tag : string) : option nat :=
  match tag with
  | String _ (String c _) => if is_digit c then Some (digit_val c) else None
  | _ => None
  end.

Definition extractHeaders (page : Page) : list Header :=
  flat_map
    (fun el =>
       let headerText := trim (el_text el) in
       if negb (String.eqb headerText EmptyString) && (String.length headerText <? 200)
       then [ mkHeader (headerLevel (tagName el)) headerText ]
       else [])
    (headings page).

(** The text of the page, cleaned and cut to 3000 characters. *)
Definition extractContent (page : Page) : string :=
  let content := firstContent page contentSelectors in
  let content :=
    if String.eqb content EmptyString then trim (sel_text (select page "body"))
    else content in
  take 3000
    (replace (plus (one_of newline)) 0 newline
       (replace (plus is_space) 0 " " content)).

Definition scrapeFailure (url title message : string) : ScrapedContent :=
  mkScrapedContent url title EmptyString
    ("Unable to scrape content from " ++ title
       ++ ". This resource may require manual review.")
    [] 0 (Some message).

(** The body of the [try] of [scrapeAndSummarize]. *)
Definition scrapePage (W : World) (url title : string) : M ScrapedContent :=
  data <- await (http_get W url) ;;
  page <- await (cheerio_load W data) ;;
  let content := extractContent page in
  let headers := extractHeaders page in
  summary <- summarizeContent W content title ;;
  ret (mkScrapedContent url title
         (take 1000 content)
         summary
         (firstn 10 headers)
         (List.length (split " " content))
         None).

Definition scrapeAndSummarize (W : World) (url title : string) : M ScrapedContent :=
  try_catch (scrapePage W url title)
    (fun message => ret (scrapeFailure url title message)).

(** ** Ranking *)

Definition trustedDomains : list string :=
  [ "mozilla.org"; "python.org"; "react.dev"; "angular.io";
    "coursera.org"; "edx.org"; "khanacademy.org"; "freecodecamp.org";
    "github.com"; "stackoverflow.com"; "medium.com";
    "harvard.edu"; "mit.edu"; "stanford.edu" ].

Definition isTrusted (url : string) : bool :=
  existsb (fun domain => includes url domain) trustedDomains.

(** [scrapedContent.find(content => content.url === result.url)] *)
Definition findScraped (scraped : list ScrapedContent) (r : SearchResult)
    : option ScrapedContent :=
  find (fun c => String.eqb (sc_url c) (sr_url r)) scraped.

(** [result.relevanceScore || 0.5] *)
Definition baseScore (r : SearchResult) : Q :=
  if Qeq_bool (relevanceScore r) 0 then 0.5 else relevanceScore r.

(** [if (condition) qualityScore += boost] *)
Definition boostIf (condition : bool) (boost qualityScore : Q) : Q :=
  if condition then qualityScore + boost else qualityScore.

(** The value of the variable [qualityScore] before [Math.min]. *)
Definition rawQualityScore (scraped : list ScrapedContent) (r : SearchResult) : Q :=
  let qualityScore := baseScore r in
  let qualityScore :=
    match findScraped scraped r with
    | Some sc =>
        boostIf (100 <? String.length (summary sc)) 0.1
          (boostIf (3 <? List.length (headers sc)) 0.1
             (boostIf (500 <? wordCount sc) 0.1 qualityScore))
    | None => qualityScore
    end in
  boostIf (isTrusted (sr_url r)) 0.2 qualityScore.

Definition rankOne (scraped : list ScrapedContent) (r : SearchResult) : RankedResource :=
  mkRankedResource r (findScraped scraped r)
    (Qmin (rawQualityScore scraped r) 1).

(** [resources.sort((a, b) => b.qualityScore - a.qualityScore)]: a stable
    sort, the higher score first. *)
Fixpoint insertRanked (x : RankedResource) (l : list RankedResource) : list RankedResource :=
  match l with
  | [] => [x]
  | y :: l' =>
      if Qlt_le_dec (qualityScore x) (qualityScore y)
      then y :: insertRanked x l'
      else x :: l
  end.

Definition sortRanked (l : list RankedResource) : list RankedResource :=
  fold_right insertRanked [] l.

Definition rankResources (searchResults : list SearchResult)
    (scrapedContent : list ScrapedContent) : list RankedResource :=
  sortRanked (map (rankOne scrapedContent) searchResults).

(** ** Roadmap generation *)

(** The [options] argument; [None] is an absent property. *)
Record Options : Type := mkOptions {
  o_timeframe : option string;
  o_level : option string;
  o_dailyTimeMinutes : option nat;
  o_focus : option string;
  o_includeProjects : option bool
}.

(** The result of [generateComprehensiveRoadmap] (without [generatedAt]). *)
Record ComprehensiveRoadmap : Type := mkComprehensiveRoadmap {
  r_topic : string;
  r_timeframe : string;
  r_level : string;
  r_dailyTimeMinutes : nat;
  roadmap : JSValue;
  sources : list RankedResource;
  methodology : string;
  totalSteps : JSValue;
  warning : option string
}.

(** A value as a template literal renders it. *)
Definition show_string (o : option string) : string :=
  match o with Some s => s | None => "undefined" end.

Definition show_nat (o : option nat) : string :=
  match o with Some n => nat_to_string n | None => "undefined" end.

Definition show_bool (o : option bool) : string :=
  match o with
  | Some true => "true"
  | Some false => "false"
  | None => "undefined"
  end.

Fixpoint numbered {A : Type} (i : nat) (l : list A) : list (nat * A) :=
  match l with
  | [] => []
  | x :: l' => (i, x) :: numbered (S i) l'
  end.

Definition resourceSummary (entry : nat * RankedResource) : string :=
  let (index, resource) := entry in
  nat_to_string (index + 1) ++ ". " ++ sr_title (result resource)
    ++ " (" ++ source (result resource) ++ "): "
    ++ str_or (match scrapedContent resource with
               | Some sc => summary sc
               | None => EmptyString
               end)
              (snippet (result resource)).

(** [generateRoadmapWithSources]: whatever [extractJSON] gives is returned;
    the check of the format is commented out in the source. *)
Definition generateRoadmapWithSources (W : World) (fuel : nat) (topic : string)
    (resources : list RankedResource) (options : Options) : M JSValue :=
  let resourceSummaries :=
    join newline (map resourceSummary (numbered 0 (firstn 5 resources))) in
  response <- chat W (mkPrompt "You are an expert learning designer. Create a comprehensive, step-by-step roadmap for learning"
                        [topic; resourceSummaries;
                         show_string (o_level options); show_string (o_timeframe options);
                         show_nat (o_dailyTimeMinutes options); show_string (o_focus options);
                         show_bool (o_includeProjects options)]) ;;
  lift (extractJSON fuel (Some response)).

(** The basic structure [generateFallbackRoadmap] returns when the reply
    gives no JSON. *)
Definition basicStructure (topic : string) (options : Options) : JSValue :=
  JObj
    [ ("overview", JStr ("Learning roadmap for " ++ topic));
      ("steps",
       JArr
         [ JObj
             [ ("week", JNum 1);
               ("day", JNum 1);
               ("title", JStr ("Introduction to " ++ topic));
               ("description", JStr ("Learn the basics of " ++ topic));
               ("duration", JStr "5 minutes");
               ("type", JStr "theory");
               ("concepts", JArr [JStr topic]);
               ("resources", JArr []);
               ("optional", JBool false);
               ("difficulty",
                match o_level options with Some l => JStr l | None => JUndefined end) ] ]);
      ("projects", JArr []);
      ("milestones", JArr []) ].

Definition generateFallbackRoadmap (W : World) (fuel : nat) (topic : string)
    (options : Options) : M JSValue :=
  response <- chat W (mkPrompt "Create a comprehensive learning roadmap for"
                        [topic; show_string (o_level options);
                         show_string (o_timeframe options);
                         show_nat (o_dailyTimeMinutes options)]) ;;
  roadmapJson <- lift (extractJSON fuel (Some response)) ;;
  if negb (truthy roadmapJson) then ret (basicStructure topic options)
  else ret roadmapJson.

(** [roadmap.steps?.length || 0]: reading [steps] of null throws. *)
Definition countSteps (roadmap : JSValue) : M JSValue :=
  match get_prop roadmap "steps" with
  | inr e => throw e
  | inl steps => ret (or_else (get_prop_opt steps "length") (JNum 0))
  end.

Definition with_default {A : Type} (o : option A) (d : A) : A :=
  match o with Some a => a | None => d end.

(** The [filter]s on the settled scrapes. *)
Definition validContent (settled : list (Settled ScrapedContent)) : list ScrapedContent :=
  filter
    (fun c => negb (String.eqb (summary c) EmptyString) && (20 <? String.length (summary c)))
    (flat_map (fun r => match r with
                        | Fulfilled v => [v]
                        | RejectedWith _ => []
                        end) settled).

(** The body of the [try] of [generateComprehensiveRoadmap]. *)
Definition webEnhancedRoadmap (W : World) (fuel : nat) (topic : string)
    (options : Options) : M ComprehensiveRoadmap :=
  searchResults <- performWebSearch W topic 8 ;;
  scrapedContent <-
    allSettled (map (fun r => scrapeAndSummarize W (sr_url r) (sr_title r))
                  (firstn 5 searchResults)) ;;
  let rankedResources := rankResources searchResults (validContent scrapedContent) in
  roadmap <- generateRoadmapWithSources W fuel topic rankedResources options ;;
  totalSteps <- countSteps roadmap ;;
  ret (mkComprehensiveRoadmap topic
         (with_default (o_timeframe options) "4-weeks")
         (with_default (o_level options) "beginner")
         (with_default (o_dailyTimeMinutes options) 30)
         roadmap
         (firstn 10 rankedResources)
         "web-enhanced-llm"
         totalSteps
         None).

(** The [catch] of [generateComprehensiveRoadmap]. *)
Definition llmFallbackRoadmap (W : World) (fuel : nat) (topic : string)
    (options : Options) : M ComprehensiveRoadmap :=
  fallbackRoadmap <- generateFallbackRoadmap W fuel topic options ;;
  totalSteps <- countSteps fallbackRoadmap ;;
  ret (mkComprehensiveRoadmap topic
         (with_default (o_timeframe options) "4-weeks")
         (with_default (o_level options) "beginner")
         (with_default (o_dailyTimeMinutes options) 30)
         fallbackRoadmap
         []
         "llm-fallback"
         totalSteps
         (Some "Generated without web sources due to connectivity issues")).

Definition generateComprehensiveRoadmap (W : World) (fuel : nat) (topic : string)
    (options : Options) : M ComprehensiveRoadmap :=
  try_catch (webEnhancedRoadmap W fuel topic options)
    (fun _ => llmFallbackRoadmap W fuel topic options).

End ResearchAgent.

(* ===================================================================== *)
(** * routes/research.js: the compare-resources handler *)
(* ===================================================================== *)

Module ResearchRoutes.
Import JS Async LlmClient ResearchAgent.
Local Open Scope async_scope.

(** An entry of [resources]: the record of a fulfilled scrape, or the
    stand-in for a rejected one. *)
Inductive Resource : Type :=
| Scraped (sc : ScrapedContent)
| Unscraped (url title error : string).

(** [!r.error] *)
Definition noError (r : Resource) : bool :=
  match r with
  | Scraped sc =>
      match error sc with
      | None => true
      | Some message => String.eqb message EmptyString
      end
  | Unscraped _ _ message => String.eqb message EmptyString
  end.

(** The body of a response. *)
Record Response : Type := mkResponse {
  success : bool;
  res_topic : option string;
  res_resources : list Resource;
  comparison : option JSValue;
  validResourceCount : option nat;
  message : string
}.

(** How the handler ends: [res.json(body)] or [next(error)]. *)
Inductive Handled : Type :=
| Json (body : Response)
| Next (error : string).

(** The scrapes of the handler, all settled. *)
Definition scrapeResources (W : World) (urls : list string) : M (list Resource) :=
  scrapedResults <-
    allSettled (map (fun entry => scrapeAndSummarize W (snd entry)
                                    ("Resource " ++ nat_to_string (fst entry + 1)))
                  (numbered 0 urls)) ;;
  ret (map (fun entry =>
              match snd (snd entry) with
              | Fulfilled v => Scraped v
              | RejectedWith reason =>
                  Unscraped (fst (snd entry))
                    ("Resource " ++ nat_to_string (fst entry + 1))
                    (str_or reason "Scraping failed")
              end)
         (numbered 0 (combine urls scrapedResults))).

Definition resourceLines (entry : nat * Resource) : list string :=
  match snd entry with
  | Scraped sc => [ nat_to_string (fst entry + 1); sc_title sc; sc_url sc;
                    summary sc; nat_to_string (wordCount sc) ]
  | Unscraped url title _ => [ nat_to_string (fst entry + 1); title; url;
                               "undefined"; "undefined" ]
  end.

(** The LLM comparison of the valid resources. *)
Definition compareValid (W : World) (fuel : nat) (topic : string)
    (resources validResources : list Resource) : M Handled :=
  comparisonResponse <-
    chat W (mkPrompt "Compare these learning resources for"
              (topic :: flat_map resourceLines (numbered 0 validResources))) ;;
  extracted <- lift (extractJSON fuel (Some comparisonResponse)) ;;
  ret (Json (mkResponse true (Some topic) resources
               (Some (or_else extracted (JObj [])))
               (Some (List.length validResources))
               "Resource comparison completed successfully")).

Definition notEnough (resources : list Resource) : Handled :=
  Json (mkResponse false None resources None None
          "Not enough valid resources to compare").

(** The handler of POST /api/research/compare-resources, on a body whose
    [urls] are an array of texts; [topic] is [None] when the body has
    none. *)
Definition compareResources (W : World) (fuel : nat) (urls : list string)
    (topic : option string) : M Handled :=
  let topic := with_default topic "Learning Resources" in
  try_catch
    (resources <- scrapeResources W urls ;;
     let validResources := filter noError resources in
     if 2 <=? List.length validResources
     then compareValid W fuel topic resources validResources
     else ret (notEnough resources))
    (fun error => ret (Next error)).

End ResearchRoutes.

(* ===================================================================== *)
(** * services/roadmapLlmService.js *)
(* ===================================================================== *)

Module RoadmapLlm.
Import JS Async LlmClient ResearchAgent.
Local Open Scope async_scope.
Local Open Scope outcome_scope.

(** A synchronous evaluation that may throw a TypeError. *)
Definition prop (v : JSValue) (name : string) : Outcome JSValue :=
  match get_prop v name with
  | inl x => Returned x
  | inr e => Thrown e
  end.

(** [Array.isArray(v) ? v.map(String) : []] *)
Definition stringArray (W : World) (v : JSValue) : list string :=
  match v with
  | JArr items => map (ToString (numberToString W)) items
  | _ => []
  end.

Definition dayOf (s_day : JSValue) (i : nat) : Num :=
  ToNumber (nullish s_day (JNum (inject_Z (Z.of_nat (i + 1))))).

(** The callback of [map] on the research path. *)
Definition researchStep (W : World) (entry : nat * JSValue) : Outcome Step :=
  let (i, s) := entry in
  s_day <~ prop s "day" ;;
  s_title <~ prop s "title" ;;
  s_topic <~ prop s "topic" ;;
  s_concepts <~ prop s "concepts" ;;
  s_description <~ prop s "description" ;;
  s_resources <~ prop s "resources" ;;
  s_type <~ prop s "type" ;;
  s_duration <~ prop s "duration" ;;
  Returned
    (mkStep (dayOf s_day i)
       (ToString (numberToString W)
          (nullish s_title (nullish s_topic (JStr ("Day " ++ nat_to_string (i + 1))))))
       []
       (stringArray W s_concepts)
       (or_else s_description (JStr EmptyString))
       (or_else s_resources (JArr []))
       (or_else s_type (JStr "theory"))
       (or_else s_duration (JStr "5 minutes"))).

(** The callback of [map] on the basic path. *)
Definition basicStep (W : World) (entry : nat * JSValue) : Outcome Step :=
  let (i, s) := entry in
  s_day <~ prop s "day" ;;
  s_topic <~ prop s "topic" ;;
  s_lessonIds <~ prop s "lessonIds" ;;
  s_concepts <~ prop s "concepts" ;;
  Returned
    (mkStep (dayOf s_day i)
       (ToString (numberToString W)
          (nullish s_topic (JStr ("Day " ++ nat_to_string (i + 1)))))
       (stringArray W s_lessonIds)
       (stringArray W s_concepts)
       JUndefined JUndefined JUndefined JUndefined).

(** [array.map(callback)] with a callback that may throw. *)
Fixpoint mapOutcome {A B : Type} (f : A -> Outcome B) (l : list A) : Outcome (list B) :=
  match l with
  | [] => Returned []
  | x :: l' =>
      y <~ f x ;;
      ys <~ mapOutcome f l' ;;
      Returned (y :: ys)
  end.

(** [steps?.slice(0, 7).map(callback) || []] *)
Definition normalizeSteps (callback : nat * JSValue -> Outcome Step) (steps : JSValue)
    : Outcome (list Step) :=
  match steps with
  | JUndefined | JNull => Returned []
  | JArr items => mapOutcome callback (numbered 0 (firstn 7 items))
  | JStr _ => Thrown "TypeError: steps.slice(...).map is not a function"
  | _ => Thrown "TypeError: steps.slice is not a function"
  end.

(** The update [generateRoadmapWithLLM] hands to [findOneAndUpdate]: the
    steps, and the metadata. *)
Record RoadmapUpdate : Type := mkRoadmapUpdate {
  up_steps : list Step;
  up_generatedWith : string;
  up_sources : list RankedResource
}.

(** The message of the CastError that mongoose raises for a day that is no
    number.  (The statements below rely on the write being refused, not
    on this text.) *)
Definition castError : string :=
  "Cast to Number failed for value " ++ quote ++ "NaN" ++ quote
    ++ " (type number) at path " ++ quote ++ "day" ++ quote.

(** The cast of a step of an update to the schema of a step
    ([{ day: Number, topic: { type: String, trim: true }, lessonIds:
    [String] }], strict): NaN is refused as a day, the topic is trimmed,
    and the fields the schema does not have are dropped. *)
Definition castStep (s : Step) : Outcome Step :=
  match day s with
  | NaN => Thrown castError
  | d =>
      Returned (mkStep d (trim (topic s)) (lessonIds s) []
                  JUndefined JUndefined JUndefined JUndefined)
  end.

(** [Roadmap.findOneAndUpdate({ userId }, update, { upsert: true, new:
    true, setDefaultsOnInsert: true })], for the id of a user.  The update
    is cast to the schema first: when a step cannot be cast the promise
    rejects and nothing is written.  The schema has no metadata, so that
    the tag and the sources of the update are not stored.  The document
    written, which is the one returned, takes the place of the roadmap of
    the user. *)
Definition upsertRoadmap (user : string) (update : RoadmapUpdate) : M RoadmapDoc :=
  fun st =>
    match mapOutcome castStep (up_steps update) with
    | Returned steps =>
        (Returned (mkRoadmapDoc user steps),
         mkState (calls st)
           ((user, mkRoadmapDoc user steps)
              :: filter (fun e => negb (String.eqb (fst e) user)) (roadmaps st)))
    | Thrown e => (Thrown e, st)
    | OutOfFuel => (OutOfFuel, st)
    end.

Definition weakTopics (W : World) (bank : option (list Concept)) : list string :=
  firstn 5
    (map (fun c => c_topic c ++ " (" ++ numberToString W (inject_Z (strengthLevel c)) ++ ")")
       (filter (fun c => (strengthLevel c <? 50)%Z) (with_default bank []))).

Definition buildPrompt (W : World) (profile : option Profile) (bank : option (list Concept))
    : Prompt :=
  mkPrompt "You are an expert learning planner. Create a 7-day microlearning roadmap as JSON."
    [ match profile with Some p => skill p | None => "undefined" end;
      match profile with Some p => p_level p | None => "undefined" end;
      match profile with Some p => nat_to_string (dailyTime p) | None => "undefined" end;
      match profile with Some p => goal p | None => "undefined" end;
      str_or (join ", " (weakTopics W bank)) "None" ].

(** The options the research agent is called with. *)
Definition researchOptions (profile : Profile) : Options :=
  mkOptions (Some "4-weeks")
    (Some (str_or (p_level profile) "beginner"))
    (Some (if dailyTime profile =? 0 then 30 else dailyTime profile))
    (Some "practical") (Some true).

(** The research-agent branch: the body of its [try]. *)
Definition researchRoadmap (W : World) (fuel : nat) (user : string) (profile : Profile)
    : M RoadmapDoc :=
  comprehensiveRoadmap <-
    generateComprehensiveRoadmap W fuel (skill profile) (researchOptions profile) ;;
  proposed <- lift (prop (roadmap comprehensiveRoadmap) "steps") ;;
  steps <- lift (normalizeSteps (researchStep W) proposed) ;;
  upsertRoadmap user
    (mkRoadmapUpdate steps "research-agent" (firstn 5 (sources comprehensiveRoadmap))).

(** The original LLM-only generation. *)
Definition basicRoadmap (W : World) (fuel : nat) (user : string)
    (profile : option Profile) (bank : option (list Concept)) : M RoadmapDoc :=
  reply <- chat W (buildPrompt W profile bank) ;;
  json <- lift (extractJSON fuel (Some reply)) ;;
  match get_prop_opt json "steps" with
  | JArr items =>
      steps <- lift (mapOutcome (basicStep W) (numbered 0 (firstn 7 items))) ;;
      upsertRoadmap user (mkRoadmapUpdate steps "basic-llm" [])
  | _ => throw "LLM did not return steps"
  end.

Definition generateRoadmapWithLLM (W : World) (fuel : nat) (user : string)
    (useResearchAgent : bool) : M RoadmapDoc :=
  let profile := findProfile W user in
  let bank := findBank W user in
  match profile with
  | Some p =>
      if useResearchAgent && negb (String.eqb (skill p) EmptyString)
      then try_catch (researchRoadmap W fuel user p)
             (fun _ => basicRoadmap W fuel user profile bank)
      else basicRoadmap W fuel user profile bank
  | None => basicRoadmap W fuel user profile bank
  end.

End RoadmapLlm.

(* ===================================================================== *)
(** * The collections of the database *)
(* ===================================================================== *)

Module Db.
Import JS Async.

(** A lesson as [generateLesson] writes it (models/Lesson.js). *)
Record LessonDoc : Type := mkLessonDoc {
  lessonId : string;
  l_type : string;
  l_content : JSValue;
  l_skill : string;
  l_difficulty : string;
  l_concepts : list string
}.

(** A document of the Progress collection (models/Progress.js), one per
    user and lesson; the score and the date of completion are [None] as long
    as they are not set. *)
Record ProgressDoc : Type := mkProgressDoc {
  pg_userId : string;
  pg_lessonId : string;
  pg_status : string;
  pg_score : option Q;
  pg_completedAt : option Z
}.

(** A document of the UserBadge collection (models/UserBadge.js), one per
    user and badge; the date of the award is left out. *)
Record BadgeDoc : Type := mkBadgeDoc {
  b_userId : string;
  badgeId : string;
  b_name : string;
  b_description : string
}.

(** The collections the services write besides the Roadmap collection: one
    SkillMemoryBank document per user (its [concepts]), the Lesson
    collection, one document per [lessonId], the Progress collection, the
    Leaderboard (the points of each user) and the UserBadge collection. *)
Record Collections : Type := mkCollections {
  agent : State;
  banks : list (string * list Concept);
  lessons : list LessonDoc;
  progress : list ProgressDoc;
  leaderboard : list (string * Z);
  userBadges : list BadgeDoc
}.

(** A promise over the collections. *)
Definition DB (A : Type) : Type := Collections -> Outcome A * Collections.

Definition resolve {A : Type} (a : A) : DB A := fun c => (Returned a, c).

Definition reject {A : Type} (message : string) : DB A := fun c => (Thrown message, c).

Definition andThen {A B : Type} (m : DB A) (f : A -> DB B) : DB B :=
  fun c =>
    match m c with
    | (Returned a, c') => f a c'
    | (Thrown e, c') => (Thrown e, c')
    | (OutOfFuel, c') => (OutOfFuel, c')
    end.


Declare Scope db_scope.
Delimit Scope db_scope with db.
Notation "x <-- m ;; k" := (andThen m (fun x => k))
  (at level 61, m at next level, right associativity) : db_scope.

(** [SkillMemoryBank.findOne({ userId })] *)
Definition findBankOf (user : string) (c : Collections) : option (list Concept) :=
  option_map snd (find (fun e => String.eqb (fst e) user) (banks c)).

Definition putBank (user : string) (concepts : list Concept)
    (store : list (string * list Concept)) : list (string * list Concept) :=
  (user, concepts) :: filter (fun e => negb (String.eqb (fst e) user)) store.

End Db.

(* ===================================================================== *)
(** * services/memoryService.js *)
(* ===================================================================== *)

Module MemoryService.
Import JS Async Db.
Local Open Scope db_scope.

(** [calculateDeltaFromScore(score)]; a value of another type than number
    gives 0.  The scores are values of a request body, so the numbers are
    finite. *)
Definition calculateDeltaFromScore (score : JSValue) : Z :=
  match score with
  | JNum q =>
      if Qle_bool 90 q then 12
      else if Qle_bool 80 q then 8
      else if Qle_bool 60 q then 4
      else (-10)
  | _ => 0
  end%Z.

(** [Math.max(0, Math.min(100, x))] *)
Definition clamp (x : Z) : Z := Z.max 0 (Z.min 100 x).

(** The assignment to [concept.strengthLevel] of the concept that [find]
    returned: the first one of the topic. *)
Fixpoint setStrength (topic : string) (level : Z) (concepts : list Concept)
    : list Concept :=
  match concepts with
  | [] => []
  | c :: rest =>
      if String.eqb (c_topic c) topic then mkConcept (c_topic c) level :: rest
      else c :: setStrength topic level rest
  end.

(** [SkillMemoryBank.findOneAndUpdate({ userId }, { $setOnInsert:
    { concepts: [] } }, { upsert: true, new: true })] *)
Definition findOrCreateBank (user : string) : DB (list Concept) :=
  fun c =>
    match findBankOf user c with
    | Some concepts => (Returned concepts, c)
    | None => (Returned [], mkCollections (agent c) ((user, []) :: banks c) (lessons c)
                 (progress c) (leaderboard c) (userBadges c))
    end.

(** The validation that [bank.save()] runs on a concept just pushed to the
    array, at [index]: the schema of a concept requires its topic, and an
    empty string is no topic.  (The level written is within the bounds of
    the schema.) *)
Definition validatePushed (index : nat) (concept : Concept) : DB unit :=
  if String.eqb (c_topic concept) ""
  then reject ("SkillMemoryBank validation failed: concepts." ++ nat_to_string index
                 ++ ".topic: Path `topic` is required.")
  else resolve tt.

(** [bank.save()] once the document is valid. *)
Definition saveBank (user : string) (concepts : list Concept) : DB unit :=
  fun c =>
    (Returned tt,
     mkCollections (agent c) (putBank user concepts (banks c)) (lessons c)
       (progress c) (leaderboard c) (userBadges c)).

(** [updateMemoryFromScore(userId, topic, score)]; [None] is null. *)
Definition updateMemoryFromScore (userId topic : string) (score : JSValue)
    : DB (option (list Concept)) :=
  let delta := calculateDeltaFromScore score in
  if (delta =? 0)%Z then resolve None
  else
    bank <-- findOrCreateBank userId ;;
    match find (fun c => String.eqb (c_topic c) topic) bank with
    | Some concept =>
        let concepts := setStrength topic (clamp (strengthLevel concept + delta)) bank in
        _ <-- saveBank userId concepts ;;
        resolve (Some concepts)
    | None =>
        let pushed := mkConcept topic (clamp (50 + delta)) in
        let concepts := (bank ++ [pushed])%list in
        _ <-- validatePushed (List.length bank) pushed ;;
        _ <-- saveBank userId concepts ;;
        resolve (Some concepts)
    end.

End MemoryService.

(* ===================================================================== *)
(** * services/adaptiveEngine.js: [getRecommendations] *)
(* ===================================================================== *)

Module AdaptiveEngine.
Import JS Async Db.
Local Open Scope db_scope.

(** [c.strengthLevel < 50] *)
Definition isWeak (c : Concept) : bool := (strengthLevel c <? 50)%Z.

(** [sort((a, b) => a.strengthLevel - b.strengthLevel)]: ascending, and
    stable, so a concept stays before the later ones of the same level. *)
Fixpoint insertByStrength (x : Concept) (l : list Concept) : list Concept :=
  match l with
  | [] => [x]
  | y :: l' =>
      if (strengthLevel y <? strengthLevel x)%Z then y :: insertByStrength x l'
      else x :: l
  end.

Definition sortByStrength (l : list Concept) : list Concept :=
  fold_right insertByStrength [] l.

Record Recommendation : Type := mkRecommendation {
  rec_message : string;
  rec_topic : string
}.

Definition recommend (c : Concept) : Recommendation :=
  mkRecommendation ("Review " ++ c_topic c ++ " soon") (c_topic c).

Definition getRecommendations (userId : string) : DB (list Recommendation) :=
  fun c =>
    match findBankOf userId c with
    | None => (Returned [], c)
    | Some concepts =>
        let weak := sortByStrength (filter isWeak concepts) in
        (Returned (map recommend (firstn 3 weak)), c)
    end.

End AdaptiveEngine.

(* ===================================================================== *)
(** * services/lessonLlmService.js *)
(* ===================================================================== *)

Module LessonService.
Import JS Async LlmClient ResearchAgent RoadmapLlm Db.
Local Open Scope db_scope.



(** [a || b] on an argument that may be undefined *)
Definition arg_or (a : option string) (b : string) : string :=
  str_or (with_default a EmptyString) b.














End LessonService.

(* ===================================================================== *)
(** * routes/research.js: the other handlers *)
(* ===================================================================== *)

Module ResearchHandlers.
Import JS Async LlmClient ResearchAgent ResearchRoutes.
Local Open Scope async_scope.

(** How a handler ends: [res.status(code).json({ success, data, message })]
    or [next(error)]. *)
Inductive Sent (A : Type) : Type :=
| Answered (status : nat) (success : bool) (data : A) (message : string)
| Forwarded (error : string).

Arguments Answered {A} status success data message.
Arguments Forwarded {A} error.










(** POST /api/research/analyze-topic *)
Record TopicAnalysis : Type := mkTopicAnalysis {
  ta_topic : string;
  ta_depth : string;
  analysis : JSValue;
  ta_searchResults : list SearchResult;
  ta_scrapedContent : list ScrapedContent
}.

Definition searchLimit (depth : string) : Z :=
  if String.eqb depth "overview" then 5
  else if String.eqb depth "detailed" then 10 else 15.

Definition fulfilledValues {A : Type} (settled : list (Settled A)) : list A :=
  flat_map (fun r => match r with
                     | Fulfilled v => [v]
                     | RejectedWith _ => []
                     end) settled.

Definition resultLine (entry : nat * SearchResult) : string :=
  nat_to_string (fst entry + 1) ++ ". " ++ sr_title (snd entry) ++ ": "
    ++ snippet (snd entry).

Definition summaryLine (entry : nat * ScrapedContent) : string :=
  nat_to_string (fst entry + 1) ++ ". " ++ sc_title (snd entry) ++ ": "
    ++ summary (snd entry).

Definition analysisPrompt (topic : string) (searchResults : list SearchResult)
    (scraped : list ScrapedContent) : Prompt :=
  mkPrompt "Based on the following research about"
    [ topic;
      join newline (map resultLine (numbered 0 searchResults));
      join newline (map summaryLine (numbered 0 scraped)) ].

Definition analyzeTopicHandler (W : World) (fuel : nat) (topic : string) (depth : option string)
    : M (Sent TopicAnalysis) :=
  let depth := with_default depth "detailed" in
  try_catch
    (searchResults <- performWebSearch W topic (searchLimit depth) ;;
     scrapedResults <-
       allSettled (map (fun r => scrapeAndSummarize W (sr_url r) (sr_title r))
                     (firstn (Nat.min 5 (List.length searchResults)) searchResults)) ;;
     let validScrapedContent := fulfilledValues scrapedResults in
     analysisResponse <- chat W (analysisPrompt topic searchResults validScrapedContent) ;;
     extracted <- lift (extractJSON fuel (Some analysisResponse)) ;;
     ret (Answered 200 true
            (mkTopicAnalysis topic depth (or_else extracted (JObj []))
               (firstn 8 searchResults) (firstn 3 validScrapedContent))
            "Topic analysis completed successfully"))
    (fun error => ret (Forwarded error)).

End ResearchHandlers.

(* ===================================================================== *)
(** * services/resumeExtractorService.js *)
(* ===================================================================== *)

Module ResumeExtractor.
Import JS Async LlmClient.
Local Open Scope async_scope.

(** The file system and the extraction libraries: [fs.readFile(filePath)]
    (the buffer), the load and the call of pdf-parse on a buffer (the
    [text] of its result), those of mammoth ([extractRawText], the [value]
    of its result), and [path.basename]. *)
Record Files : Type := mkFiles {
  readFile : string -> Reply string;
  pdfParse : string -> Reply string;
  extractRawText : string -> Reply string;
  basename : string -> string
}.

Definition upper_char (c : ascii) : ascii :=
  let n := code c in
  if (97 <=? n) && (n <=? 122) then ascii_of_nat (n - 32) else c.

(** [s.toUpperCase()], on text whose letters are ASCII letters (it is
    applied to the file types doc and docx). *)
Fixpoint toUpperCase (s : string) : string :=
  match s with
  | EmptyString => EmptyString
  | String c s' => String (upper_char c) (toUpperCase s')
  end.

(** The text put in the place of one that cannot be extracted. *)
Definition placeholder (F : Files) (kind filePath : string) : string :=
  "Sample extracted text from " ++ kind ++ " file: " ++ basename F filePath.

Definition extractTextFromResume (F : Files) (filePath fileType : string) : M string :=
  try_catch
    (fileBuffer <- await (readFile F filePath) ;;
     if String.eqb fileType "pdf" then
       try_catch (await (pdfParse F fileBuffer))
         (fun _ => ret (placeholder F "PDF" filePath))
     else if String.eqb fileType "doc" || String.eqb fileType "docx" then
       try_catch
         (if String.eqb fileType "docx" then await (extractRawText F fileBuffer)
          else ret (placeholder F (toUpperCase fileType) filePath))
         (fun _ => ret (placeholder F (toUpperCase fileType) filePath))
     else throw "Unsupported file type")
    (fun error => throw ("Failed to extract text from resume: " ++ error)).

(** The two messages of [generateStructuredPrompt]: the instructions, and
    the text of the resume. *)
Definition generateStructuredPrompt (resumeText : string) : Prompt :=
  mkPrompt "You are an expert resume analyzer." [resumeText].

Definition processResume (F : Files) (W : World) (fuel : nat)
    (filePath fileType : string) : M JSValue :=
  try_catch
    (resumeText <- extractTextFromResume F filePath fileType ;;
     try_catch
       (llmResponse <- chat W (generateStructuredPrompt resumeText) ;;
        extractedData <- lift (extractJSON fuel (Some llmResponse)) ;;
        if truthy extractedData then ret extractedData
        else throw "Failed to parse resume data from LLM response")
       (fun llmError =>
          if includes llmError "Ollama service is not running"
          then throw ("Resume analysis requires Ollama service which is currently "
                        ++ "unavailable. Please try the manual input method instead.")
          else throw llmError))
    (fun error => throw ("Failed to process resume: " ++ error)).

End ResumeExtractor.

(* ===================================================================== *)
(** * services/badgeService.js and services/pointsService.js *)
(* ===================================================================== *)

Module Gamification.
Import JS Async Db.
Local Open Scope db_scope.

(** [try { await body } catch (error) { handler(error.message) }] on the
    collections. *)
Definition orElse {A : Type} (body : DB A) (handler : string -> DB A) : DB A :=
  fun c =>
    match body c with
    | (Thrown e, c') => handler e c'
    | other => other
    end.

(** The filter [{ userId, badgeId }] *)
Definition isBadge (userId id : string) (b : BadgeDoc) : bool :=
  String.eqb (b_userId b) userId && String.eqb (badgeId b) id.

(** [UserBadge.updateOne({ userId, badgeId }, { $setOnInsert: { name,
    description, earnedAt } }, { upsert: true })]: a document that is there
    is left as it is. *)
Definition upsertBadge (userId id name description : string) : DB unit :=
  fun c =>
    if existsb (isBadge userId id) (userBadges c) then (Returned tt, c)
    else
      (Returned tt,
       mkCollections (agent c) (banks c) (lessons c) (progress c) (leaderboard c)
         (userBadges c ++ [mkBadgeDoc userId id name description])%list).

(** [awardBadge(userId, badgeId, name, description)] *)
Definition awardBadge (userId id name description : string) : DB unit :=
  orElse (upsertBadge userId id name description) (fun _ => resolve tt).

(** The points of a user on the leaderboard, 0 without a document. *)
Definition pointsOf (userId : string) (board : list (string * Z)) : Z :=
  match find (fun e => String.eqb (fst e) userId) board with
  | Some e => snd e
  | None => 0%Z
  end.

(** [Leaderboard.findOneAndUpdate({ userId }, { $inc: { points } },
    { upsert: true, new: true })]: the points of the document returned. *)
Definition incPoints (userId : string) (points : Z) : DB Z :=
  fun c =>
    let total := (pointsOf userId (leaderboard c) + points)%Z in
    (Returned total,
     mkCollections (agent c) (banks c) (lessons c) (progress c)
       ((userId, total)
          :: filter (fun e => negb (String.eqb (fst e) userId)) (leaderboard c))
       (userBadges c)).

(** [checkAndAwardPointBadges(userId, totalPoints)] *)
Definition checkAndAwardPointBadges (userId : string) (totalPoints : Z) : DB unit :=
  orElse
    (_ <-- (if (100 <=? totalPoints)%Z
            then awardBadge userId "points_100" "Century" "Earned 100 points"
            else resolve tt) ;;
     _ <-- (if (500 <=? totalPoints)%Z
            then awardBadge userId "points_500" "High Achiever" "Earned 500 points"
            else resolve tt) ;;
     _ <-- (if (1000 <=? totalPoints)%Z
            then awardBadge userId "points_1000" "Point Master" "Earned 1000 points"
            else resolve tt) ;;
     if (5000 <=? totalPoints)%Z
     then awardBadge userId "points_5000" "Skill Champion" "Earned 5000 points"
     else resolve tt)
    (fun _ => resolve tt).

(** [awardPoints(userId, points, action)]; it resolves with the points of
    the leaderboard entry.  The points are integers. *)
Definition awardPoints (userId : string) (points : Z) (action : string) : DB Z :=
  orElse
    (total <-- incPoints userId points ;;
     _ <-- checkAndAwardPointBadges userId total ;;
     resolve total)
    (fun error => reject error).

End Gamification.

(* ===================================================================== *)
(** * routes/progress.js: POST /api/progress *)
(* ===================================================================== *)

Module ProgressRoutes.
Import JS Async ResearchAgent Db MemoryService LessonService Gamification.
Local Open Scope db_scope.

(** The filter [{ userId, lessonId }] *)
Definition isProgress (userId lessonId : string) (p : ProgressDoc) : bool :=
  String.eqb (pg_userId p) userId && String.eqb (pg_lessonId p) lessonId.

(** [status === 'completed'] *)
Definition completed (status : option string) : bool :=
  match status with Some s => String.eqb s "completed" | None => false end.

(** [Progress.findOneAndUpdate({ userId, lessonId }, update, { upsert:
    true, new: true, setDefaultsOnInsert: true })] with the update the
    handler builds: the status when it is truthy, the score when it is a
    number, the date when the status is completed.  The other fields are
    those of the document that is there, or the defaults of the schema. *)
Definition upsertProgress (now : Z) (userId lessonId : string) (status : option string)
    (score : JSValue) : DB ProgressDoc :=
  fun c =>
    let before := find (isProgress userId lessonId) (progress c) in
    let doc :=
      mkProgressDoc userId lessonId
        (arg_or status
           (match before with Some p => pg_status p | None => "not_started" end))
        (match score with
         | JNum q => Some q
         | _ => match before with Some p => pg_score p | None => None end
         end)
        (if completed status then Some now
         else match before with Some p => pg_completedAt p | None => None end) in
    (Returned doc,
     mkCollections (agent c) (banks c) (lessons c)
       (doc :: filter (fun p => negb (isProgress userId lessonId p)) (progress c))
       (leaderboard c) (userBadges c)).

(** [Lesson.findOne({ lessonId })] *)
Definition findLesson (id : string) : DB (option LessonDoc) :=
  fun c => (Returned (find (fun l => String.eqb (lessonId l) id) (lessons c)), c).

(** [concept || lesson?.concepts?.[0] || lesson?.skill || lesson?.lessonId
    || 'General'] *)
Definition lessonTopic (concept : option string) (lesson : option LessonDoc) : string :=
  arg_or concept
    (arg_or (match lesson with Some l => hd_error (l_concepts l) | None => None end)
       (arg_or (option_map l_skill lesson)
          (arg_or (option_map lessonId lesson) "General"))).

(** [typeof score === 'number' ? score : 100] *)
Definition countedScore (score : JSValue) : JSValue :=
  match score with JNum _ => score | _ => JNum 100 end.

(** [Math.round(x)] *)
Definition round (x : Q) : Z := Qfloor (x + (1 # 2)).

(** [typeof score === 'number' ? Math.round(score / 10) : 10] *)
Definition bonus (score : JSValue) : Z :=
  match score with JNum q => round (q / 10) | _ => 10%Z end.

(** The handler of POST /api/progress at the time [now], on a body whose
    [lessonId] is a text and whose [status] and [concept] are texts or
    absent ([None]); the validators of the route are declared and their
    result is never read, so [score] is any value.  The document it
    resolves with is the one it answers with, and a rejection is the error
    given to [next]. *)
Definition postProgress (now : Z) (userId lessonId : string) (status : option string)
    (score : JSValue) (concept : option string) : DB ProgressDoc :=
  progressDoc <-- upsertProgress now userId lessonId status score ;;
  if completed status then
    lesson <-- findLesson lessonId ;;
    let topic := lessonTopic concept lesson in
    _ <-- updateMemoryFromScore userId topic (countedScore score) ;;
    _ <-- awardPoints userId (10 + bonus score) "lesson_completed" ;;
    _ <-- awardBadge userId "starter" "Starter" "First lesson completed" ;;
    resolve progressDoc
  else resolve progressDoc.

End ProgressRoutes.



(* ===================================================================== *)
(** * The vocabulary of the statements *)
(* ===================================================================== *)

Import JS Async LlmClient ResearchAgent ResearchRoutes RoadmapLlm.
Import Db MemoryService AdaptiveEngine LessonService ResearchHandlers.
Import ResumeExtractor Gamification ProgressRoutes.

(** The keywords of the curated table. *)
Definition curatedKeywords : list string :=
  [ "javascript"; "js"; "python"; "data science"; "machine learning";
    "react"; "frontend"; "leadership"; "management" ].

(** [query] contains [keyword], whatever the case of its letters. *)
Definition mentions (query keyword : string) : Prop :=
  exists pre k post, query = pre ++ k ++ post /\ toLowerCase k = keyword.

(** The boosts as amounts added to the base score. *)
Definition contentBoost (scraped : option ScrapedContent) : Q :=
  match scraped with
  | Some sc =>
      (if 500 <? wordCount sc then 0.1 else 0)
      + (if 3 <? List.length (headers sc) then 0.1 else 0)
      + (if 100 <? String.length (summary sc) then 0.1 else 0)
  | None => 0
  end.

Definition trustBoost (r : SearchResult) : Q :=
  if isTrusted (sr_url r) then 0.2 else 0.

(** [later] is [earlier] with, at most, a scraped record gained, more
    words or more headings in it, and the same summary length. *)
Definition richer (earlier later : option ScrapedContent) : Prop :=
  match earlier, later with
  | Some sc, Some sc' =>
      wordCount sc <= wordCount sc'
      /\ List.length (headers sc) <= List.length (headers sc')
      /\ String.length (summary sc) = String.length (summary sc')
  | None, _ => True
  | Some _, None => False
  end.

(** The candidate [r'] with the scrapes [scs'] is the candidate [r] with
    the scrapes [scs] but for a trusted-domain match, words or headings
    gained. *)
Definition gains (scs scs' : list ScrapedContent) (r r' : SearchResult) : Prop :=
  relevanceScore r' = relevanceScore r
  /\ (isTrusted (sr_url r) = true -> isTrusted (sr_url r') = true)
  /\ richer (findScraped scs r) (findScraped scs' r').

(** [a] is ranked no lower than [b]. *)
Definition outranks (a b : RankedResource) : Prop :=
  (qualityScore b <= qualityScore a)%Q.

(** The score before clamping as the specification words it: a boost for
    three headings or more. *)
Definition claimedRawScore (r : SearchResult) (sc : ScrapedContent) : Q :=
  relevanceScore r
  + (if 500 <? wordCount sc then 0.1 else 0)
  + (if 3 <=? List.length (headers sc) then 0.1 else 0)
  + (if 100 <? String.length (summary sc) then 0.1 else 0)
  + (if isTrusted (sr_url r) then 0.2 else 0).

(** The same with the test of the code: more than three headings. *)
Definition codedRawScore (r : SearchResult) (sc : ScrapedContent) : Q :=
  relevanceScore r
  + (if 500 <? wordCount sc then 0.1 else 0)
  + (if 3 <? List.length (headers sc) then 0.1 else 0)
  + (if 100 <? String.length (summary sc) then 0.1 else 0)
  + (if isTrusted (sr_url r) then 0.2 else 0).

(** The request or the parse fails with the message [e]. *)
Definition scrapeFails (W : World) (url e : string) : Prop :=
  http_get W url = Failed e
  \/ exists data, http_get W url = Ok data /\ cheerio_load W data = Failed e.

(** [s] contains [t]. *)
Definition contains (s t : string) : Prop := exists pre post, s = pre ++ t ++ post.

(** The states of the array loop of [cleanupJSON] on the text [arrayText].
    The content of the array is repaired to 1, 2$&$& and put back with
    [replace], where each $& stands for the matched text: the first
    occurrence of [arrayText] becomes [grownHead], [arrayText], [block].
    After k turns [cleaned] is [grown k]. *)
Definition arrayText : string := "[1 2$&$&]".

Definition grownHead : string := "[1, 2".

Definition block : string := arrayText ++ "]".

Definition grown (k : nat) : string :=
  repeat_str grownHead k ++ arrayText ++ repeat_str block k.

(** The part of [grown (k + 2)] before [lastIndex], and the part after it,
    in which [exec] finds one more array. *)
Definition scanned (k : nat) : string :=
  repeat_str grownHead (k + 2) ++ arrayText ++ repeat_str block k ++ "[1 2".

Definition pending : string := "$&$&]][1 2$&$&]]".

(** The message [generateFallbackRoadmap] sends. *)
Definition fallbackPrompt (topic : string) (options : Options) : Prompt :=
  mkPrompt "Create a comprehensive learning roadmap for"
    [topic; show_string (o_level options); show_string (o_timeframe options);
     show_nat (o_dailyTimeMinutes options)].

(** The message [generateRoadmapWithSources] sends. *)
Definition sourcesPrompt (topic : string) (resources : list RankedResource)
    (options : Options) : Prompt :=
  mkPrompt "You are an expert learning designer. Create a comprehensive, step-by-step roadmap for learning"
    [topic; join newline (map resourceSummary (numbered 0 (firstn 5 resources)));
     show_string (o_level options); show_string (o_timeframe options);
     show_nat (o_dailyTimeMinutes options); show_string (o_focus options);
     show_bool (o_includeProjects options)].

(** The one step of the basic structure. *)
Definition introductionStep (topic : string) (options : Options) : JSValue :=
  JObj
    [ ("week", JNum 1); ("day", JNum 1);
      ("title", JStr ("Introduction to " ++ topic));
      ("description", JStr ("Learn the basics of " ++ topic));
      ("duration", JStr "5 minutes");
      ("type", JStr "theory");
      ("concepts", JArr [JStr topic]);
      ("resources", JArr []);
      ("optional", JBool false);
      ("difficulty", match o_level options with Some l => JStr l | None => JUndefined end) ].

(** Neither null nor undefined: its properties can be read. *)
Definition readable (v : JSValue) : Prop := v <> JNull /\ v <> JUndefined.

(** The result [r] of the fallback, for a reply read as [parsed]. *)
Definition fallbackResult (topic : string) (options : Options) (parsed : JSValue)
    (r : ComprehensiveRoadmap) : Prop :=
  methodology r = "llm-fallback"
  /\ sources r = []
  /\ warning r = Some "Generated without web sources due to connectivity issues"
  /\ roadmap r = (if truthy parsed then parsed else basicStructure topic options)
  /\ (truthy parsed = false ->
      get_prop (roadmap r) "steps" = inl (JArr [introductionStep topic options])
      /\ totalSteps r = JNum 1).










(** The message [summarizeContent] sends to the model. *)
Definition summaryPrompt (title content : string) : Prompt :=
  mkPrompt "Summarize the following content about" [title; take 2000 content].

(** The scrape of [url] succeeded: neither the request nor the parse
    failed. *)
Definition scrapeSucceeds (W : World) (url : string) : Prop :=
  exists data page, http_get W url = Ok data /\ cheerio_load W data = Ok page.

(** The record [sc] is what the scrape of [url] gives: it has an error
    exactly when the scrape failed, and then that of the failure. *)
Definition recordOf (W : World) (url : string) (sc : ScrapedContent) : Prop :=
  sc_url sc = url
  /\ ((scrapeSucceeds W url /\ error sc = None)
      \/ (exists e, scrapeFails W url e /\ error sc = Some e)).

(** The level of the first concept of a topic. *)
Definition levelOf (topic : string) (concepts : list Concept) : option Z :=
  option_map strengthLevel (find (fun c => String.eqb (c_topic c) topic) concepts).

Definition otherTopics (topic : string) (concepts : list Concept) : list Concept :=
  filter (fun c => negb (String.eqb (c_topic c) topic)) concepts.

Definition otherUsers {A : Type} (user : string) (store : list (string * A))
    : list (string * A) :=
  filter (fun e => negb (String.eqb (fst e) user)) store.

Definition withinBounds (c : Concept) : Prop := (0 <= strengthLevel c <= 100)%Z.

(** The level before the update: that of the first concept of the topic in
    the bank of the user, 50 for a topic (or a user) the banks do not
    have. *)
Definition levelBefore (user topic : string) (c : Collections) : Z :=
  match findBankOf user c with
  | Some concepts =>
      match levelOf topic concepts with Some l => l | None => 50%Z end
  | None => 50%Z
  end.

Definition conceptsBefore (user : string) (c : Collections) : list Concept :=
  match findBankOf user c with Some concepts => concepts | None => [] end.

(** The concepts of a bank once the level of a topic has moved by
    [delta]. *)
Definition moved (topic : string) (delta : Z) (bank : list Concept) : list Concept :=
  match find (fun c => String.eqb (c_topic c) topic) bank with
  | Some concept => setStrength topic (clamp (strengthLevel concept + delta)) bank
  | None => (bank ++ [mkConcept topic (clamp (50 + delta))])%list
  end.

(** The level of a topic in the bank an update resolves with. *)
Definition levelAfter (user topic : string) (score : Q) (c : Collections) : option Z :=
  match fst (updateMemoryFromScore user topic (JNum score) c) with
  | Returned (Some concepts) => levelOf topic concepts
  | _ => None
  end.

Definition bankAfter (user topic : string) (score : Q) (c : Collections)
    : list Concept :=
  match fst (updateMemoryFromScore user topic (JNum score) c) with
  | Returned (Some concepts) => concepts
  | _ => []
  end.

Definition weakerOrEqual (a b : Concept) : Prop :=
  (strengthLevel a <= strengthLevel b)%Z.





(** A computation that leaves the Roadmap collection alone and calls the
    model [n] times at most. *)
Definition quiet {A : Type} (n : nat) (m : M A) : Prop :=
  forall st,
    roadmaps (snd (m st)) = roadmaps st
    /\ calls st <= calls (snd (m st)) <= calls st + n.

(** A computation that calls the model [n] times at most and either
    resolves, having replaced the roadmap of the user by the document it
    resolves with, or leaves the Roadmap collection alone. *)
Definition replaces (user : string) (n : nat) (m : M RoadmapDoc) : Prop :=
  forall st,
    calls st <= calls (snd (m st)) <= calls st + n
    /\ match fst (m st) with
       | Returned doc =>
           userId doc = user
           /\ roadmaps (snd (m st)) = (user, doc) :: otherUsers user (roadmaps st)
       | _ => roadmaps (snd (m st)) = roadmaps st
       end.

(** A computation that calls the model at least once, and one that always
    resolves. *)
Definition asks {A : Type} (m : M A) : Prop :=
  forall st, calls st + 1 <= calls (snd (m st)).

Definition resolves {A : Type} (m : M A) : Prop :=
  forall st, exists a st', m st = (Returned a, st').

(** The message the compare-resources handler sends to the model for the
    resources it takes for valid. *)
Definition comparisonPrompt (topic : string) (validResources : list Resource) : Prompt :=
  mkPrompt "Compare these learning resources for"
    (topic :: flat_map resourceLines (numbered 0 validResources)).

(** The answer of the compare-resources handler with a comparison. *)
Definition compared (topic : string) (resources : list Resource) (comparison : JSValue)
    : Handled :=
  Json (mkResponse true (Some topic) resources (Some comparison)
          (Some (List.length (filter noError resources)))
          "Resource comparison completed successfully").

(** The state after one more call of the model. *)
Definition afterCall (st : State) : State := mkState (S (calls st)) (roadmaps st).

(** The text has no occurrence of the character. *)
Definition without (c : ascii) (s : string) : Prop := count_char c s = 0.

(** A state of a match whose remaining text and captures are without the
    character. *)
Definition cleanState (c : ascii) (st : mstate) : Prop :=
  without c (rest st) /\ Forall (fun e => without c (snd e)) (caps st).

(** Every character of the text is in the class. *)
Fixpoint every (p : ascii -> bool) (s : string) : bool :=
  match s with
  | EmptyString => true
  | String c s' => p c && every p s'
  end.

(** The character before the position reached once [s] is read. *)
Fixpoint prevAfter (pv : option ascii) (s : string) : option ascii :=
  match s with
  | EmptyString => pv
  | String c s' => prevAfter (Some c) s'
  end.

(** A match of one of the four patterns: the text read, the text put in
    its place, and the text left. *)
Record Repair : Type := mkRepair {
  found : string;
  put : string;
  leftOver : string
}.

Definition repairs (r : regex) (n : nat) (template : string) (s : string) (i : nat)
    (pv : option ascii) (m : match_result) (x : Repair) : Prop :=
  s = found x ++ leftOver x
  /\ m_end m = i + String.length (found x)
  /\ forall before,
       getSubstitution n (m_caps m) (m_text m) before (m_after m) template = put x.

(** The character before is part of an item: neither a space nor a
    comma. *)
Definition afterItem (pv : option ascii) : bool :=
  match pv with
  | Some d => negb (is_space d) && negb (Ascii.eqb d ",")
  | None => false
  end.

(** The length of a text, a space that follows an item counting twice:
    the room a text has for the commas the repair inserts. *)
Fixpoint weight (pv : option ascii) (s : string) : nat :=
  match s with
  | EmptyString => 0
  | String c s' => (if is_space c && afterItem pv then 2 else 1) + weight (Some c) s'
  end.

(** A repair is light when what it puts weighs no more than what it
    found, and leaves the same kind of character before what follows. *)
Definition light (x : Repair) : Prop :=
  found x <> ""
  /\ forall pv pv',
       afterItem pv = afterItem pv' ->
       weight pv' (put x) <= weight pv (found x)
       /\ afterItem (prevAfter pv' (put x)) = afterItem (prevAfter pv (found x)).

(** A character of an item. *)
Definition itemChar (c : ascii) : bool := negb (is_space c) && negb (Ascii.eqb c ",").

(** The fuel that is enough for [extractJSON] on a text. *)
Definition enoughFuel (text : string) : nat :=
  S (String.length (cleanupReplacements (fencedContent text))
     + match match_ jsonPattern text with
       | Some m => String.length (cleanupReplacements (m_text m))
       | None => 0
       end).

(** The opening of a fence: three backticks and, or not, the word json in
    any case; without the word, the body must not begin with it. *)
Definition fenceTag (tag body : string) : Prop :=
  toLowerCase tag = "json"
  \/ (tag = "" /\ startsWith "json" (toLowerCase body) = false).

(** [v == null]: the value is null or undefined. *)
Definition isNullish (v : JSValue) : bool :=
  match v with JUndefined | JNull => true | _ => false end.

(** The roadmap written for a research roadmap without steps. *)
Definition emptyRoadmap (user : string) : RoadmapDoc := mkRoadmapDoc user [].

(** The file types [extractTextFromResume] knows. *)
Definition supportedTypes : list string := ["pdf"; "doc"; "docx"].

(** The library of the file type cannot extract the text of the buffer:
    pdf-parse or mammoth fails, and for a doc file there is no library. *)
Definition notExtracted (F : Files) (fileType buffer : string) : Prop :=
  (fileType = "pdf" /\ exists e, pdfParse F buffer = Failed e)
  \/ fileType = "doc"
  \/ (fileType = "docx" /\ exists e, extractRawText F buffer = Failed e).

(** The text the model is given for a resume. *)
Definition resumeTextOf (F : Files) (filePath fileType : string) : Outcome string :=
  match readFile F filePath with
  | Failed e => Thrown ("Failed to extract text from resume: " ++ e)
  | Ok buffer =>
      if String.eqb fileType "pdf" then
        Returned (match pdfParse F buffer with
                  | Ok text => text
                  | Failed _ => placeholder F "PDF" filePath
                  end)
      else if String.eqb fileType "docx" then
        Returned (match extractRawText F buffer with
                  | Ok text => text
                  | Failed _ => placeholder F "DOCX" filePath
                  end)
      else if String.eqb fileType "doc" then Returned (placeholder F "DOC" filePath)
      else Thrown "Failed to extract text from resume: Unsupported file type"
  end.

(** The number of documents of a badge of a user. *)
Definition badgeCount (user id : string) (c : Collections) : nat :=
  List.length (filter (isBadge user id) (userBadges c)).

(** From [c] to [c'] only badges of the user have been added, and no badge
    the user had: the other collections are as before, no count of a badge
    goes down, none goes above one unless it was, and the badges of the
    other users are as before. *)
Definition badgesGrow (user : string) (c c' : Collections) : Prop :=
  agent c' = agent c /\ banks c' = banks c /\ lessons c' = lessons c
  /\ progress c' = progress c /\ leaderboard c' = leaderboard c
  /\ forall u id,
       badgeCount u id c <= badgeCount u id c' <= Nat.max 1 (badgeCount u id c)
       /\ (u <> user -> badgeCount u id c' = badgeCount u id c).

(** The badges of [checkAndAwardPointBadges], by their thresholds. *)
Definition pointBadges : list (Z * string) :=
  [ (100, "points_100"); (500, "points_500"); (1000, "points_1000");
    (5000, "points_5000") ]%Z.

(** The documents of the other users and lessons. *)
Definition otherProgress (user lesson : string) (docs : list ProgressDoc)
    : list ProgressDoc :=
  filter (fun p => negb (isProgress user lesson p)) docs.

(** The progress of a user on a lesson. *)
Definition progressOf (user lesson : string) (c : Collections) : option ProgressDoc :=
  find (isProgress user lesson) (progress c).

(** The topic the handler updates the memory for. *)
Definition topicOf (lesson : string) (concept : option string) (c : Collections) : string :=
  lessonTopic concept (find (fun l => String.eqb (lessonId l) lesson) (lessons c)).

(** The score and the date of completion the progress of a user on a
    lesson has. *)
Definition scoreBefore (user lesson : string) (c : Collections) : option Q :=
  match progressOf user lesson c with Some p => pg_score p | None => None end.

Definition completedBefore (user lesson : string) (c : Collections) : option Z :=
  match progressOf user lesson c with Some p => pg_completedAt p | None => None end.

(* ===================================================================== *)
(** * Sample worlds and inputs *)
(* ===================================================================== *)

(** A provider that answers with an empty payload, a model that is down,
    pages that cannot be fetched. *)
Definition emptyPayload : SearchData := mkSearchData "" "" "" "" None.

Definition quietWorld : World :=
  mkWorld (fun _ _ => Failed "fetch failed")
    (fun _ => Ok emptyPayload)
    (fun _ => Failed "getaddrinfo ENOTFOUND")
    (fun _ => Failed "parse error")
    (fun _ => None) (fun _ => None) (fun _ => "0").

Definition initialState : State := mkState 0 [].

Definition plainResult : SearchResult :=
  mkSearchResult "Python notes" "https://example.org/python-notes" "Notes" "Example" 0.5.

Definition trustedResult : SearchResult :=
  mkSearchResult "Python notes" "https://docs.python.org/3/tutorial/" "Notes" "Example" 0.5.

Definition threeHeadings : ScrapedContent :=
  mkScrapedContent "https://example.org/python-notes" "Python notes" "" ""
    [ mkHeader (Some 1) "Python"; mkHeader (Some 2) "Syntax"; mkHeader (Some 2) "Types" ]
    0 None.

(** A page whose main element holds 1500 characters, and a model that
    answers. *)
Definition longPage : Page :=
  mkPage (fun selector =>
            if String.eqb selector "main" then mkSelection 1 (repeat_str "a" 1500)
            else mkSelection 0 "")
    [].

Definition longPageWorld : World :=
  mkWorld (fun _ _ => Ok "A page about the letter a.")
    (fun _ => Ok emptyPayload)
    (fun _ => Ok "<html><main>...</main></html>")
    (fun _ => Ok longPage)
    (fun _ => None) (fun _ => None) (fun _ => "0").

(** Hosts that refuse the connection with an error that has no message,
    and a model that answers. *)
Definition refusingWorld : World :=
  mkWorld (fun _ _ => Ok ("{" ++ quote ++ "summary" ++ quote ++ ": "
                            ++ quote ++ "Both are fine" ++ quote ++ "}"))
    (fun _ => Ok emptyPayload)
    (fun _ => Failed "")
    (fun _ => Failed "parse error")
    (fun _ => None) (fun _ => None) (fun _ => "0").

(** A page that is served and parsed, and has no text. *)
Definition blankPage : Page := mkPage (fun _ => mkSelection 0 "") [].

Definition blankPageWorld : World :=
  mkWorld (fun _ _ => Ok "Nothing to summarize.")
    (fun _ => Ok emptyPayload)
    (fun _ => Ok "<html><body></body></html>")
    (fun _ => Ok blankPage)
    (fun _ => None) (fun _ => None) (fun _ => "0").

Definition quotedBackticks : string := quote ++ "a`b`c" ++ quote.

Definition inlineCode : string :=
  "{" ++ quote ++ "code" ++ quote ++ ": " ++ quote ++ "use `npm` here" ++ quote ++ "}".

Definition beginnerOptions : Options :=
  mkOptions (Some "4-weeks") (Some "beginner") (Some 30) (Some "practical") (Some true).

(** No search, no page; the first call to the model times out, the next
    ones answer [reply]. *)
Definition degradedWorld (reply : string) : World :=
  mkWorld (fun n _ => match n with 0 => Failed "timeout" | S _ => Ok reply end)
    (fun _ => Failed "getaddrinfo ENOTFOUND")
    (fun _ => Failed "getaddrinfo ENOTFOUND")
    (fun _ => Failed "parse error")
    (fun _ => None) (fun _ => None) (fun _ => "0").

Definition weekDayStep (week d : nat) (title : string) : string :=
  "{'week': " ++ nat_to_string week ++ ", 'day': " ++ nat_to_string d
    ++ ", 'title': '" ++ title ++ "'}".

(** A plan of two weeks, the days numbered within each week. *)
Definition twoWeekPlan : string :=
  "{'overview': 'React in two weeks', 'steps': ["
    ++ join ", "
         [ weekDayStep 1 1 "JSX"; weekDayStep 1 2 "Components";
           weekDayStep 1 3 "Props"; weekDayStep 1 4 "State";
           weekDayStep 1 5 "Events"; weekDayStep 2 1 "Effects";
           weekDayStep 2 2 "Context"; weekDayStep 2 3 "Routing" ]
    ++ "]}".

Definition learner : Profile := mkProfile "React" "beginner" 30 "Build a web app".

Definition plannerWorld : World :=
  mkWorld (fun _ _ => Ok twoWeekPlan)
    (fun _ => Failed "getaddrinfo ENOTFOUND")
    (fun _ => Failed "getaddrinfo ENOTFOUND")
    (fun _ => Failed "parse error")
    (fun _ => Some learner) (fun _ => None) (fun _ => "0").




(** A plan whose only step has a name for its day. *)
Definition namedDayPlan : string := "{'steps': [{'day': 'Day 1', 'title': 'JSX'}]}".

Definition namedDayWorld : World :=
  mkWorld (fun _ _ => Ok namedDayPlan)
    (fun _ => Failed "getaddrinfo ENOTFOUND")
    (fun _ => Failed "getaddrinfo ENOTFOUND")
    (fun _ => Failed "parse error")
    (fun _ => Some learner) (fun _ => None) (fun _ => "0").

Definition twoUrls : list string := ["https://a.example/"; "https://b.example/"].

Definition sampleBanks : Collections :=
  mkCollections initialState
    [ ("u1", [ mkConcept "closures" 45; mkConcept "promises" 95 ]);
      ("u2", [ mkConcept "closures" 70 ]) ]
    [] [] [] [].



Definition dayStep (d : Z) (title : string) (ids : list string) : Step :=
  mkStep (Finite (inject_Z d)) title ids [] JUndefined JUndefined JUndefined JUndefined.


(** A model that answers every call with an empty object. *)
Definition terseWorld : World :=
  mkWorld (fun _ _ => Ok "{}")
    (fun _ => Failed "getaddrinfo ENOTFOUND")
    (fun _ => Failed "getaddrinfo ENOTFOUND")
    (fun _ => Failed "parse error")
    (fun _ => Some learner) (fun _ => None) (fun _ => "0").

Definition oneRoadmap : State :=
  mkState 0
    [ ("u1", mkRoadmapDoc "u1" [ dayStep 1 "Scope" [] ]);
      ("u2", mkRoadmapDoc "u2" [ dayStep 1 "Hooks" [] ]) ].

(** A disk with one file, which no library can read, and a model that
    answers with a profile. *)
Definition sampleFiles : Files :=
  mkFiles (fun _ => Ok "%PDF-1.7")
    (fun _ => Failed "Cannot find module 'pdf-parse'")
    (fun _ => Failed "Cannot find module 'mammoth'")
    (fun _ => "resume-1.pdf").

Definition profileReply : string := "{'userType': 'fresher'}".

Definition analystWorld : World :=
  mkWorld (fun _ _ => Ok profileReply)
    (fun _ => Failed "getaddrinfo ENOTFOUND")
    (fun _ => Failed "getaddrinfo ENOTFOUND")
    (fun _ => Failed "parse error")
    (fun _ => None) (fun _ => None) (fun _ => "0").

(** A learner with a bank, a lesson on closures, and some points. *)
Definition campus : Collections :=
  mkCollections initialState
    [ ("u1", [ mkConcept "closures" 45 ]) ]
    [ mkLessonDoc "js-closures" "quiz" JNull "JavaScript" "Beginner" ["closures"] ]
    [ mkProgressDoc "u1" "js-closures" "in_progress" (Some 55%Q) None ]
    [ ("u1", 85%Z) ]
    [].

(* ===================================================================== *)
(** * Facts about the runtime *)
(* ===================================================================== *)

Lemma append_nil_r (s : string) : s ++ "" = s.
Proof. induction s as [|c s IH]; simpl; [reflexivity | now rewrite IH]. Qed.

Lemma append_assoc (a b c : string) : (a ++ b) ++ c = a ++ (b ++ c).
Proof. induction a as [|x a IH]; simpl; [reflexivity | now rewrite IH]. Qed.

Lemma length_append (a b : string) :
  String.length (a ++ b) = String.length a + String.length b.
Proof. induction a as [|x a IH]; simpl; [reflexivity | now rewrite IH]. Qed.

Lemma startsWith_append (p s : string) : startsWith p (p ++ s) = true.
Proof.
  induction p as [|c p IH]; simpl; [reflexivity|].
  now rewrite Ascii.eqb_refl.
Qed.

Lemma indexOf_startsWith (p s : string) :
  startsWith p s = true -> indexOf p s = Some 0.
Proof. destruct s; simpl; now intros ->. Qed.

Lemma includes_infix (pre p post : string) : includes (pre ++ p ++ post) p = true.
Proof.
  unfold includes.
  induction pre as [|c pre IH]; simpl.
  - now rewrite indexOf_startsWith by apply startsWith_append.
  - destruct (startsWith p (String c (pre ++ p ++ post))); [reflexivity|].
    destruct (indexOf p (pre ++ p ++ post)); [reflexivity | discriminate].
Qed.

Lemma toLowerCase_append (a b : string) :
  toLowerCase (a ++ b) = toLowerCase a ++ toLowerCase b.
Proof. induction a as [|c a IH]; simpl; [reflexivity | now rewrite IH]. Qed.

Lemma length_take (n : nat) (s : string) : String.length (take n s) <= n.
Proof.
  unfold take. revert s.
  induction n as [|n IH]; intros [|c s]; simpl; try lia.
  specialize (IH s). lia.
Qed.

Lemma take_all (n : nat) (s : string) : String.length s <= n -> take n s = s.
Proof.
  unfold take. revert s.
  induction n as [|n IH]; intros [|c s]; simpl; intros H; try reflexivity; try lia.
  f_equal. apply IH. lia.
Qed.

(** The monad: what a [try]/[catch] around a body does. *)
Lemma try_catch_returned {A : Type} (body : M A) (handler : string -> M A)
    (st st' : State) (a : A) :
  body st = (Returned a, st') -> try_catch body handler st = (Returned a, st').
Proof. unfold try_catch. now intros ->. Qed.

Lemma try_catch_thrown {A : Type} (body : M A) (handler : string -> M A)
    (st st' : State) (e : string) :
  body st = (Thrown e, st') -> try_catch body handler st = handler e st'.
Proof. unfold try_catch. now intros ->. Qed.

(* ===================================================================== *)
(** * Checks of the runtime model on concrete inputs *)
(* ===================================================================== *)

Example trim_and_split :
  trim "  a b  " = "a b"
  /\ split " " "a b  c" = ["a"; "b"; ""; "c"]
  /\ split " - " "React - A library - Wikipedia" = ["React"; "A library"; "Wikipedia"]
  /\ List.length (split " " "") = 1
  /\ split_ws "x  y z" = ["x"; "y"; "z"].
Proof. repeat split. Qed.

Example replace_trailing_comma :
  replace trailingComma 1 "$1" "[1, 2, ] , {a:1 , }" = "[1, 2] , {a:1 }".
Proof. reflexivity. Qed.

Example replace_whitespace_runs :
  replace (plus is_space) 0 " " ("a  b" ++ newline ++ newline ++ " c") = "a b c".
Proof. reflexivity. Qed.

Example replace_first_expands_dollar :
  replace_first "b" "[$&]" "abcb" = "a[b]cb"
  /\ replace_first "b" "$$1" "abc" = "a$1c"
  /\ replace_first "b" "$1" "abc" = "a$1c"
  /\ replace_first "x" "y" "abc" = "abc".
Proof. repeat split. Qed.

Example lazy_and_greedy :
  option_map m_text (match_ jsonPattern "a {b} {c} d") = Some "{b}"
  /\ test objectLiteral " {b} {c} " = true
  /\ test objectLiteral "a {b}" = false
  /\ option_map (fun m => capture_text 1 (m_caps m)) (match_ tripleFence "x```JSON[1]```y```z```")
     = Some "[1]".
Proof. repeat split. Qed.

Example json_parse_values :
  JSON_parse "[1, -2.50, 3e2, true, null]"
  = Some (JArr [JNum 1; JNum (-5 # 2); JNum 300; JBool true; JNull])
  /\ JSON_parse " {} " = Some (JObj [])
  /\ JSON_parse "[1,]" = None
  /\ JSON_parse "01" = None
  /\ JSON_parse "[1 2]" = None
  /\ JSON_parse "" = None
  /\ JSON_parse "nul" = None.
Proof. repeat split. Qed.

Example conversions :
  StringToNumber " 12 " = Finite 12
  /\ StringToNumber "" = Finite 0
  /\ StringToNumber "0x1f" = Finite 31
  /\ StringToNumber "1.5e1" = Finite 15
  /\ StringToNumber "seven" = NaN
  /\ ToNumber (JArr [JStr "3"]) = Finite 3
  /\ ToNumber (JArr [JNum 1; JNum 2]) = NaN
  /\ ToNumber (JBool true) = Finite 1
  /\ ToNumber (JObj []) = NaN.
Proof. repeat split. Qed.

Example extractJSON_repairs :
  extractJSON 10 (Some "{a: 1, 'b': 'x',}") = Returned (JObj [("a", JNum 1); ("b", JStr "x")])
  /\ extractJSON 10 (Some ("Here it is: ```json" ++ newline ++ "[1, 2]" ++ newline ++ "``` Enjoy."))
     = Returned (JArr [JNum 1; JNum 2])
  /\ extractJSON 10 (Some "{tags: test json parsing}")
     = Returned (JObj [("tags", JArr [JStr "test"; JStr "json"; JStr "parsing"])])
  /\ extractJSON 10 (Some "{'a': {'b': 1}") = Returned (JObj [("a", JObj [("b", JNum 1)])])
  /\ extractJSON 10 (Some "['x' 'y']") = Returned (JArr [JStr "x"; JStr "y"])
  /\ extractJSON 10 (Some "[3 4 'x']") = Returned (JArr [JNum 3; JNum 4; JStr "x"])
  /\ extractJSON 10 (Some "[true false]") = Returned (JArr [JBool true; JBool false])
  /\ extractJSON 10 (Some "no json here") = Returned JNull.
Proof. repeat split; vm_compute; reflexivity. Qed.

Example curated_selection :
  map sr_title (getCuratedSources "Learn ReactJS")
  = ["MDN JavaScript Guide"; "JavaScript.info Modern Tutorial";
     "React Official Documentation"; "Frontend Masters Learning Paths"]
  /\ getCuratedSources "Quantum Knitting" = [].
Proof. repeat split. Qed.

Example ranking_order :
  map (fun a => sr_title (result a))
    (rankResources (getCuratedSources "frontend leadership") [])
  = ["React Official Documentation"; "Harvard Business Review Leadership";
     "Frontend Masters Learning Paths"; "LinkedIn Learning Leadership Courses"].
Proof. reflexivity. Qed.

(** [parseInt] reads an integer at the start of a text. *)
Lemma parseInt_examples :
  parseInt "10" = Some 10%Z
  /\ parseInt "  42px" = Some 42%Z
  /\ parseInt "-7" = Some (-7)%Z
  /\ parseInt "3.9" = Some 3%Z
  /\ parseInt "5,6" = Some 5%Z
  /\ parseInt "0x1F" = Some 31%Z
  /\ parseInt "ten" = None
  /\ parseInt "" = None
  /\ parseInt "[object Object]" = None.
Proof. repeat split; reflexivity. Qed.

(* ===================================================================== *)
(** * Search: the curated fallback (C5) *)
(* ===================================================================== *)

Lemma mentions_includes (query keyword : string) :
  mentions query keyword -> includes (toLowerCase query) keyword = true.
Proof.
  intros (pre & k & post & -> & <-).
  rewrite !toLowerCase_append. apply includes_infix.
Qed.

Lemma curated_two (query keyword : string) :
  In keyword curatedKeywords -> mentions query keyword ->
  2 <= List.length (getCuratedSources query).
Proof.
  intros Hin Hm. apply mentions_includes in Hm.
  unfold getCuratedSources.
  cbv [curatedKeywords In] in Hin.
  repeat rewrite List.length_app.
  repeat (destruct Hin as [<- | Hin]; [rewrite Hm; rewrite ?orb_true_r; simpl; lia|]).
  contradiction.
Qed.

Lemma slice0_nonneg {A : Type} (l : list A) (n : Z) :
  (0 <= n)%Z -> slice0 l n = firstn (Z.to_nat n) l.
Proof. unfold slice0. intros H. now apply Z.leb_le in H as ->. Qed.

Lemma searchResults_no_live (query : string) (n : Z) (data : SearchData) :
  liveResults query n data = [] -> (0 <= n)%Z ->
  searchResults query n data = firstn (Z.to_nat n) (getCuratedSources query).
Proof.
  intros Hlive Hn. unfold searchResults. rewrite Hlive. cbn [len List.length Z.of_nat].
  change (0 <? 3)%Z with true. cbv iota. rewrite Z.sub_0_r. simpl app.
  rewrite !slice0_nonneg by assumption.
  rewrite firstn_firstn. now rewrite Nat.min_id.
Qed.

(** C5 (as the code has it).  [performWebSearch] always resolves to an
    array and leaves the state alone.  For a query that mentions a curated
    keyword in any case: when the request fails the result is the whole
    curated selection, at least two entries, whatever the limit; when the
    provider answers with no usable entry and the limit is at least 1, the
    result is the first entries of the curated selection, at least one. *)
Theorem performWebSearch_curated_floor :
  forall (W : World) (query : string) (n : Z) (st : State),
  exists results,
    performWebSearch W query n st = (Returned results, st) /\
    (forall keyword, In keyword curatedKeywords -> mentions query keyword ->
       (forall e, search_api W (query ++ " roadmap guide tutorial") = Failed e ->
          results = getCuratedSources query /\ 2 <= List.length results) /\
       (forall data, search_api W (query ++ " roadmap guide tutorial") = Ok data ->
          liveResults query n data = [] -> (1 <= n)%Z ->
          results = firstn (Z.to_nat n) (getCuratedSources query)
          /\ 1 <= List.length results)).
Proof.
  intros W query n st.
  unfold performWebSearch, try_catch, bind, await, ret.
  destruct (search_api W (query ++ " roadmap guide tutorial")) as [data|e] eqn:Hreq.
  - exists (searchResults query n data). split; [reflexivity|].
    intros keyword Hin Hm. split; [intros e He; discriminate|].
    intros data' Hd Hlive Hn. injection Hd as <-.
    pose proof (curated_two query keyword Hin Hm) as H2.
    rewrite searchResults_no_live by (assumption || lia).
    split; [reflexivity|].
    rewrite List.length_firstn. lia.
  - exists (getCuratedSources query). split; [reflexivity|].
    intros keyword Hin Hm. split.
    + intros e' _. split; [reflexivity|]. now apply (curated_two query keyword).
    + intros data Hd. discriminate.
Qed.

(** C5, the claim as stated fails for the limit 0: the provider answers
    with no usable entry, the query is a curated keyword, and the result is
    empty. *)
Lemma performWebSearch_limit_zero :
  mentions "react" "react"
  /\ search_api quietWorld ("react" ++ " roadmap guide tutorial") = Ok emptyPayload
  /\ liveResults "react" 0 emptyPayload = []
  /\ performWebSearch quietWorld "react" 0 initialState = (Returned [], initialState).
Proof.
  split; [|repeat split; reflexivity].
  exists "", "react", "". split; reflexivity.
Qed.

Lemma performWebSearch_curated_floor_witness :
  exists results,
    performWebSearch quietWorld "Learn React" 1 initialState = (Returned results, initialState)
    /\ results = firstn 1 (getCuratedSources "Learn React")
    /\ 1 <= List.length results.
Proof.
  destruct (performWebSearch_curated_floor quietWorld "Learn React" 1 initialState)
    as (results & Hrun & Hkeyword).
  exists results. split; [exact Hrun|].
  destruct (Hkeyword "react") as [_ Hempty].
  - cbv [curatedKeywords In]. tauto.
  - exists "Learn ", "React", "". split; reflexivity.
  - apply (Hempty emptyPayload); [reflexivity | reflexivity | lia].
Defined.

(* ===================================================================== *)
(** * Ranking (C6, C7) *)
(* ===================================================================== *)

Lemma In_insertRanked (a x : RankedResource) (l : list RankedResource) :
  In a (insertRanked x l) <-> a = x \/ In a l.
Proof.
  induction l as [|y l IH]; simpl.
  - intuition congruence.
  - destruct (Qlt_le_dec (qualityScore x) (qualityScore y)); simpl.
    + rewrite IH. intuition congruence.
    + intuition congruence.
Qed.

Lemma In_sortRanked (a : RankedResource) (l : list RankedResource) :
  In a (sortRanked l) <-> In a l.
Proof.
  unfold sortRanked. induction l as [|x l IH]; simpl; [tauto|].
  rewrite In_insertRanked, IH. intuition congruence.
Qed.

(** Every entry of the output is the ranking of an input result. *)
Lemma rankResources_entries (rs : list SearchResult) (scs : list ScrapedContent)
    (a : RankedResource) :
  In a (rankResources rs scs) <-> exists r, In r rs /\ a = rankOne scs r.
Proof.
  unfold rankResources. rewrite In_sortRanked, in_map_iff.
  split; intros (r & H1 & H2); exists r; intuition congruence.
Qed.

Lemma boostIf_plus (c : bool) (x q : Q) :
  (boostIf c x q == q + (if c then x else 0))%Q.
Proof. destruct c; simpl; [reflexivity | now rewrite Qplus_0_r]. Qed.

Lemma rawQualityScore_sum (scs : list ScrapedContent) (r : SearchResult) :
  (rawQualityScore scs r
   == baseScore r + contentBoost (findScraped scs r) + trustBoost r)%Q.
Proof.
  unfold rawQualityScore, trustBoost, contentBoost.
  rewrite boostIf_plus. apply Qplus_comp; [|reflexivity].
  destruct (findScraped scs r) as [sc|].
  - rewrite !boostIf_plus. now rewrite !Qplus_assoc.
  - now rewrite Qplus_0_r.
Qed.

Lemma contentBoost_nonneg (o : option ScrapedContent) : (0 <= contentBoost o)%Q.
Proof.
  destruct o as [sc|]; simpl; [|apply Qle_refl].
  destruct (500 <? wordCount sc), (3 <? List.length (headers sc)),
    (100 <? String.length (summary sc)); vm_compute; discriminate.
Qed.

Lemma trustBoost_nonneg (r : SearchResult) : (0 <= trustBoost r)%Q.
Proof. unfold trustBoost. destruct (isTrusted (sr_url r)); vm_compute; discriminate. Qed.

Lemma ltb_mono (n a b : nat) : a <= b -> (n <? a) = true -> (n <? b) = true.
Proof. rewrite !Nat.ltb_lt. lia. Qed.

Lemma boost_mono (n a b : nat) (x : Q) :
  (0 <= x)%Q -> a <= b ->
  ((if n <? a then x else 0) <= (if n <? b then x else 0))%Q.
Proof.
  intros Hx Hab. destruct (n <? a) eqn:Ha.
  - rewrite (ltb_mono n a b Hab Ha). apply Qle_refl.
  - destruct (n <? b); [exact Hx | apply Qle_refl].
Qed.

Lemma contentBoost_mono (o o' : option ScrapedContent) :
  richer o o' -> (contentBoost o <= contentBoost o')%Q.
Proof.
  destruct o as [sc|], o' as [sc'|]; simpl; try tauto.
  - intros (Hw & Hh & Hs). rewrite Hs.
    repeat apply Qplus_le_compat; try apply Qle_refl;
      apply boost_mono; try assumption; vm_compute; discriminate.
  - intros _. apply (contentBoost_nonneg (Some sc')).
  - intros _. apply Qle_refl.
Qed.

Lemma rawQualityScore_mono (scs scs' : list ScrapedContent) (r r' : SearchResult) :
  gains scs scs' r r' -> (rawQualityScore scs r <= rawQualityScore scs' r')%Q.
Proof.
  intros (Hrel & Htrust & Hrich).
  rewrite !rawQualityScore_sum. unfold baseScore. rewrite Hrel.
  repeat apply Qplus_le_compat; try apply Qle_refl.
  - now apply contentBoost_mono.
  - unfold trustBoost. destruct (isTrusted (sr_url r)).
    + rewrite Htrust by reflexivity. apply Qle_refl.
    + destruct (isTrusted (sr_url r')); vm_compute; discriminate.
Qed.

Lemma baseScore_nonneg (r : SearchResult) :
  (0 <= relevanceScore r)%Q -> (0 <= baseScore r)%Q.
Proof.
  intros H. unfold baseScore.
  destruct (Qeq_bool (relevanceScore r) 0); [vm_compute; discriminate | exact H].
Qed.

(** C6.  A candidate that gains a trusted-domain match, scraped words or
    headings has, in the output of [rankResources], a [qualityScore] at
    least as high as before; and when every [relevanceScore] is in [0,1],
    every [qualityScore] of the output is in [0,1]. *)
Theorem rankResources_monotone_and_bounded :
  (forall (rs rs' : list SearchResult) (scs scs' : list ScrapedContent)
          (a a' : RankedResource),
      In a (rankResources rs scs) -> In a' (rankResources rs' scs') ->
      gains scs scs' (result a) (result a') ->
      (qualityScore a <= qualityScore a')%Q)
  /\ (forall (rs : list SearchResult) (scs : list ScrapedContent),
        (forall r, In r rs -> (0 <= relevanceScore r <= 1)%Q) ->
        forall a, In a (rankResources rs scs) -> (0 <= qualityScore a <= 1)%Q).
Proof.
  split.
  - intros rs rs' scs scs' a a' Ha Ha' Hg.
    apply rankResources_entries in Ha as (r & _ & ->).
    apply rankResources_entries in Ha' as (r' & _ & ->).
    simpl in *. apply Q.min_le_compat_r. now apply rawQualityScore_mono.
  - intros rs scs Hrel a Ha.
    apply rankResources_entries in Ha as (r & Hr & ->). simpl.
    split; [|apply Q.le_min_r].
    apply Q.min_glb; [|vm_compute; discriminate].
    rewrite rawQualityScore_sum.
    pose proof (baseScore_nonneg r (proj1 (Hrel r Hr))).
    pose proof (contentBoost_nonneg (findScraped scs r)).
    pose proof (trustBoost_nonneg r).
    rewrite <- (Qplus_0_r 0). apply Qplus_le_compat; [|assumption].
    rewrite <- (Qplus_0_r 0). now apply Qplus_le_compat.
Qed.

Lemma rankResources_monotone_and_bounded_witness :
  (qualityScore (rankOne [] plainResult) <= qualityScore (rankOne [] trustedResult))%Q
  /\ (0 <= qualityScore (rankOne [] trustedResult) <= 1)%Q.
Proof.
  split.
  - apply (proj1 rankResources_monotone_and_bounded
             [plainResult] [trustedResult] [] []);
      [ now left | now left | ].
    repeat split; simpl; trivial.
  - apply (proj2 rankResources_monotone_and_bounded [trustedResult] []);
      [ | now left ].
    intros r [<- | []]. simpl. split; vm_compute; discriminate.
Defined.

(** C7, the claim as stated fails: a scraped page with exactly three
    headings gets no heading boost. *)
Lemma three_headings_no_boost :
  findScraped [threeHeadings] plainResult = Some threeHeadings
  /\ List.length (headers threeHeadings) = 3
  /\ (rawQualityScore [threeHeadings] plainResult == 0.5)%Q
  /\ (claimedRawScore plainResult threeHeadings == 0.6)%Q
  /\ Qeq_bool (rawQualityScore [threeHeadings] plainResult)
       (claimedRawScore plainResult threeHeadings) = false.
Proof. repeat split. Qed.

Lemma Qeq_bool_false (x y : Q) : ~ (x == y)%Q -> Qeq_bool x y = false.
Proof.
  intros H. destruct (Qeq_bool x y) eqn:E; [|reflexivity].
  now apply Qeq_bool_eq in E.
Qed.

(** C7 (as the code has it).  For an entry of the output of
    [rankResources] that has a scraped record and a relevance score other
    than 0, the score before clamping is the relevance score plus 0.1 for
    more than 500 words, 0.1 for more than three headings, 0.1 for a summary
    of more than 100 characters and 0.2 for a URL that contains a trusted
    domain; the [qualityScore] is that sum capped at 1. *)
Theorem rankResources_boosts :
  forall (rs : list SearchResult) (scs : list ScrapedContent)
         (a : RankedResource) (sc : ScrapedContent),
    In a (rankResources rs scs) ->
    scrapedContent a = Some sc ->
    ~ (relevanceScore (result a) == 0)%Q ->
    findScraped scs (result a) = Some sc
    /\ (rawQualityScore scs (result a) == codedRawScore (result a) sc)%Q
    /\ qualityScore a = Qmin (rawQualityScore scs (result a)) 1.
Proof.
  intros rs scs a sc Ha Hsc Hrel.
  apply rankResources_entries in Ha as (r & _ & ->). simpl in *.
  repeat split; [exact Hsc | ].
  rewrite rawQualityScore_sum. unfold codedRawScore, baseScore, trustBoost.
  rewrite Hsc, (Qeq_bool_false _ _ Hrel). simpl contentBoost.
  now rewrite !Qplus_assoc.
Qed.

Lemma rankResources_boosts_witness :
  findScraped [threeHeadings] plainResult = Some threeHeadings
  /\ (rawQualityScore [threeHeadings] plainResult
      == codedRawScore plainResult threeHeadings)%Q
  /\ qualityScore (rankOne [threeHeadings] plainResult)
     = Qmin (rawQualityScore [threeHeadings] plainResult) 1.
Proof.
  apply (rankResources_boosts [plainResult] [threeHeadings]
           (rankOne [threeHeadings] plainResult) threeHeadings).
  - now left.
  - reflexivity.
  - vm_compute. discriminate.
Defined.

Lemma insertRanked_permutation (x : RankedResource) (l : list RankedResource) :
  Permutation (insertRanked x l) (x :: l).
Proof.
  induction l as [|y l IH]; simpl; [apply Permutation_refl|].
  destruct (Qlt_le_dec (qualityScore x) (qualityScore y)).
  - apply Permutation_trans with (y :: x :: l); [now constructor | constructor].
  - apply Permutation_refl.
Qed.

Lemma sortRanked_permutation (l : list RankedResource) : Permutation (sortRanked l) l.
Proof.
  unfold sortRanked. induction l as [|x l IH]; simpl; [constructor|].
  apply Permutation_trans with (x :: fold_right insertRanked [] l);
    [apply insertRanked_permutation | now constructor].
Qed.

Lemma insertRanked_sorted (x : RankedResource) (l : list RankedResource) :
  StronglySorted outranks l -> StronglySorted outranks (insertRanked x l).
Proof.
  induction l as [|y l IH]; intros Hs; simpl.
  - repeat constructor.
  - inversion Hs as [|? ? Hl Hy]; subst.
    destruct (Qlt_le_dec (qualityScore x) (qualityScore y)) as [Hlt | Hle].
    + constructor; [now apply IH|].
      apply Forall_forall. intros z Hz. apply In_insertRanked in Hz as [-> | Hz].
      * apply Qlt_le_weak, Hlt.
      * rewrite Forall_forall in Hy. now apply Hy.
    + constructor; [exact Hs|].
      constructor; [exact Hle|].
      apply Forall_forall. intros z Hz. rewrite Forall_forall in Hy.
      apply Qle_trans with (qualityScore y); [now apply Hy | exact Hle].
Qed.

(** X4.  The output of [rankResources] is the rankings of the results,
    each once, ordered by descending [qualityScore]. *)
Theorem rankResources_sorted :
  forall (rs : list SearchResult) (scs : list ScrapedContent),
    Permutation (rankResources rs scs) (map (rankOne scs) rs)
    /\ StronglySorted outranks (rankResources rs scs).
Proof.
  intros rs scs. unfold rankResources. split; [apply sortRanked_permutation|].
  unfold sortRanked. induction (map (rankOne scs) rs) as [|x l IH]; simpl.
  - constructor.
  - now apply insertRanked_sorted.
Qed.

(* ===================================================================== *)
(** * Scraping (C2, C8) *)
(* ===================================================================== *)

(** [summarizeContent] catches the failure of the model: it always
    resolves. *)
Lemma summarizeContent_resolves (W : World) (content title : string) (st : State) :
  exists s st', summarizeContent W content title st = (Returned s, st').
Proof.
  unfold summarizeContent, try_catch.
  destruct (String.eqb content "" || (String.length content <? 50)).
  - unfold ret. eauto.
  - unfold bind, chat, ret.
    destruct (llm W (calls st) _); eauto.
Qed.

(** The two ways [scrapeAndSummarize] ends. *)
Lemma scrapeAndSummarize_cases (W : World) (url title : string) (st : State) :
  (exists e, scrapeFails W url e
     /\ scrapeAndSummarize W url title st = (Returned (scrapeFailure url title e), st))
  \/ (exists data page s st',
        http_get W url = Ok data /\ cheerio_load W data = Ok page
        /\ summarizeContent W (extractContent page) title st = (Returned s, st')
        /\ scrapeAndSummarize W url title st
           = (Returned (mkScrapedContent url title
                          (take 1000 (extractContent page)) s
                          (firstn 10 (extractHeaders page))
                          (List.length (split " " (extractContent page)))
                          None), st')).
Proof.
  unfold scrapeAndSummarize, try_catch, scrapePage, bind, await, scrapeFails.
  destruct (http_get W url) as [data|e] eqn:Hget.
  - destruct (cheerio_load W data) as [page|e] eqn:Hload.
    + right.
      destruct (summarizeContent_resolves W (extractContent page) title st)
        as (s & st' & Hs).
      exists data, page, s, st'. rewrite Hs. unfold ret. auto.
    + left. exists e. split; [right; eauto | reflexivity].
  - left. exists e. split; [now left | reflexivity].
Qed.

(** C2 (as the code has it).  [scrapeAndSummarize] resolves for every URL
    and title.  When the request or the parse of the page fails, the record
    has an empty content, the message of the failure as its error, and the
    placeholder summary, a fixed text around the title.  A page that is
    fetched and parsed is no failure, whatever it holds: no error is set.
    Without text the content is empty and the summary is another
    placeholder; and when the call of the model for the summary fails, the
    content is kept and the summary is a third placeholder. *)
Theorem scrapeAndSummarize_never_rejects :
  forall (W : World) (url title : string) (st : State),
  exists r st',
    scrapeAndSummarize W url title st = (Returned r, st')
    /\ sc_url r = url
    /\ sc_title r = title
    /\ (forall e, scrapeFails W url e ->
          content r = ""
          /\ error r = Some e
          /\ summary r = "Unable to scrape content from " ++ title
                           ++ ". This resource may require manual review."
          /\ contains (summary r) title)
    /\ (forall data page,
          http_get W url = Ok data -> cheerio_load W data = Ok page ->
          error r = None
          /\ content r = take 1000 (extractContent page)
          /\ (extractContent page = "" ->
              content r = ""
              /\ summary r = title ++ ": Content not available for summary.")
          /\ (forall e,
                50 <= String.length (extractContent page) ->
                llm W (calls st) (summaryPrompt title (extractContent page)) = Failed e ->
                summary r = title ++ ": Summary generation failed.")).
Proof.
  intros W url title st.
  destruct (scrapeAndSummarize_cases W url title st)
    as [(e & Hfail & Hrun) | (data & page & s & st' & Hget & Hload & Hsum & Hrun)].
  - exists (scrapeFailure url title e), st. split; [exact Hrun|].
    split; [reflexivity|]. split; [reflexivity|]. split.
    + intros e' Hfail'.
      assert (e' = e) as ->.
      { destruct Hfail as [H1 | (d & H1 & H2)], Hfail' as [H1' | (d' & H1' & H2')];
          congruence. }
      simpl. repeat split.
      exists "Unable to scrape content from ", ". This resource may require manual review.".
      reflexivity.
    + intros data page Hget Hload.
      destruct Hfail as [H1 | (d & H1 & H2)]; congruence.
  - exists (mkScrapedContent url title (take 1000 (extractContent page)) s
              (firstn 10 (extractHeaders page))
              (List.length (split " " (extractContent page))) None), st'.
    split; [exact Hrun|]. split; [reflexivity|]. split; [reflexivity|]. split.
    + intros e [H1 | (d & H1 & H2)]; congruence.
    + intros data' page' Hget' Hload'.
      assert (data' = data) as -> by congruence.
      assert (page' = page) as -> by congruence.
      cbn [error content summary]. split; [reflexivity|]. split; [reflexivity|].
      split.
      * intros Hempty. rewrite Hempty in Hsum |- *. cbn in Hsum.
        injection Hsum as <- _. split; reflexivity.
      * intros e Hlong Hllm. revert Hsum.
        unfold summarizeContent, try_catch.
        destruct (String.eqb (extractContent page) "") eqn:Hnil.
        { apply String.eqb_eq in Hnil. rewrite Hnil in Hlong. cbn in Hlong. lia. }
        destruct (String.length (extractContent page) <? 50) eqn:Hshort.
        { apply Nat.ltb_lt in Hshort. lia. }
        cbn [orb]. unfold bind, chat.
        fold (summaryPrompt title (extractContent page)). rewrite Hllm.
        unfold ret. now intros [= <- _].
Qed.

(** C2, the claim as stated fails: a page without a body is among the
    inputs it lists, and for such a page the record has no error. *)
Lemma blank_page_no_error :
  exists r st',
    scrapeAndSummarize blankPageWorld "https://a.example/" "X" initialState
    = (Returned r, st')
    /\ content r = ""
    /\ summary r = "X: Content not available for summary."
    /\ error r = None.
Proof. eexists _, _. split; [vm_compute; reflexivity|]. repeat split. Qed.

Lemma scrapeAndSummarize_never_rejects_witness :
  exists r st',
    scrapeAndSummarize quietWorld "not a url" "X" initialState = (Returned r, st')
    /\ content r = ""
    /\ error r = Some "getaddrinfo ENOTFOUND"
    /\ summary r = "Unable to scrape content from X. This resource may require manual review."
    /\ contains (summary r) "X".
Proof.
  destruct (scrapeAndSummarize_never_rejects quietWorld "not a url" "X" initialState)
    as (r & st' & Hrun & _ & _ & Hfail & _).
  exists r, st'. split; [exact Hrun|].
  apply Hfail. now left.
Defined.

Lemma length_extractContent (page : Page) : String.length (extractContent page) <= 3000.
Proof. unfold extractContent. apply length_take. Qed.

(** C8 (as the code has it).  After a successful scrape the content field
    is the first 1000 characters of the extracted text, itself cut to 3000
    characters; the summary and the word count are taken on the 3000, and
    no error is set. *)
Theorem scrapeAndSummarize_content :
  forall (W : World) (url title data : string) (page : Page) (st : State),
    http_get W url = Ok data ->
    cheerio_load W data = Ok page ->
    exists r st',
      scrapeAndSummarize W url title st = (Returned r, st')
      /\ error r = None
      /\ content r = take 1000 (extractContent page)
      /\ String.length (content r) <= 1000
      /\ String.length (extractContent page) <= 3000
      /\ (String.length (extractContent page) <= 1000 -> content r = extractContent page)
      /\ summarizeContent W (extractContent page) title st = (Returned (summary r), st')
      /\ wordCount r = List.length (split " " (extractContent page)).
Proof.
  intros W url title data page st Hget Hload.
  destruct (scrapeAndSummarize_cases W url title st)
    as [(e & [H1 | (d & H1 & H2)] & _)
       | (data' & page' & s & st' & Hget' & Hload' & Hsum & Hrun)];
    try congruence.
  assert (data' = data) as -> by congruence.
  assert (page' = page) as -> by congruence.
  eexists _, st'. split; [exact Hrun|]. simpl.
  repeat split.
  - apply length_take.
  - apply length_extractContent.
  - apply take_all.
  - exact Hsum.
Qed.

(** C8, the claim as stated fails: of an extracted body of 1500
    characters the content field keeps 1000. *)
Lemma content_cut_at_1000 :
  String.length (extractContent longPage) = 1500
  /\ scrapeAndSummarize longPageWorld "https://example.org/a" "A" initialState
     = (Returned (mkScrapedContent "https://example.org/a" "A" (repeat_str "a" 1000)
                    "A page about the letter a." [] 1 None),
        mkState 1 []).
Proof. split; vm_compute; reflexivity. Qed.

Lemma scrapeAndSummarize_content_witness :
  exists r st',
    scrapeAndSummarize longPageWorld "https://example.org/a" "A" initialState
    = (Returned r, st')
    /\ error r = None
    /\ content r = take 1000 (extractContent longPage)
    /\ String.length (content r) <= 1000
    /\ String.length (extractContent longPage) <= 3000
    /\ (String.length (extractContent longPage) <= 1000
        -> content r = extractContent longPage)
    /\ summarizeContent longPageWorld (extractContent longPage) "A" initialState
       = (Returned (summary r), st')
    /\ wordCount r = List.length (split " " (extractContent longPage)).
Proof.
  apply (scrapeAndSummarize_content longPageWorld "https://example.org/a" "A"
           "<html><main>...</main></html>" longPage initialState);
    reflexivity.
Defined.

(* ===================================================================== *)
(** * The compare-resources handler (C9) *)
(* ===================================================================== *)

Lemma scrapeAndSummarize_record (W : World) (url title : string) (st : State) :
  exists r st',
    scrapeAndSummarize W url title st = (Returned r, st') /\ recordOf W url r.
Proof.
  destruct (scrapeAndSummarize_cases W url title st)
    as [(e & Hfail & H) | (data & page & s & st' & Hget & Hload & _ & H)].
  - eexists _, _. split; [exact H|]. split; [reflexivity|]. right. eauto.
  - eexists _, _. split; [exact H|]. split; [reflexivity|]. left.
    split; [exists data, page; auto | reflexivity].
Qed.

Lemma allSettled_records {A : Type} (W : World) (url title : A -> string)
    (l : list A) (st : State) :
  exists rs st',
    allSettled (map (fun x => scrapeAndSummarize W (url x) (title x)) l) st
    = (Returned rs, st')
    /\ Forall2 (fun x r => exists sc, r = Fulfilled sc /\ recordOf W (url x) sc) l rs.
Proof.
  revert st. induction l as [|x l IH]; intros st; simpl.
  - exists [], st. split; [reflexivity | constructor].
  - destruct (scrapeAndSummarize_record W (url x) (title x) st) as (r & st1 & Hr & Hrec).
    rewrite Hr. unfold bind.
    destruct (IH st1) as (rs & st2 & Hrs & Hall).
    rewrite Hrs. exists (Fulfilled r :: rs), st2. unfold ret.
    split; [reflexivity|]. constructor; eauto.
Qed.

Lemma resources_of_settled (W : World) (urls : list string)
    (rs : list (Settled ScrapedContent)) (i : nat) :
  Forall2 (fun (x : nat * string) r => exists sc, r = Fulfilled sc /\ recordOf W (snd x) sc)
    (numbered i urls) rs ->
  Forall2 (fun url r => exists sc, r = Scraped sc /\ recordOf W url sc) urls
    (map (fun entry : nat * (string * Settled ScrapedContent) =>
            match snd (snd entry) with
            | Fulfilled v => Scraped v
            | RejectedWith reason =>
                Unscraped (fst (snd entry))
                  ("Resource " ++ nat_to_string (fst entry + 1))
                  (str_or reason "Scraping failed")
            end)
       (numbered i (combine urls rs))).
Proof.
  revert rs i. induction urls as [|url urls IH]; intros rs i H.
  - constructor.
  - inversion H as [|? r ? rs' (sc & -> & Hrec) Hrest]; subst.
    cbn [combine numbered map snd fst]. constructor; [eauto|].
    now apply IH.
Qed.

Lemma scrapeResources_records (W : World) (urls : list string) (st : State) :
  exists resources st',
    scrapeResources W urls st = (Returned resources, st')
    /\ Forall2 (fun url r => exists sc, r = Scraped sc /\ recordOf W url sc) urls resources.
Proof.
  unfold scrapeResources, bind.
  destruct (allSettled_records W (fun e : nat * string => snd e)
              (fun e => "Resource " ++ nat_to_string (fst e + 1))
              (numbered 0 urls) st) as (rs & st' & Hrs & Hall).
  rewrite Hrs. unfold ret. eexists _, st'. split; [reflexivity|].
  now apply resources_of_settled.
Qed.

(** A resource passes the test of the handler exactly when its scrape
    succeeded, or failed with an empty message. *)
Lemma noError_iff_scraped (W : World) (url : string) (sc : ScrapedContent) :
  recordOf W url sc ->
  noError (Scraped sc) = true <-> scrapeSucceeds W url \/ scrapeFails W url "".
Proof.
  intros (_ & [(Hok & Herr) | (e & Hfail & Herr)]); simpl; rewrite Herr.
  - tauto.
  - rewrite String.eqb_eq. split.
    + intros ->. now right.
    + intros [(data & page & Hget & Hload) | Hempty].
      * destruct Hfail as [H1 | (d & H1 & H2)]; congruence.
      * destruct Hfail as [H1 | (d & H1 & H2)], Hempty as [H1' | (d' & H1' & H2')];
          congruence.
Qed.

(** C9, a defect of the handler.  The handler takes a resource for valid
    when its error is falsy ([!r.error]), and the record of a failed scrape
    carries the message of the failure as its error
    ([error: error.message]): a scrape that fails with an empty message
    passes for valid.  Here both requests are refused with an empty
    message: nothing was scraped, both records have empty content and the
    placeholder summary, and the handler still asks the model for the
    comparison and answers with success, the comparison and a count of two
    valid resources. *)
Theorem compareResources_counts_failed_scrapes :
  scrapeFails refusingWorld "https://a.example/" ""
  /\ scrapeFails refusingWorld "https://b.example/" ""
  /\ compareResources refusingWorld 10 twoUrls None initialState
     = (Returned
          (Json (mkResponse true (Some "Learning Resources")
                   [ Scraped (scrapeFailure "https://a.example/" "Resource 1" "");
                     Scraped (scrapeFailure "https://b.example/" "Resource 2" "") ]
                   (Some (JObj [("summary", JStr "Both are fine")]))
                   (Some 2)
                   "Resource comparison completed successfully")),
        mkState 1 []).
Proof.
  split; [left; reflexivity|]. split; [left; reflexivity|].
  vm_compute. reflexivity.
Qed.


(* ===================================================================== *)
(** * extractJSON on well-formed JSON (C3) *)
(* ===================================================================== *)

Lemma lower_char_backtick (d : ascii) :
  Ascii.eqb "`" d = false -> Ascii.eqb (lower_char "`") (lower_char d) = false.
Proof.
  destruct d as [[] [] [] [] [] [] [] []]; vm_compute; intros; congruence.
Qed.

Lemma count_char_cons (c d : ascii) (s : string) :
  count_char c (String d s) = 0 -> Ascii.eqb c d = false /\ count_char c s = 0.
Proof.
  simpl. destruct (Ascii.eqb c d); [discriminate | auto].
Qed.

Lemma search_singleFence_plain (s : string) (i : nat) (pv : option ascii) :
  count_char "`" s = 0 -> search singleFence s i pv = None.
Proof.
  revert i pv. induction s as [|d s IH]; intros i pv H.
  - reflexivity.
  - apply count_char_cons in H as [Hd Hs].
    cbn [search]. unfold match_here, singleFence. cbn [mtch rest].
    rewrite Hd. now apply IH.
Qed.

Lemma search_tripleFence_plain (s : string) (i : nat) (pv : option ascii) :
  count_char "`" s = 0 -> search tripleFence s i pv = None.
Proof.
  revert i pv. induction s as [|d s IH]; intros i pv H.
  - reflexivity.
  - apply count_char_cons in H as [Hd Hs].
    cbn [search]. unfold match_here, tripleFence. cbn [mtch rest lit_i].
    rewrite (lower_char_backtick d Hd). now apply IH.
Qed.

Lemma fencedContent_plain (text : string) :
  count_char "`" text = 0 -> fencedContent text = text.
Proof.
  intros H. unfold fencedContent, match_, exec. cbn [exec_from].
  now rewrite search_tripleFence_plain, search_singleFence_plain.
Qed.

(** C3 (as the code has it).  For a well-formed JSON text without a
    backtick, [extractJSON] returns the value of [JSON.parse] on the text,
    by the direct parse: the result does not depend on the fuel, so no
    repair tier is run. *)
Theorem extractJSON_direct_parse :
  forall (fuel : nat) (text : string) (v : JSValue),
    JSON_parse text = Some v ->
    count_char "`" text = 0 ->
    extractJSON fuel (Some text) = Returned v.
Proof.
  intros fuel text v Hparse Hplain.
  unfold extractJSON.
  destruct text as [|c text]; [discriminate Hparse|].
  cbn [String.eqb].
  rewrite (fencedContent_plain _ Hplain).
  unfold JSON_parse_call. rewrite Hparse. reflexivity.
Qed.

(** C3, the claim as stated fails on well-formed JSON with backticks in a
    string: the text between the backticks is taken for the JSON.  One text
    gives null, another a value that [JSON.parse] does not give. *)
Lemma extractJSON_backticks :
  JSON_parse quotedBackticks = Some (JStr "a`b`c")
  /\ extractJSON 10 (Some quotedBackticks) = Returned JNull
  /\ JSON_parse inlineCode = Some (JObj [("code", JStr "use `npm` here")])
  /\ extractJSON 10 (Some inlineCode)
     = Returned (JObj [("code", JArr [JStr "use"; JStr "`npm`"; JStr "here"])]).
Proof. repeat split; vm_compute; reflexivity. Qed.

Lemma extractJSON_direct_parse_witness :
  extractJSON 0 (Some "[1, 2, 3]") = Returned (JArr [JNum 1; JNum 2; JNum 3]).
Proof.
  apply (extractJSON_direct_parse 0 "[1, 2, 3]" (JArr [JNum 1; JNum 2; JNum 3]));
    reflexivity.
Defined.

(* ===================================================================== *)
(** * Termination of extractJSON (C10) *)
(* ===================================================================== *)

Lemma length_repeat_str (s : string) (n : nat) :
  String.length (repeat_str s n) = n * String.length s.
Proof. induction n as [|n IH]; simpl; [reflexivity|]. rewrite length_append, IH. lia. Qed.

Lemma repeat_str_snoc (s : string) (n : nat) :
  repeat_str s (S n) = repeat_str s n ++ s.
Proof.
  induction n as [|n IH].
  - simpl. now rewrite append_nil_r.
  - change (repeat_str s (S (S n))) with (s ++ repeat_str s (S n)).
    rewrite IH at 1. simpl. now rewrite append_assoc.
Qed.

Lemma take_append (p x : string) : take (String.length p) (p ++ x) = p.
Proof. unfold take. induction p as [|c p IH]; simpl; [now destruct x | now rewrite IH]. Qed.

Lemma drop_append (p x : string) (n : nat) :
  drop (String.length p + n) (p ++ x) = drop n x.
Proof. induction p as [|c p IH]; simpl; [reflexivity | exact IH]. Qed.

(** [exec] from the end of a prefix searches the rest. *)
Lemma exec_from_append (r : regex) (p x : string) (i : nat) (pv : option ascii) :
  exists pv',
    exec_from r (p ++ x) (String.length p) i pv = search r x (i + String.length p) pv'.
Proof.
  revert i pv. induction p as [|c p IH]; intros i pv; simpl.
  - exists pv. now rewrite Nat.add_0_r.
  - destruct (IH (S i) (Some c)) as (pv' & H). exists pv'. rewrite H. f_equal. lia.
Qed.

Lemma grown_split (k : nat) : grown (k + 2) = scanned k ++ pending.
Proof.
  unfold grown, scanned.
  rewrite !append_assoc. do 2 f_equal.
  replace (k + 2) with (S (S k)) by lia.
  rewrite !repeat_str_snoc, !append_assoc. reflexivity.
Qed.

Lemma length_scanned (k : nat) : String.length (scanned k) = 15 * k + 23.
Proof.
  unfold scanned. rewrite !length_append, !length_repeat_str. simpl. lia.
Qed.

Lemma search_pending (i : nat) (pv : option ascii) :
  search arrayRegex pending i pv
  = Some (MatchResult (6 + i) (15 + i) arrayText [(1, "1 2$&$&")] "]").
Proof. reflexivity. Qed.

Lemma indexOf_grown (k : nat) (x : string) :
  indexOf arrayText (repeat_str grownHead k ++ arrayText ++ x) = Some (5 * k).
Proof.
  induction k as [|k IH].
  - change (indexOf arrayText (arrayText ++ x) = Some 0).
    apply indexOf_startsWith, startsWith_append.
  - change (repeat_str grownHead (S k)) with (grownHead ++ repeat_str grownHead k).
    rewrite append_assoc.
    change (indexOf arrayText (grownHead ++ repeat_str grownHead k ++ arrayText ++ x))
      with (option_map S (option_map S (option_map S (option_map S (option_map S
             (indexOf arrayText (repeat_str grownHead k ++ arrayText ++ x))))))).
    rewrite IH. simpl. f_equal. lia.
Qed.

Lemma replace_first_grown (k : nat) :
  replace_first arrayText "[1, 2$&$&]" (grown k) = grown (S k).
Proof.
  unfold replace_first, grown. rewrite indexOf_grown.
  replace (5 * k) with (String.length (repeat_str grownHead k))
    by (rewrite length_repeat_str; simpl; lia).
  rewrite take_append, drop_append.
  change (drop (String.length arrayText) (arrayText ++ repeat_str block k))
    with (repeat_str block k).
  change (getSubstitution 0 [] arrayText (repeat_str grownHead k) (repeat_str block k)
            "[1, 2$&$&]")
    with (grownHead ++ arrayText ++ block).
  rewrite repeat_str_snoc, !append_assoc. reflexivity.
Qed.

Lemma arrayStep_grown (k : nat) :
  arrayStep (grown (k + 2)) (String.length (scanned k))
  = Some (grown (k + 3), String.length (scanned (k + 1))).
Proof.
  unfold arrayStep, exec.
  rewrite grown_split.
  destruct (exec_from_append arrayRegex (scanned k) pending 0 None) as (pv & ->).
  rewrite search_pending. cbn [m_caps m_end capture_text capture Nat.eqb String.eqb Ascii.eqb Bool.eqb].
  rewrite <- grown_split.
  change ("[" ++ "1 2$&$&" ++ "]") with arrayText.
  change ("[" ++ fixArrayContent "1 2$&$&" ++ "]") with "[1, 2$&$&]".
  rewrite replace_first_grown.
  rewrite !length_scanned. f_equal. f_equal; [f_equal; lia | lia].
Qed.

Lemma arrayLoop_grown (fuel k : nat) :
  arrayLoop fuel (grown (k + 2)) (String.length (scanned k)) = OutOfFuel.
Proof.
  revert k. induction fuel as [|fuel IH]; intros k; [reflexivity|].
  cbn [arrayLoop]. rewrite arrayStep_grown.
  replace (k + 3) with ((k + 1) + 2) by lia. apply IH.
Qed.

Lemma arrayLoop_diverges (fuel : nat) : arrayLoop fuel arrayText 0 = OutOfFuel.
Proof.
  destruct fuel as [|[|fuel]]; try reflexivity.
  change (arrayLoop (S (S fuel)) arrayText 0)
    with (arrayLoop fuel (grown (0 + 2)) (String.length (scanned 0))).
  apply arrayLoop_grown.
Qed.

(** C10, the failing input.  On the text [1 2$&$&] the array-repair loop
    of [cleanupJSON] never ends: whatever the fuel, [extractJSON] is still
    in that loop when it is spent. *)
Theorem extractJSON_array_loop_diverges :
  forall fuel : nat, extractJSON fuel (Some "[1 2$&$&]") = OutOfFuel.
Proof.
  intros fuel. unfold extractJSON. cbn [String.eqb Ascii.eqb Bool.eqb].
  change (fencedContent "[1 2$&$&]") with arrayText.
  change (JSON_parse_call arrayText) with (@Thrown JSValue "SyntaxError: Unexpected token in JSON").
  unfold cleanupJSON at 1. cbn [String.eqb Ascii.eqb Bool.eqb arrayText].
  change (cleanupReplacements "[1 2$&$&]") with arrayText.
  rewrite arrayLoop_diverges. reflexivity.
Qed.

(** X1.  Whatever the text and the fuel, [extractJSON] returns a value
    (null for null and for the empty text) or is still in the array loop:
    no exception leaves it. *)
Theorem extractJSON_never_throws :
  forall (fuel : nat) (text : option string),
    (extractJSON fuel text = OutOfFuel \/ exists v, extractJSON fuel text = Returned v)
    /\ extractJSON fuel None = Returned JNull
    /\ extractJSON fuel (Some "") = Returned JNull.
Proof.
  intros fuel text. split; [|split; reflexivity].
  unfold extractJSON. destruct text as [text|]; [|eauto].
  destruct (String.eqb text ""); [eauto|].
  match goal with |- context [otry ?b _] => destruct b end; simpl; eauto.
Qed.

(** More fuel does not change a result. *)
Lemma arrayLoop_more_fuel (fuel extra : nat) (cleaned : string) (lastIndex : nat)
    (r : string) :
  arrayLoop fuel cleaned lastIndex = Returned r ->
  arrayLoop (fuel + extra) cleaned lastIndex = Returned r.
Proof.
  revert cleaned lastIndex. induction fuel as [|fuel IH]; intros cleaned lastIndex.
  - discriminate.
  - cbn [arrayLoop Nat.add].
    destruct (arrayStep cleaned lastIndex) as [[cleaned' lastIndex']|]; auto.
Qed.

Lemma arrayLoop_not_thrown (fuel : nat) (cleaned : string) (lastIndex : nat) (e : string) :
  arrayLoop fuel cleaned lastIndex <> Thrown e.
Proof.
  revert cleaned lastIndex. induction fuel as [|fuel IH]; intros cleaned lastIndex.
  - discriminate.
  - cbn [arrayLoop].
    destruct (arrayStep cleaned lastIndex) as [[cleaned' lastIndex']|];
      [apply IH | discriminate].
Qed.

Lemma cleanupJSON_more_fuel (fuel extra : nat) (text r : string) :
  cleanupJSON fuel text = Returned r -> cleanupJSON (fuel + extra) text = Returned r.
Proof.
  unfold cleanupJSON. destruct (String.eqb text ""); [auto|].
  apply arrayLoop_more_fuel.
Qed.

Lemma cleanupJSON_not_thrown (fuel : nat) (text e : string) :
  cleanupJSON fuel text <> Thrown e.
Proof.
  unfold cleanupJSON. destruct (String.eqb text ""); [discriminate|].
  apply arrayLoop_not_thrown.
Qed.

Lemma deepCleanJSON_more_fuel (fuel extra : nat) (text r : string) :
  deepCleanJSON fuel text = Returned r -> deepCleanJSON (fuel + extra) text = Returned r.
Proof.
  unfold deepCleanJSON. destruct (String.eqb text ""); [auto|].
  destruct (cleanupJSON fuel text) as [c|e|] eqn:Hc; try discriminate.
  now rewrite (cleanupJSON_more_fuel _ extra _ _ Hc).
Qed.

Lemma deepCleanJSON_not_thrown (fuel : nat) (text e : string) :
  deepCleanJSON fuel text <> Thrown e.
Proof.
  unfold deepCleanJSON. destruct (String.eqb text ""); [discriminate|].
  destruct (cleanupJSON fuel text) as [c|e'|] eqn:Hc; try discriminate.
  now apply cleanupJSON_not_thrown in Hc.
Qed.

(** A parse after a cleanup, with more fuel. *)
Lemma parse_after_more_fuel (clean : nat -> Outcome string) (fuel extra : nat) :
  (forall r, clean fuel = Returned r -> clean (fuel + extra) = Returned r) ->
  (forall e, clean fuel <> Thrown e) ->
  forall next next' v,
    (next = Returned v -> next' = Returned v) ->
    attempt (returning (obind (clean fuel) JSON_parse_call)) next = Returned v ->
    attempt (returning (obind (clean (fuel + extra)) JSON_parse_call)) next' = Returned v.
Proof.
  intros Hmore Hthrown next next' v Hnext.
  destruct (clean fuel) as [c|e|] eqn:Hc.
  - rewrite (Hmore c eq_refl). cbn [obind].
    destruct (JSON_parse_call c); cbn; auto.
  - now destruct (Hthrown e).
  - discriminate.
Qed.

(** A result of [extractJSON] does not depend on the fuel left over. *)
Lemma extractJSON_more_fuel :
  forall (fuel extra : nat) (text : option string) (v : JSValue),
    extractJSON fuel text = Returned v ->
    extractJSON (fuel + extra) text = Returned v.
Proof.
  intros fuel extra [text|] v; [|auto].
  unfold extractJSON. destruct (String.eqb text ""); [auto|].
  set (handler := fun _ : string => Returned JNull).
  assert (Hotry : forall a b : Outcome JSValue,
             (forall w, a = Returned w -> b = Returned w) ->
             (forall e, a = Thrown e -> exists e', b = Thrown e') ->
             otry a handler = Returned v -> otry b handler = Returned v).
  { intros a b Hr Ht. destruct a as [w|e|]; cbn.
    - intros H. now rewrite (Hr w eq_refl).
    - intros H. destruct (Ht e eq_refl) as (e' & ->). exact H.
    - discriminate. }
  apply Hotry.
  - intros w.
    destruct (JSON_parse_call (fencedContent text)) as [p|e|]; cbn [returning obind attempt];
      [auto | | discriminate].
    apply (parse_after_more_fuel (fun f => cleanupJSON f (fencedContent text)));
      [intros r; apply cleanupJSON_more_fuel | intros e'; apply cleanupJSON_not_thrown |].
    apply (parse_after_more_fuel (fun f => deepCleanJSON f (fencedContent text)));
      [intros r; apply deepCleanJSON_more_fuel | intros e'; apply deepCleanJSON_not_thrown |].
    destruct (match_ jsonPattern text) as [m|].
    + apply (parse_after_more_fuel (fun f => deepCleanJSON f (m_text m)));
        [intros r; apply deepCleanJSON_more_fuel | intros e'; apply deepCleanJSON_not_thrown |].
      auto.
    + cbn [attempt]. auto.
  - intros e He. exfalso.
    revert He. generalize (fencedContent text). intros content.
    unfold attempt.
    repeat match goal with
           | |- context [match ?x with _ => _ end] => destruct x; try discriminate
           end.
Qed.

(* ===================================================================== *)
(** * The web-enhanced path of generateComprehensiveRoadmap *)
(* ===================================================================== *)

Lemma basicStructure_steps (topic : string) (options : Options) :
  get_prop (basicStructure topic options) "steps"
  = inl (JArr [introductionStep topic options]).
Proof. reflexivity. Qed.

Lemma countSteps_truthy (v : JSValue) (st : State) :
  truthy v = true -> exists n, countSteps v st = (Returned n, st).
Proof.
  unfold countSteps. destruct v; simpl; try discriminate; intros _; unfold ret; eauto.
Qed.

(** The scrapes of the top results, whatever their outcome, settle. *)
Lemma performWebSearch_resolves (W : World) (query : string) (n : Z) (st : State) :
  exists results, performWebSearch W query n st = (Returned results, st).
Proof.
  unfold performWebSearch, try_catch, bind, await, ret.
  destruct (search_api W _); eauto.
Qed.

Lemma countSteps_readable (v : JSValue) (st : State) :
  readable v -> exists n, countSteps v st = (Returned n, st).
Proof.
  intros [H1 H2]. unfold countSteps, ret.
  destruct v; try congruence; simpl; eauto.
Qed.

(** X2.  Search and scrape failures are absorbed: the web-enhanced path
    always reaches its synthesis call, and when that call answers with a
    readable value the result is tagged web-enhanced-llm. *)
Theorem generateComprehensiveRoadmap_web_enhanced :
  forall (W : World) (fuel : nat) (topic : string) (options : Options) (st : State),
  exists ranked st1,
    forall reply parsed,
      llm W (calls st1) (sourcesPrompt topic ranked options) = Ok reply ->
      extractJSON fuel (Some reply) = Returned parsed ->
      readable parsed ->
      exists r,
        generateComprehensiveRoadmap W fuel topic options st
        = (Returned r, mkState (S (calls st1)) (roadmaps st1))
        /\ methodology r = "web-enhanced-llm"
        /\ roadmap r = parsed
        /\ sources r = firstn 10 ranked
        /\ warning r = None.
Proof.
  intros W fuel topic options st.
  destruct (performWebSearch_resolves W topic 8 st) as (results & Hsearch).
  destruct (allSettled_records W sr_url sr_title (firstn 5 results) st)
    as (scraped & st1 & Hscraped & _).
  exists (rankResources results (validContent scraped)), st1.
  intros reply parsed Hreply Hparsed Hread.
  destruct (countSteps_readable parsed (mkState (S (calls st1)) (roadmaps st1)) Hread)
    as (n & Hn).
  eexists. split.
  - unfold generateComprehensiveRoadmap. apply try_catch_returned.
    unfold webEnhancedRoadmap, bind at 1. rewrite Hsearch.
    unfold bind at 1. rewrite Hscraped.
    unfold bind at 1. unfold generateRoadmapWithSources, bind at 1, chat.
    fold (sourcesPrompt topic (rankResources results (validContent scraped)) options).
    rewrite Hreply. unfold lift. rewrite Hparsed.
    unfold bind. rewrite Hn. reflexivity.
  - repeat split.
Qed.

Lemma generateComprehensiveRoadmap_web_enhanced_witness :
  exists r st',
    generateComprehensiveRoadmap plannerWorld 10 "React" beginnerOptions initialState
    = (Returned r, st')
    /\ methodology r = "web-enhanced-llm"
    /\ warning r = None.
Proof.
  destruct (generateComprehensiveRoadmap_web_enhanced plannerWorld 10 "React"
              beginnerOptions initialState) as (ranked & st1 & H).
  destruct (extractJSON 10 (Some twoWeekPlan)) as [parsed| |] eqn:Hparsed;
    try (vm_compute in Hparsed; discriminate).
  destruct (H twoWeekPlan parsed eq_refl Hparsed) as (r & Hrun & Hm & _ & _ & Hw).
  - vm_compute in Hparsed. injection Hparsed as <-. split; discriminate.
  - exists r. eexists. split; [exact Hrun|]. auto.
Defined.

(* ===================================================================== *)
(** * The steps generateRoadmapWithLLM writes (C4) *)
(* ===================================================================== *)
















(* ===================================================================== *)
(** * The skill memory: updateMemoryFromScore and getRecommendations *)
(* ===================================================================== *)

Lemma calculateDeltaFromScore_number (q : Q) :
  In (calculateDeltaFromScore (JNum q)) [-10; 4; 8; 12]%Z.
Proof.
  unfold calculateDeltaFromScore.
  destruct (Qle_bool 90 q); [simpl; tauto|].
  destruct (Qle_bool 80 q); [simpl; tauto|].
  destruct (Qle_bool 60 q); simpl; tauto.
Qed.

Lemma calculateDeltaFromScore_zero (score : JSValue) :
  calculateDeltaFromScore score = 0%Z <-> forall q, score <> JNum q.
Proof.
  split.
  - intros H q ->. pose proof (calculateDeltaFromScore_number q) as Hin.
    rewrite H in Hin. simpl in Hin. intuition discriminate.
  - intros H. destruct score; try reflexivity. now destruct (H q).
Qed.

Lemma calculateDeltaFromScore_monotone (a b : Q) :
  (a <= b)%Q ->
  (calculateDeltaFromScore (JNum a) <= calculateDeltaFromScore (JNum b))%Z.
Proof.
  intros Hab. unfold calculateDeltaFromScore.
  destruct (Qle_bool 90 a) eqn:H90a.
  - apply Qle_bool_iff in H90a.
    assert (H : Qle_bool 90 b = true) by (apply Qle_bool_iff; eapply Qle_trans; eauto).
    rewrite H. lia.
  - destruct (Qle_bool 90 b); [destruct (Qle_bool 80 a), (Qle_bool 60 a); lia|].
    destruct (Qle_bool 80 a) eqn:H80a.
    + apply Qle_bool_iff in H80a.
      assert (H : Qle_bool 80 b = true) by (apply Qle_bool_iff; eapply Qle_trans; eauto).
      rewrite H. lia.
    + destruct (Qle_bool 80 b); [destruct (Qle_bool 60 a); lia|].
      destruct (Qle_bool 60 a) eqn:H60a.
      * apply Qle_bool_iff in H60a.
        assert (H : Qle_bool 60 b = true) by (apply Qle_bool_iff; eapply Qle_trans; eauto).
        rewrite H. lia.
      * destruct (Qle_bool 60 b); lia.
Qed.

Lemma clamp_bounds (x : Z) : (0 <= clamp x <= 100)%Z.
Proof. unfold clamp. lia. Qed.

Lemma clamp_monotone (x y : Z) : (x <= y)%Z -> (clamp x <= clamp y)%Z.
Proof. unfold clamp. lia. Qed.

Lemma levelOf_setStrength (topic : string) (level : Z) (concepts : list Concept) :
  levelOf topic concepts <> None ->
  levelOf topic (setStrength topic level concepts) = Some level.
Proof.
  unfold levelOf. induction concepts as [|c rest IH]; simpl; [congruence|].
  destruct (String.eqb (c_topic c) topic) eqn:E; simpl.
  - now rewrite E.
  - rewrite E. exact IH.
Qed.

Lemma otherTopics_setStrength (topic : string) (level : Z) (concepts : list Concept) :
  otherTopics topic (setStrength topic level concepts) = otherTopics topic concepts.
Proof.
  unfold otherTopics. induction concepts as [|c rest IH]; simpl; [reflexivity|].
  destruct (String.eqb (c_topic c) topic) eqn:E; simpl; rewrite E; simpl.
  - reflexivity.
  - now rewrite IH.
Qed.

Lemma length_setStrength (topic : string) (level : Z) (concepts : list Concept) :
  List.length (setStrength topic level concepts) = List.length concepts.
Proof.
  induction concepts as [|c rest IH]; simpl; [reflexivity|].
  destruct (String.eqb (c_topic c) topic); simpl; congruence.
Qed.

Lemma map_topic_setStrength (topic : string) (level : Z) (concepts : list Concept) :
  map c_topic (setStrength topic level concepts) = map c_topic concepts.
Proof.
  induction concepts as [|c rest IH]; simpl; [reflexivity|].
  destruct (String.eqb (c_topic c) topic); simpl; congruence.
Qed.

Lemma withinBounds_setStrength (topic : string) (level : Z) (concepts : list Concept) :
  (0 <= level <= 100)%Z ->
  Forall withinBounds concepts ->
  Forall withinBounds (setStrength topic level concepts).
Proof.
  intros Hl. induction 1 as [|c rest Hc Hrest IH]; simpl; [constructor|].
  destruct (String.eqb (c_topic c) topic); constructor; auto.
Qed.

Lemma levelOf_app_new (topic : string) (level : Z) (concepts : list Concept) :
  levelOf topic concepts = None ->
  levelOf topic (concepts ++ [mkConcept topic level]) = Some level.
Proof.
  unfold levelOf. induction concepts as [|c rest IH]; simpl.
  - now rewrite String.eqb_refl.
  - destruct (String.eqb (c_topic c) topic); simpl; [discriminate | exact IH].
Qed.

Lemma otherTopics_app_new (topic : string) (level : Z) (concepts : list Concept) :
  otherTopics topic (concepts ++ [mkConcept topic level]) = otherTopics topic concepts.
Proof.
  unfold otherTopics. rewrite filter_app. simpl. rewrite String.eqb_refl. simpl.
  apply app_nil_r.
Qed.

Lemma findBankOf_putBank (user : string) (concepts : list Concept) (a : State)
    (store : list (string * list Concept)) (l : list LessonDoc) (p : list ProgressDoc)
    (points : list (string * Z)) (b : list BadgeDoc) :
  findBankOf user (mkCollections a (putBank user concepts store) l p points b)
  = Some concepts.
Proof. unfold findBankOf, putBank. simpl. now rewrite String.eqb_refl. Qed.

Lemma otherUsers_putBank (user : string) (concepts : list Concept)
    (store : list (string * list Concept)) :
  otherUsers user (putBank user concepts store) = otherUsers user store.
Proof.
  unfold otherUsers, putBank. simpl. rewrite String.eqb_refl. simpl.
  induction store as [|e rest IH]; simpl; [reflexivity|].
  destruct (String.eqb (fst e) user) eqn:E; simpl; [exact IH|].
  rewrite E. simpl. now rewrite IH.
Qed.

Lemma otherUsers_cons_same {A : Type} (user : string) (x : A) (store : list (string * A)) :
  otherUsers user ((user, x) :: store) = otherUsers user store.
Proof. unfold otherUsers. simpl. now rewrite String.eqb_refl. Qed.

Lemma levelOf_moved (topic : string) (delta : Z) (bank : list Concept) :
  levelOf topic (moved topic delta bank)
  = Some (clamp (match levelOf topic bank with Some l => l | None => 50%Z end + delta)).
Proof.
  unfold moved, levelOf.
  destruct (find (fun c => String.eqb (c_topic c) topic) bank) as [concept|] eqn:Hfind.
  - apply levelOf_setStrength. unfold levelOf. rewrite Hfind. discriminate.
  - apply levelOf_app_new. unfold levelOf. now rewrite Hfind.
Qed.

Lemma otherTopics_moved (topic : string) (delta : Z) (bank : list Concept) :
  otherTopics topic (moved topic delta bank) = otherTopics topic bank.
Proof.
  unfold moved. destruct (find _ bank).
  - apply otherTopics_setStrength.
  - apply otherTopics_app_new.
Qed.

Lemma withinBounds_moved (topic : string) (delta : Z) (bank : list Concept) :
  Forall withinBounds bank -> Forall withinBounds (moved topic delta bank).
Proof.
  intros H. unfold moved. destruct (find _ bank).
  - apply withinBounds_setStrength; [apply clamp_bounds | exact H].
  - apply Forall_app. split; [exact H|].
    constructor; [|constructor]. unfold withinBounds. cbn. apply clamp_bounds.
Qed.

(** What [updateMemoryFromScore] does with a number. *)
Lemma updateMemoryFromScore_number (user topic : string) (q : Q) (c : Collections) :
  topic <> "" ->
  exists c',
    updateMemoryFromScore user topic (JNum q) c
    = (Returned (Some (moved topic (calculateDeltaFromScore (JNum q))
                         (conceptsBefore user c))), c')
    /\ findBankOf user c'
       = Some (moved topic (calculateDeltaFromScore (JNum q)) (conceptsBefore user c))
    /\ otherUsers user (banks c') = otherUsers user (banks c)
    /\ agent c' = agent c /\ lessons c' = lessons c.
Proof.
  intros Htopic. unfold updateMemoryFromScore.
  pose proof (calculateDeltaFromScore_number q) as Hdelta.
  set (delta := calculateDeltaFromScore (JNum q)) in *.
  assert (Hnz : (delta =? 0)%Z = false).
  { apply Z.eqb_neq. simpl in Hdelta. lia. }
  rewrite Hnz.
  unfold andThen, findOrCreateBank, conceptsBefore, moved.
  apply String.eqb_neq in Htopic.
  destruct (findBankOf user c) as [bank|] eqn:Hbank.
  - destruct (find (fun c0 => String.eqb (c_topic c0) topic) bank) as [concept|] eqn:Hfind.
    + eexists. split; [reflexivity|]. simpl.
      split; [apply findBankOf_putBank|].
      split; [apply otherUsers_putBank|]. split; reflexivity.
    + unfold validatePushed. cbn [c_topic]. rewrite Htopic.
      eexists. split; [reflexivity|]. simpl.
      split; [apply findBankOf_putBank|].
      split; [apply otherUsers_putBank|]. split; reflexivity.
  - cbn [find]. unfold validatePushed. cbn [c_topic]. rewrite Htopic.
    eexists. split; [reflexivity|]. cbn [banks agent lessons].
    split; [apply findBankOf_putBank|].
    split; [|split; reflexivity].
    rewrite otherUsers_putBank. apply otherUsers_cons_same.
Qed.

(** X5.  With a score that is not a number [updateMemoryFromScore] resolves
    with null and writes nothing.  With a number, and a topic that is not
    empty, it resolves with the bank of the user, saved: the level of the
    topic has moved by the delta of the score from its previous value (from
    50 for a topic that is new), cut to the range 0 to 100; the concepts
    of the other topics, the banks of the other users, the lessons and the
    roadmaps are as before. *)
Theorem updateMemoryFromScore_level :
  forall (user topic : string) (score : JSValue) (c : Collections),
    topic <> "" ->
    match score with
    | JNum q =>
        exists concepts c',
          updateMemoryFromScore user topic score c = (Returned (Some concepts), c')
          /\ findBankOf user c' = Some concepts
          /\ levelOf topic concepts
             = Some (clamp (levelBefore user topic c + calculateDeltaFromScore score))
          /\ otherTopics topic concepts = otherTopics topic (conceptsBefore user c)
          /\ otherUsers user (banks c') = otherUsers user (banks c)
          /\ agent c' = agent c /\ lessons c' = lessons c
    | _ => updateMemoryFromScore user topic score c = (Returned None, c)
    end.
Proof.
  intros user topic score c Htopic.
  destruct score as [| |b|q|s|items|fields]; try reflexivity.
  destruct (updateMemoryFromScore_number user topic q c Htopic)
    as (c' & Hrun & Hfind & Hothers & Hagent & Hlessons).
  eexists _, c'. split; [exact Hrun|]. split; [exact Hfind|].
  split; [|split; [apply otherTopics_moved | auto]].
  rewrite levelOf_moved. unfold levelBefore, conceptsBefore.
  destruct (findBankOf user c); reflexivity.
Qed.

Lemma updateMemoryFromScore_level_witness :
  exists c',
    updateMemoryFromScore "u1" "promises" (JNum 92) sampleBanks
    = (Returned (Some [ mkConcept "closures" 45; mkConcept "promises" 100 ]), c')
    /\ findBankOf "u2" c' = Some [ mkConcept "closures" 70 ].
Proof.
  assert (Hne : "promises" <> "") by discriminate.
  destruct (updateMemoryFromScore_level "u1" "promises" (JNum 92) sampleBanks Hne)
    as (concepts & c' & Hrun & _).
  exists c'. vm_compute in Hrun. injection Hrun as <- <-.
  split; reflexivity.
Defined.

(** X6.  The levels stay within the bounds of the schema: when every
    level of the bank of the user is between 0 and 100, so is every level
    of the bank after an update.  And a better score never gives a lower
    level: for two scores a <= b, the level of the topic after the update
    with b is at least its level after the update with a. *)
Theorem updateMemoryFromScore_bounds :
  forall (user topic : string) (a b : Q) (c : Collections),
    topic <> "" ->
    (a <= b)%Q ->
    Forall withinBounds (conceptsBefore user c) ->
    Forall withinBounds (bankAfter user topic a c)
    /\ exists la lb,
         levelAfter user topic a c = Some la
         /\ levelAfter user topic b c = Some lb
         /\ (0 <= la <= lb)%Z /\ (lb <= 100)%Z.
Proof.
  intros user topic a b c Htopic Hab Hbounds.
  destruct (updateMemoryFromScore_number user topic a c Htopic) as (c1 & Hruna & _).
  destruct (updateMemoryFromScore_number user topic b c Htopic) as (c2 & Hrunb & _).
  unfold bankAfter, levelAfter. rewrite Hruna, Hrunb. cbn [fst].
  split; [now apply withinBounds_moved|].
  rewrite !levelOf_moved. eexists _, _. split; [reflexivity|]. split; [reflexivity|].
  pose proof (calculateDeltaFromScore_monotone a b Hab).
  set (l := match levelOf topic (conceptsBefore user c) with Some l => l | None => 50%Z end).
  pose proof (clamp_bounds (l + calculateDeltaFromScore (JNum a))).
  pose proof (clamp_bounds (l + calculateDeltaFromScore (JNum b))).
  pose proof (clamp_monotone (l + calculateDeltaFromScore (JNum a))
                (l + calculateDeltaFromScore (JNum b))).
  lia.
Qed.

Lemma updateMemoryFromScore_bounds_witness :
  Forall withinBounds (bankAfter "u1" "closures" 40 sampleBanks)
  /\ levelAfter "u1" "closures" 40 sampleBanks = Some 35%Z
  /\ levelAfter "u1" "closures" 85 sampleBanks = Some 53%Z.
Proof.
  assert (Hne : "closures" <> "") by discriminate.
  assert (Hle : (40 <= 85)%Q) by (unfold Qle; simpl; lia).
  assert (Hb : Forall withinBounds (conceptsBefore "u1" sampleBanks)).
  { repeat constructor; cbn; lia. }
  destruct (updateMemoryFromScore_bounds "u1" "closures" 40 85 sampleBanks Hne Hle Hb)
    as (Hall & _).
  split; [exact Hall|]. split; reflexivity.
Defined.

(* ===================================================================== *)
(** * Recommendations *)
(* ===================================================================== *)

Lemma insertByStrength_permutation (x : Concept) (l : list Concept) :
  Permutation (insertByStrength x l) (x :: l).
Proof.
  induction l as [|y l IH]; simpl; [reflexivity|].
  destruct (strengthLevel y <? strengthLevel x)%Z; [|reflexivity].
  rewrite IH. apply perm_swap.
Qed.

Lemma sortByStrength_permutation (l : list Concept) : Permutation (sortByStrength l) l.
Proof.
  induction l as [|x l IH]; simpl; [reflexivity|].
  rewrite insertByStrength_permutation. now constructor.
Qed.

Lemma insertByStrength_sorted (x : Concept) (l : list Concept) :
  StronglySorted weakerOrEqual l -> StronglySorted weakerOrEqual (insertByStrength x l).
Proof.
  induction 1 as [|y l Hl IH Hy]; simpl.
  - repeat constructor.
  - destruct (strengthLevel y <? strengthLevel x)%Z eqn:E.
    + apply Z.ltb_lt in E. constructor; [exact IH|].
      apply (Permutation_Forall (Permutation_sym (insertByStrength_permutation x l))).
      constructor; [unfold weakerOrEqual; lia | exact Hy].
    + apply Z.ltb_ge in E. constructor; [now constructor|].
      constructor; [exact E|].
      apply Forall_forall. intros z Hz. rewrite Forall_forall in Hy.
      unfold weakerOrEqual in *. specialize (Hy z Hz). lia.
Qed.

Lemma sortByStrength_sorted (l : list Concept) :
  StronglySorted weakerOrEqual (sortByStrength l).
Proof.
  induction l as [|x l IH]; simpl; [constructor|].
  now apply insertByStrength_sorted.
Qed.

Lemma StronglySorted_app_split {A : Type} (R : A -> A -> Prop) (a b : list A) :
  StronglySorted R (a ++ b) ->
  StronglySorted R a /\ Forall (fun r => Forall (fun x => R x r) a) b.
Proof.
  induction a as [|x a IH]; simpl; intros Hs.
  - split; [constructor|]. apply Forall_forall. intros; constructor.
  - inversion Hs as [|? ? Hl Hx]; subst.
    destruct (IH Hl) as [Ha Hb]. apply Forall_app in Hx as [Hxa Hxb]. split.
    + now constructor.
    + rewrite Forall_forall in *. intros r Hr. constructor; auto.
Qed.

(** X7.  [getRecommendations] changes nothing and resolves with at most
    three recommendations, one for each of the [chosen] concepts: weak
    concepts (a level under 50) of the bank of the user, in ascending order
    of level, and the weakest ones, since every weak concept left out
    ([rest]) has a level at least that of each chosen one; concepts are
    left out only when three are chosen.  Without a bank there is no
    recommendation. *)
Theorem getRecommendations_weakest :
  forall (user : string) (c : Collections),
  exists chosen rest,
    getRecommendations user c = (Returned (map recommend chosen), c)
    /\ List.length chosen <= 3
    /\ Permutation (chosen ++ rest) (filter isWeak (conceptsBefore user c))
    /\ Forall (fun x => In x (conceptsBefore user c) /\ (strengthLevel x < 50)%Z) chosen
    /\ StronglySorted weakerOrEqual chosen
    /\ Forall (fun r => Forall (fun x => weakerOrEqual x r) chosen) rest
    /\ (List.length chosen < 3 -> rest = []).
Proof.
  intros user c.
  set (weak := sortByStrength (filter isWeak (conceptsBefore user c))).
  exists (firstn 3 weak), (skipn 3 weak).
  assert (Hperm : Permutation (firstn 3 weak ++ skipn 3 weak)
                    (filter isWeak (conceptsBefore user c))).
  { rewrite firstn_skipn. apply sortByStrength_permutation. }
  assert (Hsorted : StronglySorted weakerOrEqual (firstn 3 weak ++ skipn 3 weak)).
  { rewrite firstn_skipn. apply sortByStrength_sorted. }
  apply StronglySorted_app_split in Hsorted as [Hchosen Hrest].
  split; [|split; [apply firstn_le_length|split; [exact Hperm|split; [|split; [exact Hchosen|split; [exact Hrest|]]]]]].
  - unfold getRecommendations, conceptsBefore in *.
    destruct (findBankOf user c); reflexivity.
  - apply Forall_forall. intros x Hx.
    assert (Hin : In x (filter isWeak (conceptsBefore user c))).
    { apply (Permutation_in x Hperm). apply in_or_app. now left. }
    apply filter_In in Hin as [Hin Hweak]. split; [exact Hin|].
    now apply Z.ltb_lt.
  - intros Hlt. apply skipn_all2. rewrite length_firstn in Hlt. lia.
Qed.

(* ===================================================================== *)
(** * Lessons: generateLesson *)
(* ===================================================================== *)















(* ===================================================================== *)
(** * Model calls and writes of the roadmap generators *)
(* ===================================================================== *)

(** ** The frame rules *)

Lemma quiet_weaken {A : Type} (n k : nat) (m : M A) : n <= k -> quiet n m -> quiet k m.
Proof. intros Hle H st. destruct (H st). split; [assumption | lia]. Qed.

Lemma quiet_ret {A : Type} (a : A) : quiet 0 (ret a).
Proof. intros st. simpl. split; [reflexivity | lia]. Qed.

Lemma quiet_throw {A : Type} (e : string) : quiet 0 (@throw A e).
Proof. intros st. simpl. split; [reflexivity | lia]. Qed.

Lemma quiet_lift {A : Type} (o : Outcome A) : quiet 0 (lift o).
Proof. intros st. simpl. split; [reflexivity | lia]. Qed.

Lemma quiet_await {A : Type} (r : Reply A) : quiet 0 (await r).
Proof. intros st. unfold await. destruct r; simpl; split; (reflexivity || lia). Qed.

Lemma quiet_chat (W : World) (p : Prompt) : quiet 1 (chat W p).
Proof. intros st. unfold chat. simpl. split; [reflexivity | lia]. Qed.

Lemma quiet_bind {A B : Type} (n k : nat) (m : M A) (f : A -> M B) :
  quiet n m -> (forall a, quiet k (f a)) -> quiet (n + k) (bind m f).
Proof.
  intros Hm Hf st. unfold bind. destruct (Hm st) as [Hr Hc].
  destruct (m st) as [[a|e|] st1]; cbn [snd] in *.
  - destruct (Hf a st1) as [Hr' Hc']. split; [congruence | lia].
  - split; [assumption | lia].
  - split; [assumption | lia].
Qed.

Lemma quiet_try_catch {A : Type} (n k : nat) (body : M A) (handler : string -> M A) :
  quiet n body -> (forall e, quiet k (handler e)) -> quiet (n + k) (try_catch body handler).
Proof.
  intros Hm Hf st. unfold try_catch. destruct (Hm st) as [Hr Hc].
  destruct (body st) as [[a|e|] st1]; cbn [snd] in *.
  - split; [assumption | lia].
  - destruct (Hf e st1) as [Hr' Hc']. split; [congruence | lia].
  - split; [assumption | lia].
Qed.

Lemma quiet_allSettled {A : Type} (n : nat) (promises : list (M A)) :
  Forall (quiet n) promises -> quiet (List.length promises * n) (allSettled promises).
Proof.
  induction 1 as [|p rest Hp Hrest IH]; simpl.
  - apply quiet_ret.
  - intros st. destruct (Hp st) as [Hr Hc].
    destruct (p st) as [[a|e|] st1]; cbn [snd] in *.
    + assert (H : quiet (List.length rest * n + 0)
                    (bind (allSettled rest) (fun l => ret (Fulfilled a :: l)))).
      { apply quiet_bind; [exact IH | intros; apply quiet_ret]. }
      destruct (H st1) as [Hr' Hc']. split; [congruence | lia].
    + assert (H : quiet (List.length rest * n + 0)
                    (bind (allSettled rest) (fun l => ret (RejectedWith e :: l)))).
      { apply quiet_bind; [exact IH | intros; apply quiet_ret]. }
      destruct (H st1) as [Hr' Hc']. split; [congruence | lia].
    + split; [assumption | lia].
Qed.

(** ** The functions of the research agent *)

Lemma quiet_performWebSearch (W : World) (query : string) (n : Z) :
  quiet 0 (performWebSearch W query n).
Proof.
  unfold performWebSearch.
  apply (quiet_try_catch 0 0).
  - apply (quiet_bind 0 0); [apply quiet_await | intros; apply quiet_ret].
  - intros; apply quiet_ret.
Qed.

Lemma quiet_summarizeContent (W : World) (content title : string) :
  quiet 1 (summarizeContent W content title).
Proof.
  unfold summarizeContent.
  apply (quiet_try_catch 1 0); [|intros; apply quiet_ret].
  destruct (String.eqb content "" || (String.length content <? 50)).
  - apply (quiet_weaken 0); [lia | apply quiet_ret].
  - apply (quiet_bind 1 0); [apply quiet_chat | intros; apply quiet_ret].
Qed.

Lemma quiet_scrapeAndSummarize (W : World) (url title : string) :
  quiet 1 (scrapeAndSummarize W url title).
Proof.
  unfold scrapeAndSummarize, scrapePage.
  apply (quiet_try_catch 1 0); [|intros; apply quiet_ret].
  apply (quiet_bind 0 1); [apply quiet_await|]. intros data.
  apply (quiet_bind 0 1); [apply quiet_await|]. intros page.
  apply (quiet_bind 1 0); [apply quiet_summarizeContent | intros; apply quiet_ret].
Qed.

Lemma quiet_scrapes {A : Type} (W : World) (url title : A -> string) (l : list A) :
  quiet (List.length l) (allSettled (map (fun x => scrapeAndSummarize W (url x) (title x)) l)).
Proof.
  pose proof (quiet_allSettled 1
                (map (fun x => scrapeAndSummarize W (url x) (title x)) l)) as H.
  rewrite length_map, Nat.mul_1_r in H. apply H.
  apply Forall_forall. intros p Hp. apply in_map_iff in Hp as (x & <- & _).
  apply quiet_scrapeAndSummarize.
Qed.

Lemma quiet_countSteps (v : JSValue) : quiet 0 (countSteps v).
Proof.
  unfold countSteps. destruct (get_prop v "steps"); [apply quiet_ret | apply quiet_throw].
Qed.

Lemma quiet_generateRoadmapWithSources (W : World) (fuel : nat) (topic : string)
    (resources : list RankedResource) (options : Options) :
  quiet 1 (generateRoadmapWithSources W fuel topic resources options).
Proof.
  unfold generateRoadmapWithSources.
  apply (quiet_bind 1 0); [apply quiet_chat | intros; apply quiet_lift].
Qed.

Lemma quiet_generateFallbackRoadmap (W : World) (fuel : nat) (topic : string)
    (options : Options) :
  quiet 1 (generateFallbackRoadmap W fuel topic options).
Proof.
  unfold generateFallbackRoadmap.
  apply (quiet_bind 1 0); [apply quiet_chat|]. intros response.
  apply (quiet_bind 0 0); [apply quiet_lift|]. intros json.
  destruct (negb (truthy json)); apply quiet_ret.
Qed.

Lemma quiet_webEnhancedRoadmap (W : World) (fuel : nat) (topic : string)
    (options : Options) :
  quiet 6 (webEnhancedRoadmap W fuel topic options).
Proof.
  unfold webEnhancedRoadmap.
  apply (quiet_bind 0 6); [apply quiet_performWebSearch|]. intros results.
  apply (quiet_bind 5 1).
  { apply (quiet_weaken (List.length (firstn 5 results)));
      [apply firstn_le_length | apply (quiet_scrapes W sr_url sr_title)]. }
  intros scraped.
  apply (quiet_bind 1 0); [apply quiet_generateRoadmapWithSources|]. intros roadmap.
  apply (quiet_bind 0 0); [apply quiet_countSteps | intros; apply quiet_ret].
Qed.

Lemma quiet_llmFallbackRoadmap (W : World) (fuel : nat) (topic : string)
    (options : Options) :
  quiet 1 (llmFallbackRoadmap W fuel topic options).
Proof.
  unfold llmFallbackRoadmap.
  apply (quiet_bind 1 0); [apply quiet_generateFallbackRoadmap|]. intros roadmap.
  apply (quiet_bind 0 0); [apply quiet_countSteps | intros; apply quiet_ret].
Qed.

Lemma quiet_generateComprehensiveRoadmap (W : World) (fuel : nat) (topic : string)
    (options : Options) :
  quiet 7 (generateComprehensiveRoadmap W fuel topic options).
Proof.
  unfold generateComprehensiveRoadmap.
  apply (quiet_try_catch 6 1);
    [apply quiet_webEnhancedRoadmap | intros; apply quiet_llmFallbackRoadmap].
Qed.

Lemma asks_chat (W : World) (p : Prompt) : asks (chat W p).
Proof. intros st. unfold chat. cbn. lia. Qed.

Lemma asks_bind {A B : Type} (n : nat) (m : M A) (f : A -> M B) :
  asks m -> (forall a, quiet n (f a)) -> asks (bind m f).
Proof.
  intros Hm Hf st. unfold bind. specialize (Hm st).
  destruct (m st) as [[a|e|] st1]; cbn [snd] in *; try exact Hm.
  destruct (Hf a st1) as [_ Hc]. lia.
Qed.

Lemma asks_after {A B : Type} (n : nat) (m : M A) (f : A -> M B) :
  resolves m -> quiet n m -> (forall a, asks (f a)) -> asks (bind m f).
Proof.
  intros Hres Hm Hf st. unfold bind.
  destruct (Hres st) as (a & st1 & Hrun). destruct (Hm st) as [_ Hc].
  rewrite Hrun in *. cbn [snd] in Hc. specialize (Hf a st1). lia.
Qed.

Lemma asks_try_catch {A : Type} (n : nat) (body : M A) (handler : string -> M A) :
  asks body -> (forall e, quiet n (handler e)) -> asks (try_catch body handler).
Proof.
  intros Hm Hf st. unfold try_catch. specialize (Hm st).
  destruct (body st) as [[a|e|] st1]; cbn [snd] in *; try exact Hm.
  destruct (Hf e st1) as [_ Hc]. lia.
Qed.

Lemma resolves_performWebSearch (W : World) (query : string) (n : Z) :
  resolves (performWebSearch W query n).
Proof.
  intros st. destruct (performWebSearch_resolves W query n st) as (results & H). eauto.
Qed.

Lemma resolves_scrapes {A : Type} (W : World) (url title : A -> string) (l : list A) :
  resolves (allSettled (map (fun x => scrapeAndSummarize W (url x) (title x)) l)).
Proof.
  intros st. destruct (allSettled_records W url title l st) as (rs & st' & H & _). eauto.
Qed.

(** Every path of [generateComprehensiveRoadmap] reaches a call of the
    model. *)
Lemma asks_generateComprehensiveRoadmap (W : World) (fuel : nat) (topic : string)
    (options : Options) :
  asks (generateComprehensiveRoadmap W fuel topic options).
Proof.
  unfold generateComprehensiveRoadmap.
  apply (asks_try_catch 1); [|intros; apply quiet_llmFallbackRoadmap].
  unfold webEnhancedRoadmap.
  apply (asks_after 0);
    [apply resolves_performWebSearch | apply quiet_performWebSearch|].
  intros results.
  apply (asks_after (List.length (firstn 5 results)));
    [apply (resolves_scrapes W sr_url sr_title)
    | apply (quiet_scrapes W sr_url sr_title) |].
  intros scraped.
  apply (asks_bind (0 + 0)).
  - unfold generateRoadmapWithSources.
    apply (asks_bind 0); [apply asks_chat | intros; apply quiet_lift].
  - intros roadmap.
    apply quiet_bind; [apply quiet_countSteps | intros; apply quiet_ret].
Qed.

(** X10.  [generateComprehensiveRoadmap] calls the model at least once and
    at most seven times (a summary for each of the five top results, the
    synthesis, the fallback), whatever the answers of the network and of
    the model, and it never touches the Roadmap collection. *)
Theorem generateComprehensiveRoadmap_budget :
  forall (W : World) (fuel : nat) (topic : string) (options : Options) (st : State),
  exists outcome st',
    generateComprehensiveRoadmap W fuel topic options st = (outcome, st')
    /\ roadmaps st' = roadmaps st
    /\ calls st + 1 <= calls st' <= calls st + 7.
Proof.
  intros W fuel topic options st.
  pose proof (quiet_generateComprehensiveRoadmap W fuel topic options st) as [Hr Hc].
  pose proof (asks_generateComprehensiveRoadmap W fuel topic options st) as Hasks.
  destruct (generateComprehensiveRoadmap W fuel topic options st) as [outcome st'].
  exists outcome, st'. cbn [snd] in *. split; [reflexivity|]. split; [exact Hr | lia].
Qed.

(** ** [generateRoadmapWithLLM] *)

(** A write the schema refuses leaves the collection as it is. *)
Lemma replaces_upsertRoadmap (user : string) (update : RoadmapUpdate) :
  replaces user 0 (upsertRoadmap user update).
Proof.
  intros st. unfold upsertRoadmap.
  destruct (mapOutcome castStep (up_steps update)); cbn.
  - split; [lia|]. split; reflexivity.
  - split; [lia | reflexivity].
  - split; [lia | reflexivity].
Qed.

Lemma replaces_bind {A : Type} (user : string) (n k : nat) (m : M A)
    (f : A -> M RoadmapDoc) :
  quiet n m -> (forall a, replaces user k (f a)) -> replaces user (n + k) (bind m f).
Proof.
  intros Hm Hf st. unfold bind. destruct (Hm st) as [Hr Hc].
  destruct (m st) as [[a|e|] st1]; cbn [snd fst] in *.
  - destruct (Hf a st1) as [Hc' Hr']. split; [lia|].
    destruct (fst (f a st1)); now rewrite <- Hr.
  - split; [lia | assumption].
  - split; [lia | assumption].
Qed.

Lemma replaces_throw (user : string) (e : string) : replaces user 0 (throw e).
Proof. intros st. cbn. split; [lia | reflexivity]. Qed.

Lemma replaces_weaken (user : string) (n k : nat) (m : M RoadmapDoc) :
  n <= k -> replaces user n m -> replaces user k m.
Proof. intros Hle H st. destruct (H st). split; [lia | assumption]. Qed.

Lemma replaces_try_catch (user : string) (n k : nat) (body : M RoadmapDoc)
    (handler : string -> M RoadmapDoc) :
  replaces user n body -> (forall e, replaces user k (handler e)) ->
  replaces user (n + k) (try_catch body handler).
Proof.
  intros Hm Hf st. unfold try_catch. destruct (Hm st) as [Hc Hr].
  destruct (body st) as [[a|e|] st1]; cbn [snd fst] in *.
  - split; [lia | assumption].
  - destruct (Hf e st1) as [Hc' Hr']. split; [lia|].
    destruct (fst (handler e st1)); now rewrite <- Hr.
  - split; [lia | assumption].
Qed.

Lemma replaces_researchRoadmap (W : World) (fuel : nat) (user : string) (p : Profile) :
  replaces user 7 (researchRoadmap W fuel user p).
Proof.
  unfold researchRoadmap.
  apply (replaces_bind user 7 0); [apply quiet_generateComprehensiveRoadmap|]. intros comp.
  apply (replaces_bind user 0 0); [apply quiet_lift|]. intros proposed.
  apply (replaces_bind user 0 0); [apply quiet_lift|]. intros steps.
  apply replaces_upsertRoadmap.
Qed.

Lemma replaces_basicRoadmap (W : World) (fuel : nat) (user : string)
    (profile : option Profile) (bank : option (list Concept)) :
  replaces user 1 (basicRoadmap W fuel user profile bank).
Proof.
  unfold basicRoadmap.
  apply (replaces_bind user 1 0); [apply quiet_chat|]. intros reply.
  apply (replaces_bind user 0 0); [apply quiet_lift|]. intros json.
  destruct (get_prop_opt json "steps"); try apply replaces_throw.
  apply (replaces_bind user 0 0); [apply quiet_lift|]. intros steps.
  apply replaces_upsertRoadmap.
Qed.

Lemma asks_basicRoadmap (W : World) (fuel : nat) (user : string)
    (profile : option Profile) (bank : option (list Concept)) :
  asks (basicRoadmap W fuel user profile bank).
Proof.
  intros st. unfold basicRoadmap, bind at 1, chat.
  destruct (llm W (calls st) _) as [reply|e]; cbn [snd calls]; [|lia].
  match goal with |- context [bind ?m ?f ?s] =>
    assert (H : replaces user (0 + 0) (bind m f)) end.
  { apply replaces_bind; [apply quiet_lift|]. intros json.
    destruct (get_prop_opt json "steps"); try apply replaces_throw.
    apply (replaces_bind user 0 0); [apply quiet_lift|]. intros steps.
    apply replaces_upsertRoadmap. }
  match goal with |- context [bind ?m ?f ?s] => destruct (H s) as [Hc _] end.
  cbn [calls] in Hc. lia.
Qed.

Lemma asks_researchRoadmap (W : World) (fuel : nat) (user : string) (p : Profile) :
  asks (researchRoadmap W fuel user p).
Proof.
  intros st. unfold researchRoadmap, bind at 1.
  pose proof (asks_generateComprehensiveRoadmap W fuel (skill p)
                (researchOptions p) st) as Hcomp.
  destruct (generateComprehensiveRoadmap W fuel (skill p) (researchOptions p) st)
    as [[comp|e|] st1]; cbn [snd] in *; try exact Hcomp.
  match goal with |- context [bind ?m ?f ?s] =>
    assert (H : replaces user (0 + (0 + 0)) (bind m f)) end.
  { apply replaces_bind; [apply quiet_lift|]. intros proposed.
    apply replaces_bind; [apply quiet_lift|]. intros steps.
    apply replaces_upsertRoadmap. }
  match goal with |- context [bind ?m ?f ?s] => destruct (H s) as [Hc' _] end.
  lia.
Qed.

(** X11.  [generateRoadmapWithLLM] writes all or nothing.  When it
    resolves, the roadmap of the user is the document it resolves with, in
    the place of the one the user had, and the roadmaps of the other users
    are as before; when it rejects, as it does when the schema refuses the
    steps of the basic path, the Roadmap collection is as before.  It calls
    the model once on the basic path, and between one and eight times with
    the research agent. *)
Theorem generateRoadmapWithLLM_replaces :
  forall (W : World) (fuel : nat) (user : string) (useResearchAgent : bool)
         (st : State),
  exists outcome st',
    generateRoadmapWithLLM W fuel user useResearchAgent st = (outcome, st')
    /\ calls st + 1 <= calls st' <= calls st + (if useResearchAgent then 8 else 1)
    /\ match outcome with
       | Returned doc =>
           userId doc = user
           /\ roadmaps st' = (user, doc) :: otherUsers user (roadmaps st)
       | _ => roadmaps st' = roadmaps st
       end.
Proof.
  intros W fuel user useResearchAgent st.
  set (basic := basicRoadmap W fuel user (findProfile W user) (findBank W user)).
  assert (Hbasic : replaces user 1 basic) by apply replaces_basicRoadmap.
  assert (Hasks : asks basic) by apply asks_basicRoadmap.
  unfold generateRoadmapWithLLM. fold basic.
  destruct (findProfile W user) as [p|] eqn:Hp.
  - destruct (useResearchAgent && negb (String.eqb (skill p) "")) eqn:Hflag.
    + apply andb_prop in Hflag as [-> _].
      pose proof (replaces_try_catch user 7 1 (researchRoadmap W fuel user p)
                    (fun _ => basic) (replaces_researchRoadmap W fuel user p)
                    (fun _ => Hbasic) st) as [Hc Hr].
      assert (Hlow : calls st + 1
                     <= calls (snd (try_catch (researchRoadmap W fuel user p)
                                      (fun _ => basic) st))).
      { unfold try_catch.
        pose proof (asks_researchRoadmap W fuel user p st) as Hres.
        destruct (researchRoadmap W fuel user p st) as [[doc|e|] st1];
          cbn [snd] in *; try exact Hres.
        specialize (Hasks st1). lia. }
      destruct (try_catch (researchRoadmap W fuel user p) (fun _ => basic) st)
        as [outcome st'].
      exists outcome, st'. cbn [fst snd] in *. split; [reflexivity|].
      split; [lia | exact Hr].
    + destruct (Hbasic st) as [Hc Hr]. specialize (Hasks st).
      destruct (basic st) as [outcome st'].
      exists outcome, st'. cbn [fst snd] in *. split; [reflexivity|].
      split; [destruct useResearchAgent; lia | exact Hr].
  - destruct (Hbasic st) as [Hc Hr]. specialize (Hasks st).
    destruct (basic st) as [outcome st'].
    exists outcome, st'. cbn [fst snd] in *. split; [reflexivity|].
    split; [destruct useResearchAgent; lia | exact Hr].
Qed.

(** A reply whose step has a name for its day: the write is refused on the
    research path and again on the basic path, after two calls of the
    model, and the roadmaps are those of before. *)
Lemma generateRoadmapWithLLM_replaces_witness :
  exists e st',
    generateRoadmapWithLLM namedDayWorld 10 "u1" true oneRoadmap = (Thrown e, st')
    /\ calls st' = 2
    /\ roadmaps st' = roadmaps oneRoadmap.
Proof.
  destruct (generateRoadmapWithLLM_replaces namedDayWorld 10 "u1" true oneRoadmap)
    as (outcome & st' & Hrun & _ & Hkept).
  assert (H : generateRoadmapWithLLM namedDayWorld 10 "u1" true oneRoadmap
              = (Thrown castError, mkState 2 (roadmaps oneRoadmap)))
    by (vm_compute; reflexivity).
  rewrite H in Hrun. injection Hrun as <- <-.
  exists castError, (mkState 2 (roadmaps oneRoadmap)).
  split; [exact H|]. split; [reflexivity | exact Hkept].
Defined.

(* ===================================================================== *)
(** * The handlers of routes/research.js *)
(* ===================================================================== *)











Lemma fulfilledValues_all {A B : Type} (P : A -> B -> Prop) (l : list A)
    (rs : list (Settled B)) :
  Forall2 (fun x r => exists v, r = Fulfilled v /\ P x v) l rs ->
  Forall2 P l (fulfilledValues rs).
Proof.
  induction 1 as [|x r l rs (v & -> & Hv) Hrest IH]; [constructor|].
  unfold fulfilledValues in *. cbn. now constructor.
Qed.

(** X14.  The analyze-topic handler searches with the limit of the depth
    (5, 10 or 15; 10 when the body gives none), scrapes the first five
    results, one record for each, and asks the model once.  No failure of
    the search or of a scrape reaches the caller: the handler forwards an
    error exactly when the call of the model fails.  When the model
    answers, the handler answers with an analysis that is never null (the
    value read from the reply, or an empty object when nothing truthy can
    be read), eight results and three scraped records at most. *)
Theorem analyzeTopicHandler_forwards :
  forall (W : World) (fuel : nat) (topic : string) (depth : option string) (st : State),
  exists results scraped st1,
    performWebSearch W topic (searchLimit (with_default depth "detailed")) st
    = (Returned results, st)
    /\ Forall2 (fun r sc => recordOf W (sr_url r) sc) (firstn 5 results) scraped
    /\ calls st <= calls st1 <= calls st + 5
    /\ (forall e,
          llm W (calls st1) (analysisPrompt topic results scraped) = Failed e ->
          analyzeTopicHandler W fuel topic depth st
          = (Returned (Forwarded ("Failed to connect to OpenRouter: " ++ e)), afterCall st1))
    /\ (forall reply v,
          llm W (calls st1) (analysisPrompt topic results scraped) = Ok reply ->
          extractJSON fuel (Some reply) = Returned v ->
          exists data,
            analyzeTopicHandler W fuel topic depth st
            = (Returned (Answered 200 true data "Topic analysis completed successfully"),
               afterCall st1)
            /\ analysis data = (if truthy v then v else JObj [])
            /\ truthy (analysis data) = true
            /\ ta_searchResults data = firstn 8 results
            /\ ta_scrapedContent data = firstn 3 scraped
            /\ ta_depth data = with_default depth "detailed").
Proof.
  intros W fuel topic depth st.
  set (d := with_default depth "detailed").
  destruct (performWebSearch_resolves W topic (searchLimit d) st) as (results & Hsearch).
  assert (Hfirst : firstn (Nat.min 5 (List.length results)) results = firstn 5 results).
  { destruct (Nat.le_ge_cases 5 (List.length results)) as [H | H].
    - now rewrite Nat.min_l.
    - rewrite Nat.min_r by assumption. rewrite firstn_all.
      symmetry. now apply firstn_all2. }
  destruct (allSettled_records W sr_url sr_title (firstn 5 results) st)
    as (settled & st1 & Hsettled & Hall).
  pose proof (quiet_scrapes W sr_url sr_title (firstn 5 results) st) as [_ Hc].
  rewrite Hsettled in Hc. cbn [snd] in Hc.
  pose proof (firstn_le_length 5 results) as Hfive.
  exists results, (fulfilledValues settled), st1.
  split; [exact Hsearch|].
  split; [now apply fulfilledValues_all|].
  split; [lia|].
  assert (Hrun : analyzeTopicHandler W fuel topic depth st
                 = try_catch
                     (bind (chat W (analysisPrompt topic results (fulfilledValues settled)))
                        (fun analysisResponse =>
                           bind (lift (extractJSON fuel (Some analysisResponse)))
                             (fun extracted =>
                                ret (Answered 200 true
                                       (mkTopicAnalysis topic d (or_else extracted (JObj []))
                                          (firstn 8 results)
                                          (firstn 3 (fulfilledValues settled)))
                                       "Topic analysis completed successfully"))))
                     (fun error => ret (Forwarded error)) st1).
  { unfold analyzeTopicHandler. fold d. unfold try_catch, bind at 1. rewrite Hsearch.
    unfold bind at 1. rewrite Hfirst, Hsettled. reflexivity. }
  rewrite Hrun. clear Hrun.
  split.
  - intros e He. unfold try_catch, bind at 1, chat. rewrite He. reflexivity.
  - intros reply v Hreply Hv. unfold try_catch, bind at 1, chat. rewrite Hreply.
    unfold bind, lift, ret. rewrite Hv.
    eexists. split; [reflexivity|].
    cbn [analysis ta_searchResults ta_scrapedContent ta_depth].
    unfold or_else. destruct (truthy v) eqn:Ht; repeat split; assumption || reflexivity.
Qed.

(* ===================================================================== *)
(** * extractJSON ends on texts without a dollar sign or an opening bracket *)
(* ===================================================================== *)

(** ** Texts without a character *)

Lemma count_char_append (c : ascii) (a b : string) :
  count_char c (a ++ b) = count_char c a + count_char c b.
Proof. induction a as [|d a IH]; simpl; [reflexivity | rewrite IH; lia]. Qed.

Lemma without_append (c : ascii) (a b : string) :
  without c (a ++ b) <-> without c a /\ without c b.
Proof. unfold without. rewrite count_char_append. lia. Qed.

Lemma without_cons (c d : ascii) (s : string) :
  without c (String d s) <-> Ascii.eqb c d = false /\ without c s.
Proof.
  unfold without. simpl. destruct (Ascii.eqb c d).
  - split; [lia | intros [H _]; discriminate].
  - split; [intros H; split; [reflexivity | exact H] | intros [_ H]; exact H].
Qed.

Lemma without_take (c : ascii) (n : nat) (s : string) :
  without c s -> without c (take n s).
Proof.
  unfold take. revert n. induction s as [|d s IH]; intros n H.
  - now destruct n.
  - destruct n as [|n]; [reflexivity|].
    apply without_cons in H as [Hd Hs]. cbn [substring].
    apply without_cons. split; [exact Hd | now apply IH].
Qed.

Lemma without_drop (c : ascii) (n : nat) (s : string) :
  without c s -> without c (drop n s).
Proof.
  revert s. induction n as [|n IH]; intros s H; [exact H|].
  destruct s as [|d s]; [exact H|].
  apply without_cons in H as [_ Hs]. cbn [drop]. now apply IH.
Qed.

Lemma without_trimStart (c : ascii) (s : string) :
  without c s -> without c (trimStart s).
Proof.
  induction s as [|d s IH]; intros H; [exact H|].
  cbn [trimStart]. destruct (is_space d); [|exact H].
  apply without_cons in H as [_ Hs]. now apply IH.
Qed.

Lemma without_trimEnd (c : ascii) (s : string) :
  without c s -> without c (trimEnd s).
Proof.
  induction s as [|d s IH]; intros H; [exact H|].
  apply without_cons in H as [Hd Hs]. specialize (IH Hs).
  cbn [trimEnd]. destruct (trimEnd s) as [|e t].
  - destruct (is_space d); [reflexivity|].
    apply without_cons. split; [exact Hd | reflexivity].
  - apply without_cons. split; [exact Hd | exact IH].
Qed.

Lemma without_trim (c : ascii) (s : string) : without c s -> without c (trim s).
Proof. intros H. unfold trim. now apply without_trimEnd, without_trimStart. Qed.

Lemma without_consumed (c : ascii) (from to : string) :
  without c from -> without c (consumed from to).
Proof. intros H. unfold consumed. now apply without_take. Qed.

(** ** The matcher keeps to its text *)

Lemma rep_clean (c : ascii) (greedy : bool) (p : ascii -> bool) (k : cont) :
  (forall st res, cleanState c st -> k st = Some res -> cleanState c res) ->
  forall (s : string) (min i : nat) (pv : option ascii) (cs : captures) (res : mstate),
    without c s -> Forall (fun e => without c (snd e)) cs ->
    rep greedy p k min s i pv cs = Some res -> cleanState c res.
Proof.
  intros Hk s. induction s as [|d s IH]; intros min i pv cs res Hs Hcs H.
  - cbn [rep] in H. destruct min; [|discriminate].
    apply (Hk (MState i pv "" cs) _ (conj Hs Hcs) H).
  - assert (Hhere : forall r, match min with
                              | 0 => k (MState i pv (String d s) cs)
                              | S _ => None
                              end = Some r -> cleanState c r).
    { intros r Hr. destruct min; [|discriminate].
      apply (Hk (MState i pv (String d s) cs) _ (conj Hs Hcs) Hr). }
    assert (Hs' : without c s) by (apply without_cons in Hs; tauto).
    cbn [rep] in H. destruct (p d); [|now apply Hhere].
    destruct greedy.
    + destruct (rep true p k (pred min) s (S i) (Some d) cs) as [r|] eqn:E.
      * injection H as <-. now apply (IH _ _ _ _ _ Hs' Hcs E).
      * now apply Hhere.
    + destruct (match min with 0 => k (MState i pv (String d s) cs) | S _ => None end)
        as [r|] eqn:E.
      * injection H as <-. now apply Hhere.
      * now apply (IH _ _ _ _ _ Hs' Hcs H).
Qed.

Lemma mtch_clean (c : ascii) (r : regex) :
  forall (k : cont) (st res : mstate),
    (forall st' res', cleanState c st' -> k st' = Some res' -> cleanState c res') ->
    cleanState c st -> mtch r k st = Some res -> cleanState c res.
Proof.
  induction r as [| a | a | p | g min p | r1 IH1 r2 IH2 | r1 IH1 r2 IH2 | r1 IH1
                 | n r1 IH1 | p | a | | ];
    intros k st res Hk Hst H; cbn [mtch] in H.
  - now apply (Hk st).
  - destruct st as [i pv s cs]. cbn [rest] in H. destruct s as [|d s]; [discriminate|].
    destruct (Ascii.eqb a d); [|discriminate].
    apply (Hk _ _ ) in H; [exact H|]. destruct Hst as [Hs Hcs]. cbn in *.
    split; [apply without_cons in Hs; tauto | exact Hcs].
  - destruct st as [i pv s cs]. cbn [rest] in H. destruct s as [|d s]; [discriminate|].
    destruct (Ascii.eqb (lower_char a) (lower_char d)); [|discriminate].
    apply (Hk _ _ ) in H; [exact H|]. destruct Hst as [Hs Hcs]. cbn in *.
    split; [apply without_cons in Hs; tauto | exact Hcs].
  - destruct st as [i pv s cs]. cbn [rest] in H. destruct s as [|d s]; [discriminate|].
    destruct (p d); [|discriminate].
    apply (Hk _ _ ) in H; [exact H|]. destruct Hst as [Hs Hcs]. cbn in *.
    split; [apply without_cons in Hs; tauto | exact Hcs].
  - destruct Hst as [Hs Hcs]. now apply (rep_clean c g p k Hk _ _ _ _ _ _ Hs Hcs H).
  - apply (IH1 (mtch r2 k) st res); [|exact Hst | exact H].
    intros st' res' Hst' H'. now apply (IH2 k st' res').
  - destruct (mtch r1 k st) as [x|] eqn:E.
    + injection H as <-. now apply (IH1 k st x).
    + now apply (IH2 k st res).
  - destruct (mtch r1 k st) as [x|] eqn:E.
    + injection H as <-. now apply (IH1 k st x).
    + now apply (Hk st).
  - apply (IH1 _ st res) in H; [exact H | | exact Hst].
    intros st' res' Hst' H'. apply (Hk _ _) in H'; [exact H'|].
    destruct Hst as [Hs _], Hst' as [Hs' Hcs']. split; [exact Hs'|].
    cbn [caps]. constructor; [|exact Hcs'].
    cbn [snd]. now apply without_consumed.
  - destruct (rest st) as [|d s]; [discriminate|].
    destruct (p d); [|discriminate]. now apply (Hk st).
  - destruct (prev st) as [d|]; [|now apply (Hk st)].
    destruct (Ascii.eqb a d); [discriminate|]. now apply (Hk st).
  - destruct (prev st); [discriminate|]. now apply (Hk st).
  - destruct (rest st); [|discriminate]. now apply (Hk st).
Qed.

(** What a match reads and captures comes from the text. *)
Lemma match_here_clean (c : ascii) (r : regex) (s : string) (i : nat) (pv : option ascii)
    (m : match_result) :
  without c s ->
  match_here r s i pv = Some m ->
  without c (m_text m) /\ without c (m_after m)
  /\ Forall (fun e => without c (snd e)) (m_caps m).
Proof.
  intros Hs H. unfold match_here in H.
  destruct (mtch r Some (MState i pv s [])) as [st|] eqn:E; [|discriminate].
  injection H as <-. cbn.
  assert (Hst : cleanState c st).
  { apply (mtch_clean c r Some (MState i pv s []) st); [|split; [exact Hs | constructor] | exact E].
    intros st' res' Hst' [= <-]. exact Hst'. }
  destruct Hst as [Hrest Hcaps].
  split; [now apply without_consumed | split; assumption].
Qed.

Lemma capture_text_clean (c : ascii) (n : nat) (cs : captures) :
  Forall (fun e => without c (snd e)) cs -> without c (capture_text n cs).
Proof.
  unfold capture_text. induction 1 as [|[m s] cs Hs Hcs IH]; [reflexivity|].
  cbn [capture]. destruct (n =? m); [exact Hs | exact IH].
Qed.

Lemma search_clean (c : ascii) (r : regex) (s : string) (i : nat) (pv : option ascii)
    (m : match_result) :
  without c s ->
  search r s i pv = Some m ->
  without c (m_text m) /\ without c (m_after m)
  /\ Forall (fun e => without c (snd e)) (m_caps m).
Proof.
  revert i pv. induction s as [|d s IH]; intros i pv Hs H; cbn [search] in H.
  - destruct (match_here r "" i pv) eqn:E; [|discriminate].
    injection H as <-. now apply (match_here_clean c r "" i pv).
  - destruct (match_here r (String d s) i pv) eqn:E.
    + injection H as <-. now apply (match_here_clean c r (String d s) i pv).
    + apply without_cons in Hs as [_ Hs]. now apply (IH (S i) (Some d)).
Qed.

Lemma exec_from_clean (c : ascii) (r : regex) (s : string) (lastIndex i : nat)
    (pv : option ascii) (m : match_result) :
  without c s ->
  exec_from r s lastIndex i pv = Some m ->
  without c (m_text m) /\ without c (m_after m)
  /\ Forall (fun e => without c (snd e)) (m_caps m).
Proof.
  revert s i pv. induction lastIndex as [|n IH]; intros s i pv Hs H; cbn [exec_from] in H.
  - now apply (search_clean c r s i pv).
  - destruct s as [|d s]; [discriminate|].
    apply without_cons in Hs as [_ Hs]. now apply (IH s (S i) (Some d)).
Qed.

(** A replacement whose pieces are without the character gives a text
    without it. *)
Lemma replace_go_clean (c : ascii) (r : regex) (f : string -> match_result -> string)
    (whole : string) :
  (forall before s i pv m,
     without c s -> match_here r s i pv = Some m -> without c (f before m)) ->
  forall (s : string) (i : nat) (pv : option ascii) (skip : nat),
    without c s -> without c (replace_go r f whole s i pv skip).
Proof.
  intros Hf s. induction s as [|d s IH]; intros i pv skip Hs.
  - destruct skip; cbn [replace_go]; [|reflexivity].
    destruct (match_here r "" i pv) as [m|] eqn:E; [|reflexivity].
    apply without_append. split; [now apply (Hf _ "" i pv)|].
    destruct (m_end m - i); reflexivity.
  - assert (Hs' : without c s) by (apply without_cons in Hs; tauto).
    assert (Hd : Ascii.eqb c d = false) by (apply without_cons in Hs; tauto).
    destruct skip as [|k]; cbn [replace_go]; [|now apply IH].
    destruct (match_here r (String d s) i pv) as [m|] eqn:E.
    + apply without_append. split; [now apply (Hf _ (String d s) i pv)|].
      destruct (m_end m - i).
      * apply without_cons. split; [exact Hd | now apply IH].
      * now apply IH.
    + apply without_cons. split; [exact Hd | now apply IH].
Qed.

(** ** The replacements of the cleanup *)

Lemma getSubstitution_literal (n : nat) (cs : captures) (m b a t : string) :
  without "$" t -> getSubstitution n cs m b a t = t.
Proof.
  induction t as [|c t IH]; intros H; [reflexivity|].
  apply without_cons in H as [Hc Ht]. cbn [getSubstitution].
  rewrite Ascii.eqb_sym, Hc. now rewrite IH.
Qed.

Lemma replace_clean (c : ascii) (r : regex) (n : nat) (template s : string) :
  (forall cs m b a,
     Forall (fun e => without c (snd e)) cs -> without c m ->
     without c (getSubstitution n cs m b a template)) ->
  without c s -> without c (replace r n template s).
Proof.
  intros Ht Hs. unfold replace. apply replace_go_clean; [|exact Hs].
  intros before s' i pv m Hs' Hm.
  destruct (match_here_clean c r s' i pv m Hs' Hm) as (Htext & _ & Hcaps).
  now apply Ht.
Qed.

Ltac clean_pieces :=
  repeat match goal with
         | |- without _ (_ ++ _) => apply without_append; split
         | |- without _ (capture_text _ _) => now apply capture_text_clean
         | |- without _ _ => reflexivity || assumption
         end.

Lemma cleanupReplacements_clean (text : string) :
  without "$" text -> without "$" (cleanupReplacements text).
Proof.
  intros H. unfold cleanupReplacements.
  apply replace_clean; [intros cs m b a Hcs Hm; reflexivity|].
  apply replace_clean; [intros cs m b a Hcs Hm; reflexivity|].
  apply replace_clean.
  { intros cs m b a Hcs Hm.
    change (getSubstitution 2 cs m b a "$1$2")
      with (capture_text 1 cs ++ capture_text 2 cs ++ ""). clean_pieces. }
  apply replace_clean; [intros cs m b a Hcs Hm; reflexivity|].
  apply replace_clean.
  { intros cs m b a Hcs Hm.
    change (getSubstitution 2 cs m b a ("$1" ++ quote ++ "$2" ++ quote ++ ":"))
      with (capture_text 1 cs ++ quote ++ capture_text 2 cs ++ quote ++ ":").
    clean_pieces. }
  apply replace_clean; [intros cs m b a Hcs Hm; reflexivity|].
  apply replace_clean; [|exact H].
  intros cs m b a Hcs Hm.
  change (getSubstitution 1 cs m b a "$1") with (capture_text 1 cs ++ ""). clean_pieces.
Qed.

Lemma fixArrayContent_clean (content : string) :
  without "$" content -> without "$" (fixArrayContent content).
Proof.
  intros H. unfold fixArrayContent.
  apply replace_clean.
  { intros cs m b a Hcs Hm.
    change (getSubstitution 1 cs m b a "$1, ") with (capture_text 1 cs ++ ", ").
    clean_pieces. }
  apply replace_clean; [intros cs m b a Hcs Hm; reflexivity|].
  apply replace_clean; [intros cs m b a Hcs Hm; reflexivity|].
  apply replace_clean; [|exact H].
  intros cs m b a Hcs Hm.
  change (getSubstitution 2 cs m b a "$1, $2")
    with (capture_text 1 cs ++ ", " ++ capture_text 2 cs ++ ""). clean_pieces.
Qed.

(** ** What the patterns of the array repair match *)

Lemma prevAfter_append (pv : option ascii) (a b : string) :
  prevAfter pv (a ++ b) = prevAfter (prevAfter pv a) b.
Proof. revert pv. induction a as [|c a IH]; intros pv; [reflexivity | apply IH]. Qed.

(** A quantifier reads a run of its class, of its minimal length at
    least, and hands over to its continuation. *)
Lemma rep_inv (g : bool) (p : ascii -> bool) (k : cont) :
  forall (s : string) (min i : nat) (pv : option ascii) (cs : captures) (res : mstate),
    rep g p k min s i pv cs = Some res ->
    exists a b,
      s = a ++ b /\ every p a = true /\ min <= String.length a
      /\ k (MState (i + String.length a) (prevAfter pv a) b cs) = Some res.
Proof.
  intros s. induction s as [|d s IH]; intros min i pv cs res H.
  - cbn [rep] in H. destruct min; [|discriminate].
    exists "", "". rewrite Nat.add_0_r. auto.
  - assert (Hhere : match min with
                    | 0 => k (MState i pv (String d s) cs)
                    | S _ => None
                    end = Some res ->
                    exists a b,
                      String d s = a ++ b /\ every p a = true /\ min <= String.length a
                      /\ k (MState (i + String.length a) (prevAfter pv a) b cs) = Some res).
    { intros Hk. destruct min; [|discriminate].
      exists "", (String d s). rewrite Nat.add_0_r. auto. }
    assert (Hnext : rep g p k (pred min) s (S i) (Some d) cs = Some res -> p d = true ->
                    exists a b,
                      String d s = a ++ b /\ every p a = true /\ min <= String.length a
                      /\ k (MState (i + String.length a) (prevAfter pv a) b cs) = Some res).
    { intros Hr Hd. destruct (IH _ _ _ _ _ Hr) as (a & b & -> & Ha & Hmin & Hk).
      exists (String d a), b. cbn [append every String.length prevAfter].
      rewrite Hd, Ha, Nat.add_succ_r. repeat split; [lia | exact Hk]. }
    cbn [rep] in H. destruct (p d) eqn:Hd; [|now apply Hhere].
    destruct g.
    + destruct (rep true p k (pred min) s (S i) (Some d) cs) as [r|] eqn:E.
      * injection H as <-. now apply Hnext.
      * now apply Hhere.
    + destruct (match min with 0 => k (MState i pv (String d s) cs) | S _ => None end)
        as [r|] eqn:E.
      * injection H as <-. now apply Hhere.
      * now apply Hnext.
Qed.

Lemma mtch_lit_inv (w : string) (k : cont) (i : nat) (pv : option ascii) (s : string)
    (cs : captures) (res : mstate) :
  mtch (lit w) k (MState i pv s cs) = Some res ->
  exists s',
    s = w ++ s'
    /\ k (MState (i + String.length w) (prevAfter pv w) s' cs) = Some res.
Proof.
  revert i pv s. induction w as [|c w IH]; intros i pv s H.
  - exists s. rewrite Nat.add_0_r. auto.
  - cbn [lit mtch rest] in H. destruct s as [|d s]; [discriminate|].
    destruct (Ascii.eqb c d) eqn:E; [|discriminate].
    apply Ascii.eqb_eq in E. subst d. unfold advance in H. cbn [pos caps] in H.
    destruct (IH _ _ _ H) as (s' & -> & Hk).
    exists s'. cbn [append String.length prevAfter]. rewrite Nat.add_succ_r. auto.
Qed.

Lemma match_numberWithoutComma (s : string) (i : nat) (pv : option ascii)
    (m : match_result) :
  match_here numberWithoutComma s i pv = Some m ->
  exists digits spaces rest,
    every is_digit digits = true /\ digits <> ""
    /\ every is_space spaces = true /\ spaces <> ""
    /\ repairs numberWithoutComma 1 "$1, " s i pv m
         (mkRepair (digits ++ spaces) (digits ++ ", ") rest).
Proof.
  unfold match_here. intros H.
  destruct (mtch numberWithoutComma Some (MState i pv s [])) as [st|] eqn:E;
    [|discriminate].
  injection H as <-.
  unfold numberWithoutComma, plus in E. cbn [mtch rest pos prev caps] in E.
  apply rep_inv in E as (digits & s1 & -> & Hdigits & Hmin & E).
  cbn [mtch rest pos prev caps] in E.
  apply rep_inv in E as (spaces & s2 & -> & Hspaces & Hmin' & E).
  cbn [mtch rest pos prev caps] in E.
  destruct s2 as [|d s2]; [discriminate|].
  destruct (itemStart d || is_digit d); [|discriminate].
  injection E as <-.
  exists digits, spaces, (String d s2).
  split; [exact Hdigits|]. split; [destruct digits; [simpl in Hmin; lia | discriminate]|].
  split; [exact Hspaces|]. split; [destruct spaces; [simpl in Hmin'; lia | discriminate]|].
  unfold repairs. cbn [found put leftOver m_end m_caps m_text m_after pos rest caps].
  split; [symmetry; apply append_assoc|].
  split; [rewrite length_append; lia|].
  intros before.
  change (getSubstitution 1 ?cs _ _ _ "$1, ") with (capture_text 1 cs ++ ", ").
  cbn [capture_text capture Nat.eqb]. f_equal.
  unfold consumed. rewrite !length_append.
  replace (String.length digits + (String.length spaces + String.length (String d s2))
           - (String.length spaces + String.length (String d s2)))
    with (String.length digits) by lia.
  apply take_append.
Qed.

Lemma match_wordWithoutComma (w : string) (p : ascii -> bool) (s : string) (i : nat)
    (pv : option ascii) (m : match_result) :
  without "$" w ->
  match_here (Seq (lit w) (Seq (plus is_space) (Ahead p))) s i pv = Some m ->
  exists spaces rest,
    every is_space spaces = true /\ spaces <> ""
    /\ repairs (Seq (lit w) (Seq (plus is_space) (Ahead p))) 0 (w ++ ", ") s i pv m
         (mkRepair (w ++ spaces) (w ++ ", ") rest).
Proof.
  unfold match_here. intros Hw H.
  destruct (mtch (Seq (lit w) (Seq (plus is_space) (Ahead p))) Some (MState i pv s []))
    as [st|] eqn:E; [|discriminate].
  injection H as <-.
  cbn [mtch] in E. apply mtch_lit_inv in E as (s1 & -> & E).
  unfold plus in E. cbn [mtch rest pos prev caps] in E.
  apply rep_inv in E as (spaces & s2 & -> & Hspaces & Hmin & E).
  cbn [mtch rest pos prev caps] in E.
  destruct s2 as [|d s2]; [discriminate|].
  destruct (p d); [|discriminate].
  injection E as <-.
  exists spaces, (String d s2).
  split; [exact Hspaces|]. split; [destruct spaces; [simpl in Hmin; lia | discriminate]|].
  unfold repairs. cbn [found put leftOver m_end m_caps m_text m_after pos rest caps].
  split; [symmetry; apply append_assoc|].
  split; [rewrite length_append; lia|].
  intros before. apply getSubstitution_literal.
  apply without_append. split; [exact Hw | reflexivity].
Qed.

Lemma match_stringsWithoutComma (s : string) (i : nat) (pv : option ascii)
    (m : match_result) :
  match_here stringsWithoutComma s i pv = Some m ->
  exists q1 q2 spaces rest,
    one_of quotes q1 = true /\ one_of quotes q2 = true
    /\ every is_space spaces = true /\ spaces <> ""
    /\ repairs stringsWithoutComma 2 "$1, $2" s i pv m
         (mkRepair (String q1 spaces ++ str1 q2) (String q1 ", " ++ str1 q2) rest).
Proof.
  unfold match_here. intros H.
  destruct (mtch stringsWithoutComma Some (MState i pv s [])) as [st|] eqn:E;
    [|discriminate].
  injection H as <-.
  unfold stringsWithoutComma, plus in E. cbn [mtch rest pos prev caps] in E.
  destruct s as [|q1 s]; [discriminate|].
  destruct (one_of quotes q1) eqn:Hq1; [|discriminate].
  unfold advance in E. cbn [mtch rest pos prev caps] in E.
  apply rep_inv in E as (spaces & s2 & -> & Hspaces & Hmin & E).
  cbn [mtch rest pos prev caps] in E.
  destruct s2 as [|q2 s2]; [discriminate|].
  destruct (one_of quotes q2) eqn:Hq2; [|discriminate].
  unfold advance in E. cbn [mtch rest pos prev caps] in E.
  injection E as <-.
  exists q1, q2, spaces, s2.
  split; [exact Hq1|]. split; [exact Hq2|].
  split; [exact Hspaces|]. split; [destruct spaces; [simpl in Hmin; lia | discriminate]|].
  unfold repairs. cbn [found put leftOver m_end m_caps m_text m_after pos rest caps].
  split; [cbn [append]; f_equal; now rewrite append_assoc|].
  split; [cbn [append String.length]; rewrite length_append; cbn [String.length str1]; lia|].
  intros before.
  change (getSubstitution 2 ?cs _ _ _ "$1, $2")
    with (capture_text 1 cs ++ ", " ++ capture_text 2 cs ++ "").
  cbn [capture_text capture Nat.eqb].
  unfold consumed. cbn [String.length].
  replace (S (String.length (spaces ++ String q2 s2)) - String.length (spaces ++ String q2 s2))
    with 1 by lia.
  replace (S (String.length s2) - String.length s2) with 1 by lia.
  unfold take. cbn [substring append]. now destruct (spaces ++ String q2 s2), s2.
Qed.

(** ** The growth of a repaired array *)

Lemma weight_append (pv : option ascii) (a b : string) :
  weight pv (a ++ b) = weight pv a + weight (prevAfter pv a) b.
Proof.
  revert pv. induction a as [|c a IH]; intros pv; [reflexivity|].
  cbn [append weight prevAfter]. rewrite IH. lia.
Qed.

Lemma weight_context (pv pv' : option ascii) (s : string) :
  afterItem pv = afterItem pv' -> weight pv s = weight pv' s.
Proof. intros H. destruct s as [|c s]; [reflexivity|]. cbn [weight]. now rewrite H. Qed.

Lemma length_le_weight (pv : option ascii) (s : string) : String.length s <= weight pv s.
Proof.
  revert pv. induction s as [|c s IH]; intros pv; [apply Nat.le_refl|].
  cbn [String.length weight]. specialize (IH (Some c)).
  destruct (is_space c && afterItem pv); lia.
Qed.

Lemma weight_le_double (pv : option ascii) (s : string) : weight pv s <= 2 * String.length s.
Proof.
  revert pv. induction s as [|c s IH]; intros pv; [apply Nat.le_refl|].
  cbn [String.length weight]. specialize (IH (Some c)).
  destruct (is_space c && afterItem pv); lia.
Qed.

Lemma weight_spaces (pv : option ascii) (spaces : string) :
  every is_space spaces = true -> spaces <> "" ->
  weight pv spaces = String.length spaces + (if afterItem pv then 1 else 0)
  /\ afterItem (prevAfter pv spaces) = false.
Proof.
  intros H Hne. destruct spaces as [|c spaces]; [congruence|]. clear Hne.
  cbn [every] in H. apply andb_prop in H as [Hc H].
  cbn [weight String.length prevAfter]. rewrite Hc. cbn [andb].
  assert (Hrest : forall d, is_space d = true ->
            weight (Some d) spaces = String.length spaces
            /\ afterItem (prevAfter (Some d) spaces) = false).
  { clear Hc. revert H. induction spaces as [|e spaces IH]; intros H d Hd.
    - cbn. now rewrite Hd.
    - cbn [every] in H. apply andb_prop in H as [He H].
      cbn [weight String.length prevAfter afterItem]. rewrite Hd. cbn [negb andb].
      rewrite Bool.andb_false_r. destruct (IH H e He) as [-> ->]. auto. }
  destruct (Hrest c Hc) as [-> ->]. split; [destruct (afterItem pv); lia | reflexivity].
Qed.

Lemma weight_item (pv : option ascii) (w : string) :
  every (fun c => negb (is_space c)) w = true ->
  weight pv w = String.length w.
Proof.
  revert pv. induction w as [|c w IH]; intros pv H; [reflexivity|].
  cbn [every] in H. apply andb_prop in H as [Hc H].
  cbn [weight String.length]. apply negb_true_iff in Hc. rewrite Hc. cbn [andb].
  now rewrite IH.
Qed.

Lemma take_drop_append (a b : string) :
  take (String.length a) (a ++ b) = a /\ drop (String.length a) (a ++ b) = b.
Proof.
  split; [apply take_append|].
  rewrite <- (Nat.add_0_r (String.length a)). apply drop_append.
Qed.

Lemma take_0 (s : string) : take 0 s = "".
Proof. now destruct s. Qed.

(** A replacement all of whose repairs are light gives a text that weighs
    no more. *)
Lemma replace_go_weight (r : regex) (n : nat) (template whole : string) :
  (forall s i pv m,
     match_here r s i pv = Some m ->
     exists x, repairs r n template s i pv m x /\ light x) ->
  forall (s : string) (i : nat) (pv pv' : option ascii) (skip : nat),
    skip <= String.length s ->
    afterItem (prevAfter pv (take skip s)) = afterItem pv' ->
    weight pv'
      (replace_go r
         (fun before m =>
            getSubstitution n (m_caps m) (m_text m) before (m_after m) template)
         whole s i pv skip)
    <= weight (prevAfter pv (take skip s)) (drop skip s).
Proof.
  intros Hr s. induction s as [|d s IH]; intros i pv pv' skip Hskip Hkind.
  - destruct skip; [|simpl in Hskip; lia]. cbn [replace_go].
    destruct (match_here r "" i pv) as [m|] eqn:E; [|apply Nat.le_refl].
    destruct (Hr _ _ _ _ E) as (x & (Hs & _) & (Hne & _)).
    destruct (found x); [congruence | discriminate].
  - destruct skip as [|k]; cbn [replace_go].
    + rewrite take_0 in *. cbn [drop prevAfter] in *.
      destruct (match_here r (String d s) i pv) as [m|] eqn:E.
      * destruct (Hr _ _ _ _ E) as (x & (Hs & Hend & Hput) & (Hne & Hlight)).
        rewrite Hput, Hend, Nat.add_comm, Nat.add_sub.
        destruct (found x) as [|e t] eqn:Hfound; [congruence|].
        cbn [append] in Hs. injection Hs as <- Hs. subst s.
        cbn [String.length].
        destruct (Hlight pv pv' Hkind) as [Hw Hk].
        rewrite weight_append.
        destruct (take_drop_append t (leftOver x)) as [Htake Hdrop].
        specialize (IH (S i) (Some d) (prevAfter pv' (put x)) (String.length t)).
        rewrite Htake, Hdrop in IH.
        change (String d t ++ leftOver x) with (String d (t ++ leftOver x)).
        change (weight pv (String d (t ++ leftOver x)))
          with (weight pv (String d t ++ leftOver x)).
        rewrite weight_append. cbn [prevAfter] in Hk |- *.
        assert (weight (prevAfter pv' (put x))
                  (replace_go r
                     (fun before m0 =>
                        getSubstitution n (m_caps m0) (m_text m0) before (m_after m0)
                          template)
                     whole (t ++ leftOver x) (S i) (Some d) (String.length t))
                <= weight (prevAfter (Some d) t) (leftOver x)).
        { apply IH; [rewrite length_append; lia | now rewrite Hk]. }
        lia.
      * cbn [weight]. rewrite Hkind.
        specialize (IH (S i) (Some d) (Some d) 0 (Nat.le_0_l _)).
        rewrite take_0 in IH. cbn [drop prevAfter] in IH.
        specialize (IH eq_refl). lia.
    + cbn [String.length] in Hskip.
      change (take (S k) (String d s)) with (String d (take k s)) in *.
      cbn [prevAfter drop] in *.
      apply IH; [lia | exact Hkind].
Qed.

Lemma afterItem_item (pv : option ascii) (w : string) :
  every itemChar w = true -> w <> "" -> afterItem (prevAfter pv w) = true.
Proof.
  revert pv. induction w as [|c w IH]; intros pv H Hne; [congruence|].
  cbn [every] in H. apply andb_prop in H as [Hc H]. cbn [prevAfter].
  destruct w as [|e w]; [exact Hc|]. apply IH; [exact H | discriminate].
Qed.

Lemma weight_itemChars (pv : option ascii) (w : string) :
  every itemChar w = true -> weight pv w = String.length w.
Proof.
  intros H. apply weight_item. revert H. induction w as [|c w IH]; [reflexivity|].
  cbn [every]. intros H. apply andb_prop in H as [Hc H].
  unfold itemChar in Hc. apply andb_prop in Hc as [Hc _]. now rewrite Hc, IH.
Qed.

Lemma afterItem_prevAfter (pv pv' : option ascii) (t : string) :
  afterItem pv = afterItem pv' ->
  afterItem (prevAfter pv t) = afterItem (prevAfter pv' t).
Proof. intros H. destruct t; [exact H | reflexivity]. Qed.

Lemma weight_comma_space (pv : option ascii) :
  weight pv ", " = 2 /\ afterItem (prevAfter pv ", ") = false.
Proof. split; reflexivity. Qed.

Lemma light_item (w spaces rest : string) :
  every itemChar w = true -> w <> "" ->
  every is_space spaces = true -> spaces <> "" ->
  light (mkRepair (w ++ spaces) (w ++ ", ") rest).
Proof.
  intros Hw Hne Hspaces Hne'. split; cbn [found put].
  - destruct w; [congruence | discriminate].
  - intros pv pv' Hkind.
    rewrite !weight_append, !prevAfter_append.
    rewrite (weight_itemChars pv w Hw), (weight_itemChars pv' w Hw).
    destruct (weight_spaces (prevAfter pv w) spaces Hspaces Hne') as [-> ->].
    rewrite !(afterItem_item _ w Hw Hne).
    destruct (weight_comma_space (prevAfter pv' w)) as [-> ->].
    split; [|reflexivity].
    destruct spaces; [congruence|]. cbn [String.length]. lia.
Qed.

Lemma light_suffix (a b t rest rest' : string) :
  light (mkRepair a b rest) -> light (mkRepair (a ++ t) (b ++ t) rest').
Proof.
  intros [Hne Hlight]. split; cbn [found put] in *.
  - destruct a; [congruence | discriminate].
  - intros pv pv' Hkind. destruct (Hlight pv pv' Hkind) as [Hw Hk].
    rewrite !weight_append, !prevAfter_append.
    rewrite (weight_context _ _ t Hk).
    split; [lia | now apply afterItem_prevAfter].
Qed.

Lemma itemChar_digit (c : ascii) : is_digit c = true -> itemChar c = true.
Proof. destruct c as [[] [] [] [] [] [] [] []]; vm_compute; congruence. Qed.

Lemma itemChar_quote (c : ascii) : one_of quotes c = true -> itemChar c = true.
Proof. destruct c as [[] [] [] [] [] [] [] []]; vm_compute; congruence. Qed.

Lemma every_impl (p q : ascii -> bool) (s : string) :
  (forall c, p c = true -> q c = true) -> every p s = true -> every q s = true.
Proof.
  intros Hpq. induction s as [|c s IH]; [reflexivity|].
  cbn [every]. intros H. apply andb_prop in H as [Hc H]. now rewrite (Hpq c Hc), IH.
Qed.

Lemma replace_weight (r : regex) (n : nat) (template s : string) :
  (forall s i pv m,
     match_here r s i pv = Some m ->
     exists x, repairs r n template s i pv m x /\ light x) ->
  weight None (replace r n template s) <= weight None s.
Proof.
  intros Hr. unfold replace.
  pose proof (replace_go_weight r n template s Hr s 0 None None 0 (Nat.le_0_l _)) as H.
  rewrite take_0 in H. cbn [prevAfter drop] in H. now apply H.
Qed.

(** The repair of the content of an array at most doubles its length. *)
Lemma length_fixArrayContent (content : string) :
  String.length (fixArrayContent content) <= 2 * String.length content.
Proof.
  apply Nat.le_trans with (weight None (fixArrayContent content));
    [apply length_le_weight|].
  apply Nat.le_trans with (weight None content); [|apply weight_le_double].
  unfold fixArrayContent.
  eapply Nat.le_trans; [apply replace_weight|].
  { intros s i pv m Hm.
    destruct (match_numberWithoutComma s i pv m Hm)
      as (digits & spaces & rest & Hd & Hne & Hs & Hne' & Hrep).
    eexists. split; [exact Hrep|].
    apply light_item; try assumption.
    apply (every_impl is_digit); [apply itemChar_digit | exact Hd]. }
  eapply Nat.le_trans; [apply replace_weight|].
  { intros s i pv m Hm.
    destruct (match_wordWithoutComma "false" itemStart s i pv m eq_refl Hm)
      as (spaces & rest & Hs & Hne & Hrep).
    eexists. split; [exact Hrep|].
    apply light_item; try assumption; [reflexivity | discriminate]. }
  eapply Nat.le_trans; [apply replace_weight|].
  { intros s i pv m Hm.
    destruct (match_wordWithoutComma "true" itemStart s i pv m eq_refl Hm)
      as (spaces & rest & Hs & Hne & Hrep).
    eexists. split; [exact Hrep|].
    apply light_item; try assumption; [reflexivity | discriminate]. }
  apply replace_weight.
  intros s i pv m Hm.
  destruct (match_stringsWithoutComma s i pv m Hm)
    as (q1 & q2 & spaces & rest & Hq1 & Hq2 & Hs & Hne & Hrep).
  eexists. split; [exact Hrep|].
  apply (light_suffix (str1 q1 ++ spaces) (str1 q1 ++ ", ") (str1 q2) rest).
  apply light_item; try assumption; [|discriminate].
  cbn [every str1]. now rewrite (itemChar_quote q1 Hq1).
Qed.

(** ** The array loop *)

(** Where a search finds its match. *)
Lemma search_inv (r : regex) (s : string) (i : nat) (pv : option ascii)
    (m : match_result) :
  search r s i pv = Some m ->
  exists a b,
    s = a ++ b
    /\ match_here r b (i + String.length a) (prevAfter pv a) = Some m.
Proof.
  revert i pv. induction s as [|d s IH]; intros i pv H; cbn [search] in H.
  - destruct (match_here r "" i pv) eqn:E; [|discriminate].
    injection H as <-. exists "", "". now rewrite Nat.add_0_r.
  - destruct (match_here r (String d s) i pv) eqn:E.
    + injection H as <-. exists "", (String d s). now rewrite Nat.add_0_r.
    + destruct (IH _ _ H) as (a & b & -> & Hm).
      exists (String d a), b. cbn [append String.length prevAfter].
      now rewrite Nat.add_succ_r.
Qed.

Lemma exec_inv (r : regex) (s : string) (lastIndex : nat) (m : match_result) :
  exec r s lastIndex = Some m ->
  exists a b,
    s = a ++ b /\ lastIndex <= String.length a
    /\ match_here r b (String.length a) (prevAfter None a) = Some m.
Proof.
  unfold exec.
  assert (H : forall lastIndex s i pv,
            exec_from r s lastIndex i pv = Some m ->
            exists a b,
              s = a ++ b /\ lastIndex <= String.length a
              /\ match_here r b (i + String.length a) (prevAfter pv a) = Some m).
  { clear. intros lastIndex. induction lastIndex as [|n IH]; intros s i pv H;
      cbn [exec_from] in H.
    - destruct (search_inv r s i pv m H) as (a & b & -> & Hm).
      exists a, b. auto using Nat.le_0_l.
    - destruct s as [|d s]; [discriminate|].
      destruct (IH _ _ _ H) as (a & b & -> & Hle & Hm).
      exists (String d a), b. cbn [append String.length prevAfter].
      rewrite Nat.add_succ_r. repeat split; [lia | exact Hm]. }
  intros Hm. destruct (H _ _ _ _ Hm) as (a & b & Hs & Hle & Hmatch).
  exists a, b. auto.
Qed.

(** A match of the array pattern: a bracket, the content, a bracket. *)
Lemma match_arrayRegex (s : string) (i : nat) (pv : option ascii) (m : match_result) :
  match_here arrayRegex s i pv = Some m ->
  exists content rest,
    s = "[" ++ content ++ "]" ++ rest
    /\ capture_text 1 (m_caps m) = content
    /\ m_end m = i + String.length content + 2.
Proof.
  unfold match_here. intros H.
  destruct (mtch arrayRegex Some (MState i pv s [])) as [st|] eqn:E; [|discriminate].
  injection H as <-.
  unfold arrayRegex, star_lazy in E. cbn [mtch rest pos prev caps] in E.
  destruct s as [|d s]; [discriminate|].
  destruct (Ascii.eqb "[" d) eqn:Hd; [|discriminate].
  apply Ascii.eqb_eq in Hd. subst d.
  unfold advance in E. cbn [mtch rest pos prev caps] in E.
  apply rep_inv in E as (content & s2 & -> & _ & _ & E).
  cbn [mtch rest pos prev caps] in E.
  destruct s2 as [|e s2]; [discriminate|].
  destruct (Ascii.eqb "]" e) eqn:He; [|discriminate].
  apply Ascii.eqb_eq in He. subst e.
  unfold advance in E. cbn [pos prev rest caps] in E. injection E as <-.
  exists content, s2. cbn [m_caps m_end capture_text capture Nat.eqb pos].
  split; [reflexivity|]. split; [|lia].
  unfold consumed. rewrite length_append, Nat.add_sub. apply take_append.
Qed.

(** ** [indexOf] and the replacement of a first occurrence *)

Lemma startsWith_split (p s : string) :
  startsWith p s = true -> s = p ++ drop (String.length p) s.
Proof.
  revert s. induction p as [|c p IH]; intros s H; [reflexivity|].
  destruct s as [|d s]; [discriminate|].
  cbn [startsWith] in H. destruct (Ascii.eqb c d) eqn:E; [|discriminate].
  apply Ascii.eqb_eq in E. subst d. cbn [append String.length drop].
  f_equal. now apply IH.
Qed.

Lemma indexOf_occurs (p a b : string) :
  exists q,
    indexOf p (a ++ p ++ b) = Some q
    /\ q <= String.length a
    /\ a ++ p ++ b
       = take q (a ++ p ++ b) ++ p ++ drop (q + String.length p) (a ++ p ++ b).
Proof.
  induction a as [|d a IH].
  - exists 0. cbn [append].
    rewrite (indexOf_startsWith p (p ++ b)) by apply startsWith_append.
    split; [reflexivity|]. split; [apply Nat.le_refl|].
    rewrite take_0. cbn [append Nat.add].
    rewrite <- (Nat.add_0_r (String.length p)), drop_append. reflexivity.
  - cbn [append]. destruct (startsWith p (String d (a ++ p ++ b))) eqn:E.
    + exists 0. split.
      * destruct p; cbn [indexOf]; [reflexivity | now rewrite E].
      * split; [apply Nat.le_0_l|]. rewrite take_0. cbn [append Nat.add].
        now apply startsWith_split.
    + destruct IH as (q & Hq & Hle & Hsplit).
      exists (S q). split.
      * destruct p as [|c p]; [discriminate|]. cbn [indexOf]. rewrite E.
        cbn [indexOf] in Hq. now rewrite Hq.
      * split; [cbn [String.length]; lia|].
        change (take (S q) (String d (a ++ p ++ b)))
          with (String d (take q (a ++ p ++ b))).
        cbn [append Nat.add drop]. now rewrite <- Hsplit.
Qed.

Lemma length_replace_first (p t s : string) (q : nat) :
  without "$" t ->
  indexOf p s = Some q ->
  s = take q s ++ p ++ drop (q + String.length p) s ->
  String.length (replace_first p t s) + String.length p
  = String.length s + String.length t
  /\ replace_first p t s = take q s ++ t ++ drop (q + String.length p) s.
Proof.
  intros Ht Hq Hs. unfold replace_first. rewrite Hq.
  rewrite getSubstitution_literal by exact Ht.
  split; [|reflexivity].
  rewrite Hs at 3. rewrite !length_append. lia.
Qed.

(** One turn of the loop on a text without a dollar sign: the text stays
    without one, and the distance from [lastIndex] to the end of the text
    shrinks. *)
Lemma arrayStep_progress (cleaned cleaned' : string) (lastIndex lastIndex' : nat) :
  without "$" cleaned ->
  arrayStep cleaned lastIndex = Some (cleaned', lastIndex') ->
  without "$" cleaned'
  /\ String.length cleaned' - lastIndex' < String.length cleaned - lastIndex.
Proof.
  intros Hclean H. unfold arrayStep in H.
  destruct (exec arrayRegex cleaned lastIndex) as [m|] eqn:Hexec; [|discriminate].
  destruct (exec_inv _ _ _ _ Hexec) as (a & b & Hs & Hle & Hm).
  destruct (match_arrayRegex _ _ _ _ Hm) as (content & rest & Hb & Hcap & Hend).
  rewrite Hcap in H. subst b.
  assert (Hlen : String.length cleaned
                 = String.length a + String.length content + 2 + String.length rest).
  { rewrite Hs, !length_append. cbn [String.length]. lia. }
  assert (Hcontent : without "$" content).
  { rewrite Hs in Hclean.
    apply without_append in Hclean as [_ Hclean].
    apply (without_append "$" "[") in Hclean as [_ Hclean].
    now apply without_append in Hclean as [Hclean _]. }
  destruct (String.eqb content "") eqn:Hempty.
  - injection H as <- <-. split; [exact Hclean | lia].
  - injection H as <- <-.
    set (pattern := "[" ++ content ++ "]") in *.
    set (fixed := "[" ++ fixArrayContent content ++ "]").
    assert (Hfixed : without "$" fixed).
    { unfold fixed. apply (without_append "$" "["). split; [reflexivity|].
      apply without_append. split; [now apply fixArrayContent_clean | reflexivity]. }
    destruct (indexOf_occurs pattern a rest) as (q & Hq & Hqa & Hsplit).
    assert (Hs' : cleaned = a ++ pattern ++ rest).
    { rewrite Hs. unfold pattern. now rewrite !append_assoc. }
    rewrite <- Hs' in Hq, Hsplit.
    destruct (length_replace_first pattern fixed cleaned q Hfixed Hq Hsplit)
      as [Hgrow Hshape].
    change (String "[" (content ++ "]")) with pattern.
    change (String "[" (fixArrayContent content ++ "]")) with fixed.
    split.
    + rewrite Hshape. rewrite Hsplit in Hclean.
      apply without_append in Hclean as [H1 H2].
      apply without_append in H2 as [_ H2].
      apply without_append. split; [exact H1|].
      apply without_append. split; [exact Hfixed | exact H2].
    + pose proof (length_fixArrayContent content) as Hdouble.
      assert (Hp : String.length pattern = String.length content + 2).
      { unfold pattern. rewrite !length_append. cbn [String.length]. lia. }
      assert (Hf : String.length fixed = String.length (fixArrayContent content) + 2).
      { unfold fixed. rewrite !length_append. cbn [String.length]. lia. }
      lia.
Qed.

(** The loop ends on a text without a dollar sign, within as many turns as
    the text is long, and one. *)
Lemma arrayLoop_terminates (fuel : nat) (cleaned : string) (lastIndex : nat) :
  without "$" cleaned ->
  String.length cleaned - lastIndex < fuel ->
  exists r, arrayLoop fuel cleaned lastIndex = Returned r.
Proof.
  revert cleaned lastIndex. induction fuel as [|fuel IH]; intros cleaned lastIndex Hc Hf.
  - lia.
  - cbn [arrayLoop].
    destruct (arrayStep cleaned lastIndex) as [[cleaned' lastIndex']|] eqn:E; [|eauto].
    destruct (arrayStep_progress _ _ _ _ Hc E) as [Hc' Hlt].
    apply IH; [exact Hc' | lia].
Qed.

Lemma cleanupJSON_terminates (fuel : nat) (text : string) :
  without "$" text ->
  String.length (cleanupReplacements text) < fuel ->
  exists r, cleanupJSON fuel text = Returned r.
Proof.
  intros Hc Hf. unfold cleanupJSON. destruct (String.eqb text ""); [eauto|].
  apply arrayLoop_terminates; [now apply cleanupReplacements_clean | lia].
Qed.

Lemma deepCleanJSON_terminates (fuel : nat) (text : string) :
  without "$" text ->
  String.length (cleanupReplacements text) < fuel ->
  exists r, deepCleanJSON fuel text = Returned r.
Proof.
  intros Hc Hf. unfold deepCleanJSON. destruct (String.eqb text ""); [eauto|].
  destruct (cleanupJSON_terminates fuel text Hc Hf) as (r & ->). cbn. eauto.
Qed.

Lemma fencedContent_clean (c : ascii) (text : string) :
  without c text -> without c (fencedContent text).
Proof.
  intros H. unfold fencedContent, match_, exec.
  assert (Hcap : forall r,
            match exec_from r text 0 0 None with
            | Some m' =>
                if negb (String.eqb (capture_text 1 (m_caps m')) "")
                then without c (trim (capture_text 1 (m_caps m'))) else True
            | None => True
            end).
  { intros r. destruct (exec_from r text 0 0 None) as [m|] eqn:E; [|exact I].
    destruct (negb _); [|exact I].
    apply without_trim, capture_text_clean.
    now destruct (exec_from_clean c r text 0 0 None m H E) as (_ & _ & Hcaps). }
  pose proof (Hcap tripleFence) as H3. pose proof (Hcap singleFence) as H1.
  destruct (exec_from tripleFence text 0 0 None) as [m|].
  - destruct (negb (String.eqb (capture_text 1 (m_caps m)) "")); [exact H3|].
    destruct (exec_from singleFence text 0 0 None) as [m'|]; [|exact H].
    destruct (negb (String.eqb (capture_text 1 (m_caps m')) "")); [exact H1 | exact H].
  - destruct (exec_from singleFence text 0 0 None) as [m'|]; [|exact H].
    destruct (negb (String.eqb (capture_text 1 (m_caps m')) "")); [exact H1 | exact H].
Qed.

Lemma attempt_cases (a : Outcome (option JSValue)) (next : Outcome JSValue) :
  a <> OutOfFuel ->
  (exists v, next = Returned v) ->
  exists v, attempt a next = Returned v.
Proof.
  intros Ha (v & ->). destruct a as [[w|]|e|]; cbn; eauto. congruence.
Qed.

Lemma returning_parse (clean : Outcome string) :
  (exists r, clean = Returned r) ->
  returning (obind clean JSON_parse_call) <> OutOfFuel.
Proof.
  intros (r & ->). cbn. unfold JSON_parse_call. destruct (JSON_parse r); discriminate.
Qed.

(** *** Texts without an opening bracket *)

Lemma match_adjacentArrays (s : string) (i : nat) (pv : option ascii) (m : match_result) :
  match_here adjacentArrays s i pv = Some m -> ~ without "[" s.
Proof.
  unfold match_here. intros H.
  destruct (mtch adjacentArrays Some (MState i pv s [])) as [st|] eqn:E; [|discriminate].
  clear H. unfold adjacentArrays, star in E. cbn [mtch rest pos prev caps] in E.
  destruct s as [|d s]; [discriminate|].
  destruct (Ascii.eqb "]" d); [|discriminate].
  unfold advance in E. cbn [mtch rest pos prev caps] in E.
  apply rep_inv in E as (spaces & s2 & -> & _ & _ & E).
  cbn [mtch rest pos prev caps] in E.
  destruct s2 as [|e s2]; [discriminate|].
  destruct (Ascii.eqb "[" e) eqn:He; [|discriminate].
  intros Hw. apply without_cons in Hw as [_ Hw].
  apply without_append in Hw as [_ Hw].
  apply without_cons in Hw as [Hw _]. congruence.
Qed.

Lemma cleanupReplacements_no_bracket (text : string) :
  without "[" text -> without "[" (cleanupReplacements text).
Proof.
  intros H. unfold cleanupReplacements.
  unfold replace at 1. apply replace_go_clean.
  { intros before s i pv m Hs Hm. now destruct (match_adjacentArrays s i pv m Hm). }
  apply replace_clean; [intros cs m b a Hcs Hm; reflexivity|].
  apply replace_clean.
  { intros cs m b a Hcs Hm.
    change (getSubstitution 2 cs m b a "$1$2")
      with (capture_text 1 cs ++ capture_text 2 cs ++ ""). clean_pieces. }
  apply replace_clean; [intros cs m b a Hcs Hm; reflexivity|].
  apply replace_clean.
  { intros cs m b a Hcs Hm.
    change (getSubstitution 2 cs m b a ("$1" ++ quote ++ "$2" ++ quote ++ ":"))
      with (capture_text 1 cs ++ quote ++ capture_text 2 cs ++ quote ++ ":").
    clean_pieces. }
  apply replace_clean; [intros cs m b a Hcs Hm; reflexivity|].
  apply replace_clean; [|exact H].
  intros cs m b a Hcs Hm.
  change (getSubstitution 1 cs m b a "$1") with (capture_text 1 cs ++ ""). clean_pieces.
Qed.

Lemma arrayStep_no_bracket (cleaned : string) (lastIndex : nat) :
  without "[" cleaned -> arrayStep cleaned lastIndex = None.
Proof.
  intros H. unfold arrayStep.
  destruct (exec arrayRegex cleaned lastIndex) as [m|] eqn:Hexec; [|reflexivity].
  destruct (exec_inv _ _ _ _ Hexec) as (a & b & Hs & _ & Hm).
  destruct (match_arrayRegex _ _ _ _ Hm) as (content & rest & -> & _).
  rewrite Hs in H. apply without_append in H as [_ H].
  apply (without_append "[" "[") in H as [H _]. discriminate.
Qed.

Lemma cleanupJSON_no_bracket (fuel : nat) (text : string) :
  without "[" text -> 0 < fuel -> exists r, cleanupJSON fuel text = Returned r.
Proof.
  intros H Hf. unfold cleanupJSON. destruct (String.eqb text ""); [eauto|].
  destruct fuel as [|fuel]; [lia|]. cbn [arrayLoop].
  rewrite arrayStep_no_bracket by now apply cleanupReplacements_no_bracket. eauto.
Qed.

(** The cleanup ends on a text without a dollar sign, and on a text
    without an opening bracket. *)
Lemma cleanupJSON_ends (fuel : nat) (text : string) :
  without "$" text \/ without "[" text ->
  String.length (cleanupReplacements text) < fuel ->
  exists r, cleanupJSON fuel text = Returned r.
Proof.
  intros [H | H] Hf.
  - now apply cleanupJSON_terminates.
  - apply cleanupJSON_no_bracket; [exact H | lia].
Qed.

Lemma deepCleanJSON_ends (fuel : nat) (text : string) :
  without "$" text \/ without "[" text ->
  String.length (cleanupReplacements text) < fuel ->
  exists r, deepCleanJSON fuel text = Returned r.
Proof.
  intros Hc Hf. unfold deepCleanJSON. destruct (String.eqb text ""); [eauto|].
  destruct (cleanupJSON_ends fuel text Hc Hf) as (r & ->). cbn. eauto.
Qed.

(** With enough fuel [extractJSON] ends on a text without a dollar sign or
    without an opening bracket. *)
Lemma extractJSON_ends (fuel : nat) (text : string) :
  without "$" text \/ without "[" text ->
  enoughFuel text <= fuel ->
  exists v, extractJSON fuel (Some text) = Returned v.
Proof.
  intros Hclean Hfuel. unfold enoughFuel in Hfuel.
  unfold extractJSON. destruct (String.eqb text ""); [eauto|].
  assert (Hcontent : without "$" (fencedContent text) \/ without "[" (fencedContent text)).
  { destruct Hclean as [H | H]; [left | right]; now apply fencedContent_clean. }
  assert (H : exists v,
            attempt (returning (JSON_parse_call (fencedContent text)))
              (attempt (returning (obind (cleanupJSON fuel (fencedContent text))
                                     JSON_parse_call))
                 (attempt (returning (obind (deepCleanJSON fuel (fencedContent text))
                                        JSON_parse_call))
                    (attempt
                       (match match_ jsonPattern text with
                        | Some m =>
                            returning (obind (deepCleanJSON fuel (m_text m)) JSON_parse_call)
                        | None => Returned None
                        end)
                       (attempt
                          (if test objectLiteral (fencedContent text)
                              && negb (test unsafeCode (fencedContent text))
                           then
                             returning
                               (JSON_parse_call
                                  (replace trailingComma 1 "$1"
                                     (replace singleQuote 0 quote
                                        (replace unquotedKey 2
                                           ("$1" ++ quote ++ "$2" ++ quote ++ ":")
                                           (fencedContent text)))))
                           else Returned None)
                          (Returned JNull)))))
            = Returned v).
  { apply attempt_cases.
    { unfold JSON_parse_call. destruct (JSON_parse (fencedContent text)); discriminate. }
    apply attempt_cases.
    { apply returning_parse, cleanupJSON_ends; [exact Hcontent | lia]. }
    apply attempt_cases.
    { apply returning_parse, deepCleanJSON_ends; [exact Hcontent | lia]. }
    apply attempt_cases.
    { destruct (match_ jsonPattern text) as [m|] eqn:Hm; [|discriminate].
      apply returning_parse, deepCleanJSON_ends; [|lia].
      unfold match_, exec in Hm.
      destruct Hclean as [H | H]; [left | right];
        now destruct (exec_from_clean _ jsonPattern text 0 0 None m H Hm). }
    apply attempt_cases; [|eauto].
    destruct (test objectLiteral (fencedContent text)
              && negb (test unsafeCode (fencedContent text))); [|discriminate].
    unfold JSON_parse_call. destruct (JSON_parse _); discriminate. }
  destruct H as (v & Hv). exists v. now rewrite Hv.
Qed.


(** X17.  [extractJSON] terminates on every text without a dollar sign, and
    on every text without an opening bracket: with enough fuel for the
    array loop (the length of the text after the replacements of the
    cleanup, and one) it returns a value, null when nothing can be read.
    The loop can only run on when the text holds an array and a dollar
    sign. *)
Theorem extractJSON_terminates :
  forall (text : string),
    without "$" text \/ without "[" text ->
    forall fuel, enoughFuel text <= fuel ->
    exists v, extractJSON fuel (Some text) = Returned v.
Proof.
  intros text Hclean fuel Hfuel.
  destruct (extractJSON_ends fuel text Hclean Hfuel) as (v & Hv).
  exists v. exact Hv.
Qed.

Lemma extractJSON_terminates_witness :
  exists v, extractJSON 20 (Some "[1 2 3]") = Returned v.
Proof.
  apply (extractJSON_terminates "[1 2 3]"); [left; reflexivity|].
  vm_compute. lia.
Defined.

(* ===================================================================== *)
(** * The fallback of generateComprehensiveRoadmap (C1) *)
(* ===================================================================== *)

(** What [generateComprehensiveRoadmap] resolves with from its catch, for
    a reply of the model read as [parsed]. *)
Lemma llmFallbackRoadmap_result (W : World) (fuel : nat) (topic : string)
    (options : Options) (st st1 : State) (e reply : string) (parsed : JSValue) :
  webEnhancedRoadmap W fuel topic options st = (Thrown e, st1) ->
  llm W (calls st1) (fallbackPrompt topic options) = Ok reply ->
  extractJSON fuel (Some reply) = Returned parsed ->
  exists r,
    generateComprehensiveRoadmap W fuel topic options st
    = (Returned r, mkState (S (calls st1)) (roadmaps st1))
    /\ fallbackResult topic options parsed r.
Proof.
  intros Hweb Hreply Hparsed.
  unfold generateComprehensiveRoadmap.
  rewrite (try_catch_thrown _ _ _ _ _ Hweb).
  unfold llmFallbackRoadmap, generateFallbackRoadmap, bind, chat, lift.
  fold (fallbackPrompt topic options). rewrite Hreply, Hparsed.
  unfold fallbackResult.
  destruct (truthy parsed) eqn:Ht; cbn [negb].
  - unfold ret at 1.
    destruct (countSteps_truthy parsed (mkState (S (calls st1)) (roadmaps st1)) Ht)
      as (n & ->).
    unfold ret. eexists. split; [reflexivity|]. simpl.
    repeat split; discriminate.
  - unfold ret. cbn [countSteps]. eexists. split; [reflexivity|]. simpl. repeat split.
Qed.

(** C1 (as the code has it).  When the web-enhanced path throws, the
    fallback asks the model once more.  If that call answers with a reply
    that has no dollar sign or no opening bracket, [extractJSON] returns
    (with the fuel its array loop needs) and the function resolves with the
    methodology llm-fallback, no sources and the warning; the roadmap is
    the parsed value if it is truthy, as it is, and otherwise the basic
    structure: one step, Introduction to the topic, of type theory and of
    the requested level.  The same holds for every other reply on which
    [extractJSON] returns.  If that call fails, the function rejects with
    its error. *)
Theorem generateComprehensiveRoadmap_fallback :
  forall (W : World) (fuel : nat) (topic : string) (options : Options)
         (st st1 : State) (e : string),
    webEnhancedRoadmap W fuel topic options st = (Thrown e, st1) ->
    (forall reply,
        llm W (calls st1) (fallbackPrompt topic options) = Ok reply ->
        without "$" reply \/ without "[" reply ->
        enoughFuel reply <= fuel ->
        exists parsed r,
          extractJSON fuel (Some reply) = Returned parsed
          /\ generateComprehensiveRoadmap W fuel topic options st
             = (Returned r, mkState (S (calls st1)) (roadmaps st1))
          /\ fallbackResult topic options parsed r)
    /\ (forall reply parsed,
          llm W (calls st1) (fallbackPrompt topic options) = Ok reply ->
          extractJSON fuel (Some reply) = Returned parsed ->
          exists r,
            generateComprehensiveRoadmap W fuel topic options st
            = (Returned r, mkState (S (calls st1)) (roadmaps st1))
            /\ fallbackResult topic options parsed r)
    /\ (forall e',
          llm W (calls st1) (fallbackPrompt topic options) = Failed e' ->
          generateComprehensiveRoadmap W fuel topic options st
          = (Thrown ("Failed to connect to OpenRouter: " ++ e'),
             mkState (S (calls st1)) (roadmaps st1))).
Proof.
  intros W fuel topic options st st1 e Hweb. split; [|split].
  - intros reply Hreply Hclass Hfuel.
    destruct (extractJSON_ends fuel reply Hclass Hfuel) as (parsed & Hparsed).
    destruct (llmFallbackRoadmap_result W fuel topic options st st1 e reply parsed
                Hweb Hreply Hparsed) as (r & Hrun & Hr).
    exists parsed, r. auto.
  - intros reply parsed Hreply Hparsed.
    exact (llmFallbackRoadmap_result W fuel topic options st st1 e reply parsed
             Hweb Hreply Hparsed).
  - intros e' Hreply. unfold generateComprehensiveRoadmap.
    rewrite (try_catch_thrown _ _ _ _ _ Hweb).
    unfold llmFallbackRoadmap, generateFallbackRoadmap, bind, chat, lift.
    fold (fallbackPrompt topic options). rewrite Hreply. reflexivity.
Qed.

(** C1, the claim as stated fails: the fallback reply is an empty object,
    which is returned as the roadmap, without a step; and with the model
    down the function rejects. *)
Lemma fallback_without_steps :
  generateComprehensiveRoadmap (degradedWorld "{}") 10 "Quantum Knitting"
    beginnerOptions initialState
  = (Returned
       (mkComprehensiveRoadmap "Quantum Knitting" "4-weeks" "beginner" 30
          (JObj []) [] "llm-fallback" (JNum 0)
          (Some "Generated without web sources due to connectivity issues")),
     mkState 2 [])
  /\ generateComprehensiveRoadmap quietWorld 10 "Quantum Knitting"
       beginnerOptions initialState
     = (Thrown "Failed to connect to OpenRouter: fetch failed", mkState 2 []).
Proof. split; vm_compute; reflexivity. Qed.

Lemma generateComprehensiveRoadmap_fallback_witness :
  exists r,
    generateComprehensiveRoadmap (degradedWorld "I cannot help with that.") 40
      "Quantum Knitting" beginnerOptions initialState
    = (Returned r, mkState 2 [])
    /\ methodology r = "llm-fallback"
    /\ sources r = []
    /\ warning r = Some "Generated without web sources due to connectivity issues"
    /\ roadmap r = basicStructure "Quantum Knitting" beginnerOptions
    /\ get_prop (roadmap r) "steps"
       = inl (JArr [introductionStep "Quantum Knitting" beginnerOptions])
    /\ totalSteps r = JNum 1.
Proof.
  destruct (generateComprehensiveRoadmap_fallback
              (degradedWorld "I cannot help with that.") 40 "Quantum Knitting"
              beginnerOptions initialState (mkState 1 [])
              "Failed to connect to OpenRouter: timeout")
    as [Hreply _]; [vm_compute; reflexivity|].
  destruct (Hreply "I cannot help with that.")
    as (parsed & r & Hparsed & Hrun & Hm & Hs & Hw & Hr & Hskeleton);
    [reflexivity | left; reflexivity | vm_compute; lia |].
  vm_compute in Hparsed. injection Hparsed as <-.
  exists r. destruct (Hskeleton eq_refl) as [Hsteps Htotal].
  repeat split; assumption.
Defined.

(* ===================================================================== *)
(** * The threshold of the compare-resources handler *)
(* ===================================================================== *)

(** X26.  For a body whose urls are an array of texts, the handler scrapes
    every URL, and each resource is the record of its URL.  It counts the
    resources whose error is falsy: those of the scrapes that succeeded, and
    those of the scrapes that failed with an empty message.  With two or
    more it sends the model one message, made of the topic and of the
    number, title, URL, summary and word count of each of them: when that
    call fails the error is forwarded; when the model replies, the answer
    has success true, the topic (Learning Resources by default), all the
    resources, the value extractJSON gives for the reply (the empty object
    when that value is falsy) and the count.  With fewer than two it asks
    nothing and answers success false with the resources, no comparison and
    the message that there are not enough valid resources. *)
Theorem compareResources_threshold :
  forall (W : World) (fuel : nat) (urls : list string) (topic : option string)
         (st : State),
  exists resources st1,
    let valid := filter noError resources in
    let prompt := comparisonPrompt (with_default topic "Learning Resources") valid in
    scrapeResources W urls st = (Returned resources, st1)
    /\ Forall2 (fun url r =>
                  exists sc, r = Scraped sc /\ recordOf W url sc
                             /\ (noError r = true
                                  <-> scrapeSucceeds W url \/ scrapeFails W url ""))
         urls resources
    /\ (2 <= List.length valid ->
        (forall e, llm W (calls st1) prompt = Failed e ->
           compareResources W fuel urls topic st
           = (Returned (Next ("Failed to connect to OpenRouter: " ++ e)), afterCall st1))
        /\ (forall reply v,
              llm W (calls st1) prompt = Ok reply ->
              extractJSON fuel (Some reply) = Returned v ->
              compareResources W fuel urls topic st
              = (Returned (compared (with_default topic "Learning Resources") resources
                             (or_else v (JObj []))),
                 afterCall st1))
        /\ (forall reply,
              llm W (calls st1) prompt = Ok reply ->
              without "$" reply \/ without "[" reply ->
              enoughFuel reply <= fuel ->
              exists v,
                compareResources W fuel urls topic st
                = (Returned (compared (with_default topic "Learning Resources") resources
                               (or_else v (JObj []))),
                   afterCall st1)))
    /\ (List.length valid < 2 ->
        compareResources W fuel urls topic st
        = (Returned (Json (mkResponse false None resources None None
                             "Not enough valid resources to compare")),
           st1)).
Proof.
  intros W fuel urls topic st.
  destruct (scrapeResources_records W urls st) as (resources & st1 & Hrun & Hrec).
  exists resources, st1. cbv zeta. split; [exact Hrun|]. split.
  { clear Hrun. induction Hrec as [|url r urls' rs (sc & -> & Hsc) _ IH]; constructor.
    - exists sc. split; [reflexivity|]. split; [exact Hsc|].
      now apply noError_iff_scraped.
    - exact IH. }
  unfold compareResources, try_catch, bind. rewrite Hrun.
  split.
  - intros Hvalid. apply Nat.leb_le in Hvalid. rewrite Hvalid.
    unfold compareValid, bind, chat, lift, ret, comparisonPrompt, compared, afterCall.
    split; [|split].
    + intros e He. rewrite He. reflexivity.
    + intros reply v Hreply Hv. rewrite Hreply, Hv. reflexivity.
    + intros reply Hreply Hclean Hfuel.
      destruct (extractJSON_ends fuel reply Hclean Hfuel) as (v & Hv).
      exists v. rewrite Hreply, Hv. reflexivity.
  - intros Hvalid. apply Nat.leb_gt in Hvalid. rewrite Hvalid. reflexivity.
Qed.

Lemma compareResources_threshold_witness :
  compareResources quietWorld 10 twoUrls None initialState
  = (Returned (Json (mkResponse false None
                       [ Scraped (scrapeFailure "https://a.example/" "Resource 1"
                                    "getaddrinfo ENOTFOUND");
                         Scraped (scrapeFailure "https://b.example/" "Resource 2"
                                    "getaddrinfo ENOTFOUND") ]
                       None None "Not enough valid resources to compare")),
     initialState)
  /\ (exists resources st1,
        scrapeResources longPageWorld twoUrls initialState = (Returned resources, st1)
        /\ List.length (filter noError resources) = 2
        /\ compareResources longPageWorld 40 twoUrls None initialState
           = (Returned (compared "Learning Resources" resources (JObj [])), afterCall st1)).
Proof.
  split.
  - destruct (compareResources_threshold quietWorld 10 twoUrls None initialState)
      as (resources & st1 & Hrun & _ & _ & Hfew).
    cbv zeta in *.
    assert (H : (Returned resources, st1)
                = scrapeResources quietWorld twoUrls initialState)
      by (symmetry; exact Hrun).
    vm_compute in H. injection H as Hres Hst. subst resources st1.
    apply Hfew. cbn. lia.
  - destruct (compareResources_threshold longPageWorld 40 twoUrls None initialState)
      as (resources & st1 & Hrun & _ & Hmany & _).
    cbv zeta in *.
    assert (H : (Returned resources, st1)
                = scrapeResources longPageWorld twoUrls initialState)
      by (symmetry; exact Hrun).
    vm_compute in H. injection H as Hres Hst.
    assert (Hvalid : List.length (filter noError resources) = 2)
      by (rewrite Hres; reflexivity).
    exists resources, st1. split; [exact Hrun|]. split; [exact Hvalid|].
    destruct Hmany as (_ & Hreply & _); [rewrite Hvalid; lia|].
    apply (Hreply "A page about the letter a." JNull); [reflexivity|].
    vm_compute. reflexivity.
Defined.

(* ===================================================================== *)
(** * Bracket balancing and fenced replies *)
(* ===================================================================== *)

(** ** Brackets *)

Lemma count_char_repeat (c d : ascii) (n : nat) :
  count_char c (repeat_str (str1 d) n) = if Ascii.eqb c d then n else 0.
Proof.
  induction n as [|n IH]; simpl; [now destruct (Ascii.eqb c d)|].
  rewrite IH. destruct (Ascii.eqb c d); lia.
Qed.

Lemma balanceBrackets_cases (str : string) :
  (count_char "}" str <= count_char "{" str
   /\ count_char "]" str <= count_char "[" str
   /\ balanceBrackets str
      = (str ++ repeat_str "}" (count_char "{" str - count_char "}" str))
          ++ repeat_str "]" (count_char "[" str - count_char "]" str))
  \/ ((count_char "{" str < count_char "}" str \/ count_char "[" str < count_char "]" str)
      /\ balanceBrackets str = str).
Proof.
  unfold balanceBrackets.
  destruct (count_char "{" str <? count_char "}" str
              + (count_char "{" str - count_char "}" str)) eqn:E1.
  - apply Nat.ltb_lt in E1. right. split; [left; lia | reflexivity].
  - apply Nat.ltb_ge in E1.
    destruct (count_char "[" str <? count_char "]" str
                + (count_char "[" str - count_char "]" str)) eqn:E2.
    + apply Nat.ltb_lt in E2. right. split; [right; lia | reflexivity].
    + apply Nat.ltb_ge in E2. left. cbn [orb]. repeat split; lia.
Qed.

(** X15.  [balanceBrackets] only ever appends closing braces and brackets:
    the text it is given is the beginning of its result.  When the text
    has no closing brace or bracket in excess, the result has as many
    closing braces as opening ones and as many closing brackets as opening
    ones; when it has one in excess, of either kind, the text is returned
    as it is, the missing closers of the other kind included.  Balancing
    twice is balancing once. *)
Theorem balanceBrackets_counts :
  forall (str : string),
    (exists braces brackets,
       balanceBrackets str = str ++ repeat_str "}" braces ++ repeat_str "]" brackets)
    /\ (count_char "}" str <= count_char "{" str ->
        count_char "]" str <= count_char "[" str ->
        count_char "}" (balanceBrackets str) = count_char "{" (balanceBrackets str)
        /\ count_char "]" (balanceBrackets str) = count_char "[" (balanceBrackets str))
    /\ (count_char "{" str < count_char "}" str \/ count_char "[" str < count_char "]" str ->
        balanceBrackets str = str)
    /\ balanceBrackets (balanceBrackets str) = balanceBrackets str.
Proof.
  intros str.
  assert (Hcount : forall c,
    count_char c ((str ++ repeat_str "}" (count_char "{" str - count_char "}" str))
                    ++ repeat_str "]" (count_char "[" str - count_char "]" str))
    = count_char c str
      + (if Ascii.eqb c "}" then count_char "{" str - count_char "}" str else 0)
      + (if Ascii.eqb c "]" then count_char "[" str - count_char "]" str else 0)).
  { intros c. rewrite !count_char_append.
    change "}" with (str1 "}"). change "]" with (str1 "]").
    now rewrite !count_char_repeat. }
  destruct (balanceBrackets_cases str) as [(Hb & Hk & Hrun) | (Hexcess & Hrun)].
  - rewrite Hrun. split; [|split; [|split]].
    + eexists _, _. apply append_assoc.
    + intros _ _. rewrite !Hcount. cbn [Ascii.eqb Bool.eqb]. lia.
    + lia.
    + destruct (balanceBrackets_cases
                  ((str ++ repeat_str "}" (count_char "{" str - count_char "}" str))
                     ++ repeat_str "]" (count_char "[" str - count_char "]" str)))
        as [(_ & _ & Hagain) | (_ & Hagain)]; [|exact Hagain].
      rewrite Hagain, !Hcount. cbn [Ascii.eqb Bool.eqb].
      replace (count_char "{" str + 0 + 0
               - (count_char "}" str + (count_char "{" str - count_char "}" str) + 0))
        with 0 by lia.
      replace (count_char "[" str + 0 + 0
               - (count_char "]" str + 0 + (count_char "[" str - count_char "]" str)))
        with 0 by lia.
      cbn [repeat_str]. now rewrite !append_nil_r.
  - rewrite Hrun. split; [|split; [|split]].
    + exists 0, 0. cbn. now rewrite append_nil_r.
    + lia.
    + reflexivity.
    + exact Hrun.
Qed.

(* ===================================================================== *)
(** * extractJSON on a fenced reply *)
(* ===================================================================== *)

Lemma match_here_tripleFence_other (d : ascii) (s : string) (i : nat) (pv : option ascii) :
  Ascii.eqb "`" d = false -> match_here tripleFence (String d s) i pv = None.
Proof.
  intros Hd. unfold match_here, tripleFence. cbn [mtch rest lit_i].
  now rewrite (lower_char_backtick d Hd).
Qed.

(** The search passes over a text without a backtick. *)
Lemma search_tripleFence_skip (pre s : string) (i : nat) (pv : option ascii) :
  count_char "`" pre = 0 ->
  search tripleFence (pre ++ String "`" s) i pv
  = search tripleFence (String "`" s) (i + String.length pre) (prevAfter pv pre).
Proof.
  revert i pv. induction pre as [|d pre IH]; intros i pv H.
  - cbn [append String.length prevAfter]. now rewrite Nat.add_0_r.
  - apply count_char_cons in H as [Hd Hpre].
    cbn [append]. cbn [search]. rewrite (match_here_tripleFence_other d _ i pv Hd).
    rewrite IH by assumption. cbn [String.length prevAfter].
    now rewrite Nat.add_succ_r.
Qed.

(** A literal, read without regard to case. *)
Lemma mtch_lit_i_word (word tag s : string) (k : cont) (i : nat) (pv : option ascii)
    (cs : captures) :
  toLowerCase tag = toLowerCase word ->
  mtch (lit_i word) k (MState i pv (tag ++ s) cs)
  = match tag with
    | EmptyString => k (MState i pv s cs)
    | _ => k (MState (i + String.length tag) (prevAfter pv tag) s cs)
    end.
Proof.
  revert tag i pv. induction word as [|c word IH]; intros tag i pv H.
  - destruct tag; [reflexivity | discriminate].
  - destruct tag as [|d tag]; [discriminate|].
    cbn in H. injection H as Hc Hrest.
    cbn [lit_i mtch append rest]. rewrite <- Hc, Ascii.eqb_refl.
    unfold advance. cbn [pos caps].
    rewrite (IH tag (S i) (Some d) Hrest).
    destruct tag; cbn [String.length prevAfter].
    + now rewrite Nat.add_1_r.
    + now rewrite (Nat.add_succ_r i).
Qed.

Lemma mtch_lit_i_fails (word s : string) (k : cont) (i : nat) (pv : option ascii)
    (cs : captures) :
  startsWith (toLowerCase word) (toLowerCase s) = false ->
  mtch (lit_i word) k (MState i pv s cs) = None.
Proof.
  revert s i pv. induction word as [|c word IH]; intros s i pv H; [discriminate|].
  cbn [lit_i mtch rest]. destruct s as [|d s]; [reflexivity|].
  cbn in H. destruct (Ascii.eqb (lower_char c) (lower_char d)); [|reflexivity].
  unfold advance. now apply IH.
Qed.

(** The lazy star reads on until its continuation succeeds. *)
Lemma rep_lazy_skip (k : cont) (body tail : string) (i : nat) (pv : option ascii)
    (cs : captures) :
  (forall c s' i' pv', In c (list_ascii_of_string body) ->
     k (MState i' pv' (String c s') cs) = None) ->
  rep false any_char k 0 (body ++ tail) i pv cs
  = rep false any_char k 0 tail (i + String.length body) (prevAfter pv body) cs.
Proof.
  revert i pv. induction body as [|c body IH]; intros i pv Hk.
  - cbn [append String.length prevAfter]. now rewrite Nat.add_0_r.
  - cbn [append rep any_char pred].
    rewrite (Hk c (body ++ tail) i pv) by now left.
    rewrite IH; [cbn [String.length prevAfter]; now rewrite Nat.add_succ_r|].
    intros c' s' i' pv' Hin. apply Hk. now right.
Qed.

Lemma In_count_char (c d : ascii) (s : string) :
  count_char c s = 0 -> In d (list_ascii_of_string s) -> Ascii.eqb c d = false.
Proof.
  induction s as [|e s IH]; simpl; [tauto|].
  intros H [<- | Hin].
  - destruct (Ascii.eqb c e); [discriminate | reflexivity].
  - apply IH; [|exact Hin]. destruct (Ascii.eqb c e); [discriminate | exact H].
Qed.

(** The body of a fence and its closing, from the state where it begins. *)
Lemma mtch_fence_body (body post : string) (i : nat) (pv : option ascii) :
  count_char "`" body = 0 ->
  exists st,
    mtch (Seq (Grp 1 (star_lazy any_char)) (lit_i "```")) Some
      (MState i pv (body ++ "```" ++ post) [])
    = Some st
    /\ caps st = [(1, body)].
Proof.
  intros Hbody. cbn [mtch star_lazy rest pos prev caps].
  rewrite rep_lazy_skip.
  - cbn [append rep any_char pred mtch lit_i rest].
    rewrite !Ascii.eqb_refl. unfold advance. cbn [pos prev rest caps mtch].
    eexists. split; [reflexivity|]. cbn [caps].
    f_equal. f_equal. unfold consumed.
    rewrite length_append, Nat.add_sub.
    apply take_append.
  - intros c s' i' pv' Hin. cbn [mtch lit_i rest pos prev caps].
    now rewrite (lower_char_backtick c (In_count_char "`" c body Hbody Hin)).
Qed.

Lemma startsWith_before_backtick (p body x : string) :
  count_char "`" p = 0 ->
  startsWith p (toLowerCase body) = false ->
  startsWith p (toLowerCase (body ++ String "`" x)) = false.
Proof.
  revert body. induction p as [|a p IH]; intros body Hp H; [discriminate|].
  apply count_char_cons in Hp as [Ha Hp].
  destruct body as [|d body]; cbn [startsWith toLowerCase append] in *.
  - change (lower_char "`") with "`"%char. rewrite Ascii.eqb_sym. now rewrite Ha.
  - destruct (Ascii.eqb a (lower_char d)); [now apply IH | reflexivity].
Qed.

Lemma match_here_tripleFence (tag body post : string) (i : nat) (pv : option ascii) :
  fenceTag tag body ->
  count_char "`" body = 0 ->
  exists m,
    match_here tripleFence ("```" ++ tag ++ body ++ "```" ++ post) i pv = Some m
    /\ m_caps m = [(1, body)].
Proof.
  intros Htag Hbody.
  set (inside := Seq (Grp 1 (star_lazy any_char)) (lit_i "```")).
  assert (H : exists st,
             mtch tripleFence Some (MState i pv ("```" ++ tag ++ body ++ "```" ++ post) [])
             = Some st /\ caps st = [(1, body)]).
  { change (mtch tripleFence Some
              (MState i pv ("```" ++ tag ++ body ++ "```" ++ post) []))
      with (mtch (lit_i "```")
              (fun st => match mtch (lit_i "json") (mtch inside Some) st with
                         | Some x => Some x
                         | None => mtch inside Some st
                         end)
              (MState i pv ("```" ++ tag ++ body ++ "```" ++ post) [])).
    rewrite (mtch_lit_i_word "```" "```") by reflexivity. cbv iota.
    destruct Htag as [Hjson | [-> Hplain]].
    - rewrite (mtch_lit_i_word "json" tag) by exact Hjson.
      destruct tag as [|t tag]; [discriminate|].
      destruct (mtch_fence_body body post
                  (i + String.length "```" + String.length (String t tag))
                  (prevAfter (prevAfter pv "```") (String t tag)) Hbody)
        as (st & Hst & Hcaps).
      fold inside in Hst. rewrite Hst. eauto.
    - cbn [append].
      rewrite mtch_lit_i_fails
        by (apply (startsWith_before_backtick "json" body ("``" ++ post));
            [reflexivity | exact Hplain]).
      apply mtch_fence_body; exact Hbody. }
  destruct H as (st & Hst & Hcaps).
  unfold match_here. rewrite Hst. eexists. split; [reflexivity | exact Hcaps].
Qed.

Lemma fencedContent_fenced (pre tag body post : string) :
  count_char "`" pre = 0 ->
  count_char "`" body = 0 ->
  fenceTag tag body ->
  body <> "" ->
  fencedContent (pre ++ "```" ++ tag ++ body ++ "```" ++ post) = trim body.
Proof.
  intros Hpre Hbody Htag Hne.
  unfold fencedContent, match_, exec. cbn [exec_from].
  change (pre ++ "```" ++ tag ++ body ++ "```" ++ post)
    with (pre ++ String "`" ("``" ++ tag ++ body ++ "```" ++ post)).
  rewrite search_tripleFence_skip by exact Hpre.
  cbn [search].
  destruct (match_here_tripleFence tag body post (0 + String.length pre)
              (prevAfter None pre) Htag Hbody) as (m & Hm & Hcaps).
  change (String "`" ("``" ++ tag ++ body ++ "```" ++ post))
    with ("```" ++ tag ++ body ++ "```" ++ post).
  rewrite Hm, Hcaps. cbn [capture_text capture Nat.eqb].
  apply String.eqb_neq in Hne. now rewrite Hne.
Qed.

(** X16.  The reply in its usual shape: some prose without a backtick, a
    fence of three backticks with or without the word json, the JSON, the
    closing fence, and anything after it.  When the text inside the fence
    has no backtick and, once trimmed, is well-formed JSON, [extractJSON]
    returns the value of [JSON.parse] on it, by the direct parse: no
    repair tier is run, whatever the fuel. *)
Theorem extractJSON_fenced :
  forall (fuel : nat) (pre tag body post : string) (v : JSValue),
    count_char "`" pre = 0 ->
    count_char "`" body = 0 ->
    fenceTag tag body ->
    JSON_parse (trim body) = Some v ->
    extractJSON fuel (Some (pre ++ "```" ++ tag ++ body ++ "```" ++ post)) = Returned v.
Proof.
  intros fuel pre tag body post v Hpre Hbody Htag Hparse.
  assert (Hne : body <> "") by (intros ->; discriminate Hparse).
  unfold extractJSON.
  assert (Htext : String.eqb (pre ++ "```" ++ tag ++ body ++ "```" ++ post) "" = false)
    by (destruct pre; reflexivity).
  rewrite Htext, (fencedContent_fenced pre tag body post Hpre Hbody Htag Hne).
  unfold JSON_parse_call. rewrite Hparse. reflexivity.
Qed.

Lemma extractJSON_fenced_witness :
  extractJSON 0
    (Some ("Sure." ++ newline ++ "```JSON" ++ (newline ++ "[1, 2]" ++ newline) ++ "```"
             ++ " Done."))
  = Returned (JArr [JNum 1; JNum 2]).
Proof.
  apply (extractJSON_fenced 0 ("Sure." ++ newline) "JSON" (newline ++ "[1, 2]" ++ newline)
           " Done." (JArr [JNum 1; JNum 2])).
  - reflexivity.
  - reflexivity.
  - left. reflexivity.
  - reflexivity.
Defined.

(* ===================================================================== *)
(** * Research roadmaps without steps *)
(* ===================================================================== *)

Lemma countSteps_returned (v n : JSValue) (st st' : State) :
  countSteps v st = (Returned n, st') ->
  get_prop v "steps" = inl (get_prop_opt v "steps").
Proof.
  unfold countSteps, get_prop_opt. destruct (get_prop v "steps"); [reflexivity|].
  unfold throw. discriminate.
Qed.

Lemma generateComprehensiveRoadmap_steps (W : World) (fuel : nat) (topic : string)
    (options : Options) (st st' : State) (comp : ComprehensiveRoadmap) :
  generateComprehensiveRoadmap W fuel topic options st = (Returned comp, st') ->
  get_prop (roadmap comp) "steps" = inl (get_prop_opt (roadmap comp) "steps").
Proof.
  unfold generateComprehensiveRoadmap, try_catch.
  destruct (webEnhancedRoadmap W fuel topic options st) as [[r|e|] s] eqn:Hweb.
  - intros H. injection H as <- <-. revert Hweb.
    unfold webEnhancedRoadmap, bind.
    destruct (performWebSearch W topic 8 st) as [[results|?|] s1]; try discriminate.
    destruct (allSettled _ s1) as [[scraped|?|] s2]; try discriminate.
    destruct (generateRoadmapWithSources W fuel topic _ options s2)
      as [[v|?|] s3]; try discriminate.
    destruct (countSteps v s3) as [[n|?|] s4] eqn:Hn; try discriminate.
    unfold ret. intros H. injection H as <- _. cbn [roadmap].
    exact (countSteps_returned _ _ _ _ Hn).
  - unfold llmFallbackRoadmap, bind.
    destruct (generateFallbackRoadmap W fuel topic options s) as [[v|?|] s3];
      try discriminate.
    destruct (countSteps v s3) as [[n|?|] s4] eqn:Hn; try discriminate.
    unfold ret. intros H. injection H as <- _. cbn [roadmap].
    exact (countSteps_returned _ _ _ _ Hn).
  - discriminate.
Qed.

(** X18.  What the research path does with a roadmap whose steps are not
    an array.  Without steps (undefined or null) nothing fails: the
    roadmap of the user is replaced by one without a step, and the model is
    not asked again.  With steps of another type the conversion throws, and
    the function goes on with the basic path, from the state the research
    agent has left.  The research agent itself writes no roadmap. *)
Theorem generateRoadmapWithLLM_without_steps :
  forall (W : World) (fuel : nat) (user : string) (p : Profile)
         (comp : ComprehensiveRoadmap) (st st1 : State),
    findProfile W user = Some p ->
    skill p <> "" ->
    generateComprehensiveRoadmap W fuel (skill p) (researchOptions p) st
    = (Returned comp, st1) ->
    (forall items, get_prop_opt (roadmap comp) "steps" <> JArr items) ->
    roadmaps st1 = roadmaps st
    /\ generateRoadmapWithLLM W fuel user true st
       = if isNullish (get_prop_opt (roadmap comp) "steps")
         then (Returned (emptyRoadmap user),
               mkState (calls st1)
                 ((user, emptyRoadmap user) :: otherUsers user (roadmaps st)))
         else basicRoadmap W fuel user (Some p) (findBank W user) st1.
Proof.
  intros W fuel user p comp st st1 Hprofile Hskill Hcomp Hsteps.
  assert (Hquiet : roadmaps st1 = roadmaps st).
  { pose proof (quiet_generateComprehensiveRoadmap W fuel (skill p) (researchOptions p) st)
      as [H _]. now rewrite Hcomp in H. }
  split; [exact Hquiet|].
  pose proof (generateComprehensiveRoadmap_steps _ _ _ _ _ _ _ Hcomp) as Hread.
  unfold generateRoadmapWithLLM. rewrite Hprofile.
  apply String.eqb_neq in Hskill. rewrite Hskill. cbn [andb negb].
  unfold try_catch, researchRoadmap, bind, lift, prop. rewrite Hcomp, Hread.
  destruct (get_prop_opt (roadmap comp) "steps") as [| |b|q|s|items|fields] eqn:Hv;
    cbn [normalizeSteps isNullish]; try reflexivity.
  - unfold upsertRoadmap, emptyRoadmap, otherUsers. cbn. now rewrite Hquiet.
  - unfold upsertRoadmap, emptyRoadmap, otherUsers. cbn. now rewrite Hquiet.
  - now destruct (Hsteps items).
Qed.

Lemma generateRoadmapWithLLM_without_steps_witness :
  exists doc st',
    generateRoadmapWithLLM terseWorld 10 "u1" true oneRoadmap = (Returned doc, st')
    /\ steps doc = []
    /\ roadmaps st' = [("u1", doc); ("u2", mkRoadmapDoc "u2" [ dayStep 1 "Hooks" [] ])]
    /\ calls st' = 1.
Proof.
  destruct (generateComprehensiveRoadmap terseWorld 10 "React" (researchOptions learner)
              oneRoadmap) as [[comp| |] st1] eqn:Hcomp;
    try (vm_compute in Hcomp; discriminate).
  assert (Hne : skill learner <> "") by discriminate.
  destruct (generateRoadmapWithLLM_without_steps terseWorld 10 "u1" learner comp
              oneRoadmap st1 eq_refl Hne Hcomp) as [_ Hrun].
  - vm_compute in Hcomp. injection Hcomp as <- <-. intros items. vm_compute. discriminate.
  - vm_compute in Hcomp. injection Hcomp as <- <-.
    eexists _, _. split; [exact Hrun|]. repeat split.
Defined.

(* ===================================================================== *)
(** * Resumes: processResume *)
(* ===================================================================== *)

Lemma extractTextFromResume_run (F : Files) (filePath fileType : string) (st : State) :
  extractTextFromResume F filePath fileType st = (resumeTextOf F filePath fileType, st).
Proof.
  unfold extractTextFromResume, resumeTextOf, try_catch, bind, await, ret, throw.
  destruct (readFile F filePath) as [buffer|e]; [|reflexivity].
  destruct (String.eqb fileType "pdf") eqn:Hpdf.
  - destruct (pdfParse F buffer); reflexivity.
  - destruct (String.eqb fileType "docx") eqn:Hdocx.
    + apply String.eqb_eq in Hdocx. subst fileType. cbn [String.eqb Ascii.eqb Bool.eqb orb].
      destruct (extractRawText F buffer); reflexivity.
    + rewrite orb_false_r. destruct (String.eqb fileType "doc") eqn:Hdoc; [|reflexivity].
      apply String.eqb_eq in Hdoc. subst fileType. reflexivity.
Qed.

Lemma extractJSON_not_thrown (fuel : nat) (text : option string) (e : string) :
  extractJSON fuel text <> Thrown e.
Proof.
  unfold extractJSON. destruct text as [text|]; [|discriminate].
  destruct (String.eqb text ""); [discriminate|].
  match goal with |- context [otry ?b _] => destruct b end; simpl; discriminate.
Qed.

Lemma startsWith_prefix (p s : string) : startsWith p (p ++ s) = true.
Proof. apply startsWith_append. Qed.

(** The part of [processResume] that follows the extraction. *)
Lemma processResume_run (F : Files) (W : World) (fuel : nat)
    (filePath fileType text : string) (st : State) :
  resumeTextOf F filePath fileType = Returned text ->
  exists outcome,
    processResume F W fuel filePath fileType st = (outcome, afterCall st)
    /\ match outcome with
       | Returned v => truthy v = true
       | Thrown e => startsWith "Failed to process resume: " e = true
       | OutOfFuel => True
       end
    /\ forall reply v,
         llm W (calls st) (generateStructuredPrompt text) = Ok reply ->
         extractJSON fuel (Some reply) = Returned v ->
         truthy v = true ->
         outcome = Returned v.
Proof.
  intros Htext. unfold processResume, try_catch at 1, bind at 1.
  rewrite extractTextFromResume_run, Htext.
  unfold try_catch, bind, chat, lift, afterCall.
  destruct (llm W (calls st) (generateStructuredPrompt text)) as [reply|e].
  - destruct (extractJSON fuel (Some reply)) as [v|e|] eqn:Hv.
    + destruct (truthy v) eqn:Ht.
      * exists (Returned v). unfold ret. split; [reflexivity|]. split; [exact Ht|].
        intros reply' v' H1 H2 _. injection H1 as <-. congruence.
      * unfold throw. cbn [includes indexOf].
        eexists. split; [reflexivity|]. split; [apply startsWith_prefix|].
        intros reply' v' H1 H2 H3. injection H1 as <-. congruence.
    + now destruct (extractJSON_not_thrown fuel (Some reply) e).
    + eexists. split; [reflexivity|]. split; [exact I|].
      intros reply' v' H1 H2 _. injection H1 as <-. congruence.
  - unfold throw.
    destruct (includes ("Failed to connect to OpenRouter: " ++ e)
                "Ollama service is not running");
      (eexists; split; [reflexivity|]; split; [apply startsWith_prefix|]);
      intros reply' v' H1; discriminate.
Qed.

(** X19.  [processResume] never resolves with a falsy value, and every
    rejection carries a message that begins with 'Failed to process
    resume: '.  A file that cannot be read, or a file type other than pdf,
    doc and docx, is rejected before the model is asked (the file is read
    first: an unreadable file of an unknown type reports the read).  In
    every other case the model is asked exactly once.  The Roadmap
    collection is never touched. *)
Theorem processResume_outcomes :
  forall (F : Files) (W : World) (fuel : nat) (filePath fileType : string) (st : State),
  exists outcome st',
    processResume F W fuel filePath fileType st = (outcome, st')
    /\ roadmaps st' = roadmaps st
    /\ match outcome with
       | Returned v => truthy v = true
       | Thrown e => startsWith "Failed to process resume: " e = true
       | OutOfFuel => True
       end
    /\ (forall e,
          readFile F filePath = Failed e ->
          outcome = Thrown ("Failed to process resume: Failed to extract text from resume: "
                              ++ e)
          /\ st' = st)
    /\ (forall buffer,
          readFile F filePath = Ok buffer ->
          if existsb (String.eqb fileType) supportedTypes
          then st' = afterCall st
          else outcome
               = Thrown ("Failed to process resume: Failed to extract text from resume: "
                           ++ "Unsupported file type")
               /\ st' = st).
Proof.
  intros F W fuel filePath fileType st.
  destruct (resumeTextOf F filePath fileType) as [text|e|] eqn:Htext.
  - destruct (processResume_run F W fuel filePath fileType text st Htext)
      as (outcome & Hrun & Hout & _).
    exists outcome, (afterCall st). split; [exact Hrun|]. split; [reflexivity|].
    split; [exact Hout|]. unfold resumeTextOf in Htext. split.
    + intros e He. rewrite He in Htext. discriminate.
    + intros buffer Hb. rewrite Hb in Htext. cbn [existsb supportedTypes].
      destruct (String.eqb fileType "pdf"); [reflexivity|].
      destruct (String.eqb fileType "docx"); [now rewrite orb_true_r|].
      destruct (String.eqb fileType "doc"); [reflexivity | discriminate].
  - exists (Thrown ("Failed to process resume: " ++ e)), st. split.
    { unfold processResume, try_catch at 1, bind at 1.
      rewrite extractTextFromResume_run, Htext. reflexivity. }
    split; [reflexivity|]. split; [apply startsWith_prefix|].
    unfold resumeTextOf in Htext. split.
    + intros e' He. rewrite He in Htext. injection Htext as <-. split; reflexivity.
    + intros buffer Hb. rewrite Hb in Htext. cbn [existsb supportedTypes].
      destruct (String.eqb fileType "pdf"); [discriminate|].
      destruct (String.eqb fileType "docx"); [discriminate|].
      destruct (String.eqb fileType "doc"); [discriminate|].
      injection Htext as <-. split; reflexivity.
  - unfold resumeTextOf in Htext. destruct (readFile F filePath); [|discriminate].
    destruct (String.eqb fileType "pdf"); [discriminate|].
    destruct (String.eqb fileType "docx"); [discriminate|].
    destruct (String.eqb fileType "doc"); discriminate.
Qed.

(** X20.  A resume whose text cannot be extracted is no failure: when the
    file is read but pdf-parse or mammoth fails on it, and for every doc
    file, the model is given a sentence that names the file in the place of
    the text of the resume, and what it answers to that sentence is
    returned as the data of the resume. *)
Theorem processResume_placeholder :
  forall (F : Files) (W : World) (fuel : nat) (filePath fileType buffer reply : string)
         (v : JSValue) (st : State),
    readFile F filePath = Ok buffer ->
    notExtracted F fileType buffer ->
    llm W (calls st)
      (generateStructuredPrompt (placeholder F (toUpperCase fileType) filePath))
    = Ok reply ->
    extractJSON fuel (Some reply) = Returned v ->
    truthy v = true ->
    processResume F W fuel filePath fileType st = (Returned v, afterCall st).
Proof.
  intros F W fuel filePath fileType buffer reply v st Hread Hnot Hreply Hv Ht.
  assert (Htext : resumeTextOf F filePath fileType
                  = Returned (placeholder F (toUpperCase fileType) filePath)).
  { unfold resumeTextOf. rewrite Hread.
    destruct Hnot as [[-> [e He]] | [-> | [-> [e He]]]]; cbn; rewrite ?He; reflexivity. }
  destruct (processResume_run F W fuel filePath fileType _ st Htext)
    as (outcome & Hrun & _ & Hout).
  rewrite Hrun. now rewrite (Hout reply v Hreply Hv Ht).
Qed.

Lemma processResume_placeholder_witness :
  processResume sampleFiles analystWorld 10 "/uploads/resume-1.pdf" "pdf" initialState
  = (Returned (JObj [("userType", JStr "fresher")]), afterCall initialState).
Proof.
  apply (processResume_placeholder sampleFiles analystWorld 10 "/uploads/resume-1.pdf"
           "pdf" "%PDF-1.7" profileReply).
  - reflexivity.
  - left. split; [reflexivity|]. eexists. reflexivity.
  - reflexivity.
  - vm_compute. reflexivity.
  - reflexivity.
Defined.

(* ===================================================================== *)
(** * Points, badges and the progress handler *)
(* ===================================================================== *)

Lemma badgesGrow_refl (user : string) (c : Collections) : badgesGrow user c c.
Proof.
  repeat split; try reflexivity; lia.
Qed.

Lemma badgesGrow_trans (user : string) (c1 c2 c3 : Collections) :
  badgesGrow user c1 c2 -> badgesGrow user c2 c3 -> badgesGrow user c1 c3.
Proof.
  intros (Ha & Hb & Hl & Hp & Hs & H12) (Ha' & Hb' & Hl' & Hp' & Hs' & H23).
  repeat split; try congruence;
    destruct (H12 u id) as [[? ?] Ho]; destruct (H23 u id) as [[? ?] Ho']; try lia.
  intros Hne. rewrite Ho', Ho; auto.
Qed.

Lemma isBadge_true (u id : string) (b : BadgeDoc) :
  isBadge u id b = true <-> b_userId b = u /\ badgeId b = id.
Proof.
  unfold isBadge. rewrite andb_true_iff, !String.eqb_eq. tauto.
Qed.

Lemma badgeCount_zero (u id : string) (c : Collections) :
  existsb (isBadge u id) (userBadges c) = false <-> badgeCount u id c = 0.
Proof.
  unfold badgeCount. induction (userBadges c) as [|b l IH]; simpl; [tauto|].
  destruct (isBadge u id b); simpl; [split; discriminate | exact IH].
Qed.

(** [awardBadge] never rejects; afterwards the user has the badge, and a
    badge that was there is not written again. *)
Lemma awardBadge_run (user id name description : string) (c : Collections) :
  exists c',
    awardBadge user id name description c = (Returned tt, c')
    /\ badgesGrow user c c'
    /\ 1 <= badgeCount user id c'
    /\ (forall id', id' <> id -> badgeCount user id' c' = badgeCount user id' c).
Proof.
  unfold awardBadge, orElse, upsertBadge.
  destruct (existsb (isBadge user id) (userBadges c)) eqn:Hheld.
  - exists c. split; [reflexivity|]. split; [apply badgesGrow_refl|]. split; [|auto].
    destruct (badgeCount user id c) eqn:Hcount; [|lia].
    apply badgeCount_zero in Hcount. congruence.
  - eexists. split; [reflexivity|].
    apply badgeCount_zero in Hheld.
    assert (Hcount : forall u i,
               badgeCount u i
                 (mkCollections (agent c) (banks c) (lessons c) (progress c)
                    (leaderboard c)
                    (userBadges c ++ [mkBadgeDoc user id name description]))
               = badgeCount u i c
                 + (if isBadge u i (mkBadgeDoc user id name description) then 1 else 0)).
    { intros u i. unfold badgeCount. cbn [userBadges].
      rewrite filter_app, length_app. cbn [filter].
      destruct (isBadge u i _); reflexivity. }
    split; [|split].
    + repeat split; try reflexivity; rewrite Hcount;
        destruct (isBadge u id0 _) eqn:Hb; try lia.
      * apply isBadge_true in Hb. cbn in Hb. destruct Hb as [<- <-]. lia.
      * intros Hne. apply isBadge_true in Hb. cbn in Hb. destruct Hb as [Hu _].
        now destruct Hne.
    + rewrite Hcount. unfold isBadge. cbn. rewrite !String.eqb_refl. cbn. lia.
    + intros id' Hne. rewrite Hcount. unfold isBadge. cbn.
      rewrite String.eqb_refl. cbn.
      destruct (String.eqb id id') eqn:He; [|lia].
      apply String.eqb_eq in He. now destruct Hne.
Qed.

(** One line of [checkAndAwardPointBadges]. *)
Lemma awardAt_run (user id name description : string) (threshold total : Z)
    (c : Collections) :
  exists c',
    (if (threshold <=? total)%Z then awardBadge user id name description else resolve tt) c
    = (Returned tt, c')
    /\ badgesGrow user c c'
    /\ (if (threshold <=? total)%Z then 1 <= badgeCount user id c' else c' = c)
    /\ (forall id', id' <> id -> badgeCount user id' c' = badgeCount user id' c).
Proof.
  destruct (threshold <=? total)%Z.
  - exact (awardBadge_run user id name description c).
  - exists c. split; [reflexivity|]. split; [apply badgesGrow_refl|]. auto.
Qed.

Lemma checkAndAwardPointBadges_run (user : string) (total : Z) (c : Collections) :
  exists c',
    checkAndAwardPointBadges user total c = (Returned tt, c')
    /\ badgesGrow user c c'
    /\ Forall (fun e => if (fst e <=? total)%Z then 1 <= badgeCount user (snd e) c'
                        else badgeCount user (snd e) c' = badgeCount user (snd e) c)
         pointBadges
    /\ (forall id, ~ In id (map snd pointBadges) ->
          badgeCount user id c' = badgeCount user id c).
Proof.
  unfold checkAndAwardPointBadges, orElse, andThen.
  destruct (awardAt_run user "points_100" "Century" "Earned 100 points" 100 total c)
    as (c1 & -> & G1 & T1 & O1).
  destruct (awardAt_run user "points_500" "High Achiever" "Earned 500 points" 500 total c1)
    as (c2 & -> & G2 & T2 & O2).
  destruct (awardAt_run user "points_1000" "Point Master" "Earned 1000 points" 1000 total c2)
    as (c3 & -> & G3 & T3 & O3).
  destruct (awardAt_run user "points_5000" "Skill Champion" "Earned 5000 points" 5000 total c3)
    as (c4 & -> & G4 & T4 & O4).
  exists c4. split; [reflexivity|].
  split; [eauto using badgesGrow_trans|].
  split.
  - unfold pointBadges. repeat constructor; cbn [fst snd].
    + destruct (100 <=? total)%Z.
      * rewrite O4, O3, O2 by discriminate. exact T1.
      * subst c1. rewrite O4, O3, O2 by discriminate. reflexivity.
    + destruct (500 <=? total)%Z.
      * rewrite O4, O3 by discriminate. exact T2.
      * subst c2. rewrite O4, O3, O1 by discriminate. reflexivity.
    + destruct (1000 <=? total)%Z.
      * rewrite O4 by discriminate. exact T3.
      * subst c3. rewrite O4, O2, O1 by discriminate. reflexivity.
    + destruct (5000 <=? total)%Z.
      * exact T4.
      * subst c4. rewrite O3, O2, O1 by discriminate. reflexivity.
  - intros id Hid. cbn in Hid.
    rewrite O4, O3, O2, O1; [reflexivity| | | |]; intros ->; tauto.
Qed.

Lemma pointsOf_inc (user : string) (total : Z) (board : list (string * Z)) (u : string) :
  pointsOf u ((user, total) :: filter (fun e => negb (String.eqb (fst e) user)) board)
  = if String.eqb user u then total else pointsOf u board.
Proof.
  unfold pointsOf. cbn [find fst snd].
  destruct (String.eqb user u) eqn:Hu; [reflexivity|].
  induction board as [|e rest IH]; [reflexivity|]. cbn [filter find].
  destruct (String.eqb (fst e) user) eqn:He; cbn [negb].
  - apply String.eqb_eq in He. rewrite He, Hu. exact IH.
  - cbn [find]. destruct (String.eqb (fst e) u); [reflexivity | exact IH].
Qed.

(** What [awardPoints] does. *)
Lemma awardPoints_run (user : string) (points : Z) (action : string) (c : Collections) :
  exists c1 c',
    awardPoints user points action c
    = (Returned (pointsOf user (leaderboard c) + points)%Z, c')
    /\ incPoints user points c = (Returned (pointsOf user (leaderboard c) + points)%Z, c1)
    /\ badgesGrow user c1 c'
    /\ Forall (fun e => if (fst e <=? pointsOf user (leaderboard c) + points)%Z
                        then 1 <= badgeCount user (snd e) c'
                        else badgeCount user (snd e) c' = badgeCount user (snd e) c)
         pointBadges
    /\ (forall id, ~ In id (map snd pointBadges) ->
          badgeCount user id c' = badgeCount user id c).
Proof.
  unfold awardPoints, orElse, andThen.
  set (total := (pointsOf user (leaderboard c) + points)%Z).
  set (c1 := mkCollections (agent c) (banks c) (lessons c) (progress c)
               ((user, total)
                  :: filter (fun e => negb (String.eqb (fst e) user)) (leaderboard c))
               (userBadges c)).
  assert (Hinc : incPoints user points c = (Returned total, c1)) by reflexivity.
  rewrite Hinc.
  destruct (checkAndAwardPointBadges_run user total c1) as (c' & -> & G & T & O).
  exists c1, c'. split; [reflexivity|]. split; [reflexivity|].
  split; [exact G|]. split; [exact T | exact O].
Qed.

(** X21.  The accounting of [awardPoints], on a leaderboard that takes the
    update.  It adds the points to those of the user (0 when the
    leaderboard has no entry for the user), leaves the points of the other
    users as they are and resolves with the new total.
    Of the four badges of the point thresholds, the user has afterwards
    each one whose threshold the new total reaches, and gets none whose
    threshold it does not reach.  No badge is removed, none is written
    twice, and the badges of the other users are as before. *)
Theorem awardPoints_badges :
  forall (user : string) (points : Z) (action : string) (c : Collections),
  exists c',
    awardPoints user points action c
    = (Returned (pointsOf user (leaderboard c) + points)%Z, c')
    /\ pointsOf user (leaderboard c') = (pointsOf user (leaderboard c) + points)%Z
    /\ (forall u, u <> user ->
          pointsOf u (leaderboard c') = pointsOf u (leaderboard c))
    /\ Forall (fun e => if (fst e <=? pointsOf user (leaderboard c) + points)%Z
                        then 1 <= badgeCount user (snd e) c'
                        else badgeCount user (snd e) c' = badgeCount user (snd e) c)
         pointBadges
    /\ (forall u id,
          badgeCount u id c <= badgeCount u id c' <= Nat.max 1 (badgeCount u id c)
          /\ (u <> user -> badgeCount u id c' = badgeCount u id c))
    /\ agent c' = agent c /\ banks c' = banks c /\ lessons c' = lessons c
    /\ progress c' = progress c.
Proof.
  intros user points action c.
  destruct (awardPoints_run user points action c)
    as (c1 & c' & Hrun & Hinc & (Ha & Hb & Hl & Hp & Hs & Hcount) & Hbadges & _).
  unfold incPoints in Hinc. injection Hinc as <-.
  cbn [agent banks lessons progress leaderboard] in *.
  exists c'. split; [exact Hrun|].
  rewrite Hs. split; [|split].
  - rewrite pointsOf_inc. now rewrite String.eqb_refl.
  - intros u Hu. rewrite pointsOf_inc.
    destruct (String.eqb user u) eqn:He; [|reflexivity].
    apply String.eqb_eq in He. now destruct Hu.
  - split; [exact Hbadges|]. split; [exact Hcount|]. auto.
Qed.

Lemma arg_or_nonempty (a : option string) (b : string) : b <> "" -> arg_or a b <> "".
Proof.
  intros Hb. unfold arg_or, str_or. destruct a as [a|]; cbn [with_default].
  - destruct (String.eqb a "") eqn:Ha; [exact Hb|]. now apply String.eqb_neq.
  - exact Hb.
Qed.

Lemma lessonTopic_nonempty (concept : option string) (lesson : option LessonDoc) :
  lessonTopic concept lesson <> "".
Proof.
  unfold lessonTopic. repeat apply arg_or_nonempty. discriminate.
Qed.

Lemma round_bounds (q : Q) : (0 <= q <= 100)%Q -> (0 <= round (q / 10) <= 10)%Z.
Proof.
  intros [H0 H100]. unfold round.
  assert (Hlo : (0 + (1 # 2) <= q / 10 + (1 # 2))%Q).
  { apply Qplus_le_compat; [|apply Qle_refl].
    apply Qle_shift_div_l; [reflexivity|]. now rewrite Qmult_0_l. }
  assert (Hhi : (q / 10 + (1 # 2) <= 10 + (1 # 2))%Q).
  { apply Qplus_le_compat; [|apply Qle_refl].
    apply Qle_shift_div_r; [reflexivity|]. exact H100. }
  apply Qfloor_resp_le in Hlo, Hhi.
  change (Qfloor (0 + (1 # 2))) with 0%Z in Hlo.
  change (Qfloor (10 + (1 # 2))) with 10%Z in Hhi. lia.
Qed.

Lemma find_isProgress (user lesson : string) (doc : ProgressDoc) (l : list ProgressDoc) :
  pg_userId doc = user -> pg_lessonId doc = lesson ->
  find (isProgress user lesson) (doc :: l) = Some doc.
Proof.
  intros <- <-. cbn [find]. unfold isProgress. now rewrite !String.eqb_refl.
Qed.

Lemma updateMemoryFromScore_rest (user topic : string) (score : JSValue)
    (c : Collections) :
  progress (snd (updateMemoryFromScore user topic score c)) = progress c
  /\ leaderboard (snd (updateMemoryFromScore user topic score c)) = leaderboard c
  /\ userBadges (snd (updateMemoryFromScore user topic score c)) = userBadges c.
Proof.
  unfold updateMemoryFromScore.
  destruct (calculateDeltaFromScore score =? 0)%Z; [repeat split|].
  unfold andThen, findOrCreateBank.
  destruct (findBankOf user c) as [bank|].
  - destruct (find _ bank); [repeat split|].
    unfold validatePushed. destruct (String.eqb _ ""); repeat split.
  - cbn [find]. unfold validatePushed. destruct (String.eqb _ ""); repeat split.
Qed.

Lemma upsertProgress_run (now : Z) (user lesson : string) (status : option string)
    (score : JSValue) (c : Collections) :
  exists doc c1,
    upsertProgress now user lesson status score c = (Returned doc, c1)
    /\ pg_userId doc = user /\ pg_lessonId doc = lesson
    /\ progress c1 = doc :: otherProgress user lesson (progress c)
    /\ agent c1 = agent c /\ banks c1 = banks c /\ lessons c1 = lessons c
    /\ leaderboard c1 = leaderboard c /\ userBadges c1 = userBadges c.
Proof. eexists _, _. repeat split. Qed.

(** The run of the handler on a completion. *)
Lemma postProgress_completed_run (now : Z) (user lesson : string) (score : JSValue)
    (concept : option string) (c : Collections) (q : Q) :
  countedScore score = JNum q ->
  exists doc c1 c',
    postProgress now user lesson (Some "completed") score concept c = (Returned doc, c')
    /\ upsertProgress now user lesson (Some "completed") score c = (Returned doc, c1)
    /\ progress c' = doc :: otherProgress user lesson (progress c)
    /\ findBankOf user c'
       = Some (moved (topicOf lesson concept c) (calculateDeltaFromScore (JNum q))
                 (conceptsBefore user c))
    /\ otherUsers user (banks c') = otherUsers user (banks c)
    /\ pointsOf user (leaderboard c')
       = (pointsOf user (leaderboard c) + (10 + bonus score))%Z
    /\ (forall u, u <> user -> pointsOf u (leaderboard c') = pointsOf u (leaderboard c))
    /\ (forall u id,
          badgeCount u id c <= badgeCount u id c' <= Nat.max 1 (badgeCount u id c)
          /\ (u <> user -> badgeCount u id c' = badgeCount u id c))
    /\ 1 <= badgeCount user "starter" c'
    /\ lessons c' = lessons c /\ agent c' = agent c.
Proof.
  intros Hscore.
  destruct (upsertProgress_run now user lesson (Some "completed") score c)
    as (doc & c1 & Hup & _ & _ & Hp1 & Ha1 & Hb1 & Hl1 & Hs1 & Hu1).
  unfold postProgress, andThen. rewrite Hup.
  cbn [completed String.eqb Ascii.eqb Bool.eqb]. unfold findLesson.
  rewrite Hl1. fold (topicOf lesson concept c). rewrite Hscore.
  pose proof (updateMemoryFromScore_rest user (topicOf lesson concept c) (JNum q) c1)
    as (Hp2 & Hs2 & Hu2).
  destruct (updateMemoryFromScore_number user (topicOf lesson concept c) q c1
              (lessonTopic_nonempty _ _))
    as (c2 & Hrun2 & Hbank & Hothers & Ha2 & Hl2).
  rewrite Hrun2 in *. cbn [snd] in Hp2, Hs2, Hu2.
  destruct (awardPoints_run user (10 + bonus score) "lesson_completed" c2)
    as (c3 & c4 & Hrun4 & Hinc & (Ha4 & Hb4 & Hl4 & Hp4 & Hs4 & Hc4) & _ & _).
  rewrite Hrun4.
  unfold incPoints in Hinc. injection Hinc as Hc3.
  assert (Hu3 : userBadges c3 = userBadges c2) by now rewrite <- Hc3.
  assert (Hs3 : leaderboard c3
                = (user, (pointsOf user (leaderboard c2) + (10 + bonus score))%Z)
                    :: filter (fun e => negb (String.eqb (fst e) user)) (leaderboard c2))
    by now rewrite <- Hc3.
  assert (Hb3 : banks c3 = banks c2) by now rewrite <- Hc3.
  assert (Hl3 : lessons c3 = lessons c2) by now rewrite <- Hc3.
  assert (Ha3 : agent c3 = agent c2) by now rewrite <- Hc3.
  assert (Hp3 : progress c3 = progress c2) by now rewrite <- Hc3.
  clear Hc3.
  destruct (awardBadge_run user "starter" "Starter" "First lesson completed" c4)
    as (c5 & Hrun5 & (Ha5 & Hb5 & Hl5 & Hp5 & Hs5 & Hc5) & Hstarter & _).
  rewrite Hrun5.
  assert (Hbefore : conceptsBefore user c1 = conceptsBefore user c).
  { unfold conceptsBefore, findBankOf. now rewrite Hb1. }
  exists doc, c1, c5. split; [reflexivity|]. split; [reflexivity|].
  split; [congruence|].
  split. { unfold findBankOf in *. rewrite Hb5, Hb4, Hb3, <- Hbefore. exact Hbank. }
  split; [congruence|].
  split. { rewrite Hs5, Hs4, Hs3, pointsOf_inc, String.eqb_refl. now rewrite Hs2, Hs1. }
  split. { intros u Hu. rewrite Hs5, Hs4, Hs3, pointsOf_inc.
           destruct (String.eqb user u) eqn:He.
           - apply String.eqb_eq in He. now destruct Hu.
           - now rewrite Hs2, Hs1. }
  assert (H03 : forall u id, badgeCount u id c = badgeCount u id c3).
  { intros u id. unfold badgeCount. now rewrite Hu3, Hu2, Hu1. }
  split.
  { intros u id. destruct (Hc4 u id) as [[? ?] Ho4]. destruct (Hc5 u id) as [[? ?] Ho5].
    rewrite (H03 u id). split; [lia|]. intros Hne. rewrite Ho5, Ho4; auto. }
  split; [exact Hstarter|]. split; congruence.
Qed.

Lemma countedScore_number (score : JSValue) : exists q, countedScore score = JNum q.
Proof. destruct score; cbn; eauto. Qed.

Lemma levelOf_moved_before (user topic : string) (delta : Z) (c : Collections) :
  levelOf topic (moved topic delta (conceptsBefore user c))
  = Some (clamp (levelBefore user topic c + delta)).
Proof.
  rewrite levelOf_moved. unfold levelBefore, conceptsBefore.
  destruct (findBankOf user c); reflexivity.
Qed.

Lemma otherProgress_idempotent (user lesson : string) (doc : ProgressDoc)
    (l : list ProgressDoc) :
  pg_userId doc = user -> pg_lessonId doc = lesson ->
  otherProgress user lesson (doc :: otherProgress user lesson l)
  = otherProgress user lesson l.
Proof.
  intros Hu Hl. unfold otherProgress. cbn [filter].
  rewrite (proj2 (andb_true_iff _ _)
             (conj (proj2 (String.eqb_eq _ _) Hu) (proj2 (String.eqb_eq _ _) Hl))
           : isProgress user lesson doc = true).
  cbn [negb]. induction l as [|p l IH]; [reflexivity|]. cbn [filter].
  destruct (negb (isProgress user lesson p)) eqn:Hp; cbn [filter]; rewrite ?Hp, IH;
    reflexivity.
Qed.

Lemma isProgress_one (user lesson : string) (doc : ProgressDoc) (l : list ProgressDoc) :
  pg_userId doc = user -> pg_lessonId doc = lesson ->
  filter (isProgress user lesson) (doc :: otherProgress user lesson l) = [doc].
Proof.
  intros Hu Hl. cbn [filter].
  rewrite (proj2 (andb_true_iff _ _)
             (conj (proj2 (String.eqb_eq _ _) Hu) (proj2 (String.eqb_eq _ _) Hl))
           : isProgress user lesson doc = true).
  f_equal. unfold otherProgress. induction l as [|p l IH]; [reflexivity|]. cbn [filter].
  destruct (isProgress user lesson p) eqn:Hp; cbn [negb filter]; rewrite ?Hp; exact IH.
Qed.

(** X22.  A completion, on a body whose lessonId is a text and whose
    concept is a text or absent, and with collections that take every
    operation.  The handler writes the progress of the user on the lesson
    with the status completed and the date of the request, moves the level
    of one topic of the memory of the user by the delta of the score, adds
    10 points and the bonus to the points of the user, and the user has the
    starter badge afterwards, once.  The topic is not empty: the concept of
    the request, else the first concept of the lesson, else its skill, else
    its id, else General.  For a number between 0 and 100 the score is stored and the
    points added are between 10 and 20. *)
Theorem postProgress_completed :
  forall (now : Z) (user lesson : string) (score : JSValue) (concept : option string)
         (c : Collections),
  exists doc c',
    postProgress now user lesson (Some "completed") score concept c = (Returned doc, c')
    /\ progressOf user lesson c' = Some doc
    /\ pg_status doc = "completed"
    /\ pg_completedAt doc = Some now
    /\ topicOf lesson concept c <> ""
    /\ (exists concepts,
          findBankOf user c' = Some concepts
          /\ levelOf (topicOf lesson concept c) concepts
             = Some (clamp (levelBefore user (topicOf lesson concept c) c
                            + calculateDeltaFromScore (countedScore score))))
    /\ pointsOf user (leaderboard c')
       = (pointsOf user (leaderboard c) + (10 + bonus score))%Z
    /\ (forall q, score = JNum q -> (0 <= q <= 100)%Q ->
          pg_score doc = Some q /\ (10 <= 10 + bonus score <= 20)%Z)
    /\ 1 <= badgeCount user "starter" c' <= Nat.max 1 (badgeCount user "starter" c)
    /\ lessons c' = lessons c
    /\ agent c' = agent c.
Proof.
  intros now user lesson score concept c.
  destruct (countedScore_number score) as (q & Hq).
  destruct (postProgress_completed_run now user lesson score concept c q Hq)
    as (doc & c1 & c' & Hrun & Hup & Hprogress & Hbank & _ & Hpoints & _ & Hcount
        & Hstarter & Hlessons & Hagent).
  exists doc, c'. split; [exact Hrun|].
  unfold upsertProgress in Hup. injection Hup as Hdoc _.
  split. { unfold progressOf. rewrite Hprogress. apply find_isProgress; now rewrite <- Hdoc. }
  split; [now rewrite <- Hdoc|]. split; [now rewrite <- Hdoc|].
  split; [apply lessonTopic_nonempty|].
  split. { eexists. split; [exact Hbank|]. rewrite Hq. apply levelOf_moved_before. }
  split; [exact Hpoints|].
  split. { intros q' -> Hrange. split; [now rewrite <- Hdoc|].
           cbn [bonus]. pose proof (round_bounds q' Hrange). lia. }
  split; [|split; assumption].
  destruct (Hcount user "starter") as [[_ Hle] _]. lia.
Qed.

(** X23.  A score that is not a number counts as a full score: on a
    completion with a score of another type (a text, or none), the level of
    the topic moves by 12 and the user gets 20 points, while the score of
    the progress stays the one it was. *)
Theorem postProgress_score_not_number :
  forall (now : Z) (user lesson : string) (score : JSValue) (concept : option string)
         (c : Collections),
    (forall q, score <> JNum q) ->
    exists doc c' concepts,
      postProgress now user lesson (Some "completed") score concept c = (Returned doc, c')
      /\ pg_score doc = scoreBefore user lesson c
      /\ findBankOf user c' = Some concepts
      /\ levelOf (topicOf lesson concept c) concepts
         = Some (clamp (levelBefore user (topicOf lesson concept c) c + 12))
      /\ pointsOf user (leaderboard c') = (pointsOf user (leaderboard c) + 20)%Z.
Proof.
  intros now user lesson score concept c Hscore.
  assert (Hq : countedScore score = JNum 100).
  { destruct score; try reflexivity. now destruct (Hscore q). }
  assert (Hbonus : bonus score = 10%Z).
  { destruct score; try reflexivity. now destruct (Hscore q). }
  destruct (postProgress_completed_run now user lesson score concept c 100 Hq)
    as (doc & c1 & c' & Hrun & Hup & _ & Hbank & _ & Hpoints & _).
  eexists doc, c', _. split; [exact Hrun|].
  unfold upsertProgress in Hup. injection Hup as Hdoc _.
  split. { rewrite <- Hdoc. cbn [pg_score]. unfold scoreBefore, progressOf.
           destruct score; try reflexivity. now destruct (Hscore q). }
  split; [exact Hbank|].
  split; [apply levelOf_moved_before|].
  rewrite Hpoints, Hbonus. reflexivity.
Qed.

Lemma postProgress_score_not_number_witness :
  exists doc c',
    postProgress 1000 "u1" "js-closures" (Some "completed") (JStr "40") None campus
    = (Returned doc, c')
    /\ pg_score doc = Some 55%Q
    /\ findBankOf "u1" c' = Some [ mkConcept "closures" 57 ]
    /\ pointsOf "u1" (leaderboard c') = 105%Z
    /\ badgeCount "u1" "points_100" c' = 1.
Proof.
  assert (Hscore : forall q, JStr "40" <> JNum q) by discriminate.
  destruct (postProgress_score_not_number 1000 "u1" "js-closures" (JStr "40") None
              campus Hscore) as (doc & c' & concepts & Hrun & _).
  exists doc, c'. vm_compute in Hrun. injection Hrun as <- <-.
  repeat split.
Defined.

(** X24.  What a request keeps, on a body whose lessonId is a text and
    whose status and concept are texts or absent, and with collections
    that take every operation.  The progress of the user on the lesson is
    one document afterwards, and the progress of the other lessons and
    users stays as it is; a date of completion that is set stays set (it is
    replaced on a new completion and kept otherwise, also when the status
    goes back), and a score that is set stays set.  Only a completion
    reaches the memory, the points and the badges. *)
Theorem postProgress_keeps :
  forall (now : Z) (user lesson : string) (status : option string) (score : JSValue)
         (concept : option string) (c : Collections),
  exists doc c',
    postProgress now user lesson status score concept c = (Returned doc, c')
    /\ filter (isProgress user lesson) (progress c') = [doc]
    /\ otherProgress user lesson (progress c') = otherProgress user lesson (progress c)
    /\ pg_completedAt doc
       = (if completed status then Some now else completedBefore user lesson c)
    /\ pg_score doc
       = match score with JNum q => Some q | _ => scoreBefore user lesson c end
    /\ (completed status = false ->
        banks c' = banks c /\ leaderboard c' = leaderboard c
        /\ userBadges c' = userBadges c)
    /\ lessons c' = lessons c
    /\ agent c' = agent c.
Proof.
  intros now user lesson status score concept c.
  assert (Hdoc : forall doc c1,
             upsertProgress now user lesson status score c = (Returned doc, c1) ->
             pg_userId doc = user /\ pg_lessonId doc = lesson
             /\ pg_completedAt doc
                = (if completed status then Some now else completedBefore user lesson c)
             /\ pg_score doc
                = match score with JNum q => Some q | _ => scoreBefore user lesson c end).
  { intros doc c1 H. unfold upsertProgress in H. injection H as <- _.
    cbn [pg_userId pg_lessonId pg_completedAt pg_score].
    unfold completedBefore, scoreBefore, progressOf. repeat split. }
  destruct (completed status) eqn:Hstatus.
  - assert (status = Some "completed") as ->.
    { destruct status as [s|]; [|discriminate]. cbn in Hstatus.
      apply String.eqb_eq in Hstatus. now subst. }
    destruct (countedScore_number score) as (q & Hq).
    destruct (postProgress_completed_run now user lesson score concept c q Hq)
      as (doc & c1 & c' & Hrun & Hup & Hprogress & _ & _ & _ & _ & _ & _ & Hl & Ha).
    destruct (Hdoc doc c1 Hup) as (Hu & Hle & Hc & Hs).
    exists doc, c'. split; [exact Hrun|]. rewrite Hprogress.
    split; [now apply isProgress_one|].
    split; [now apply otherProgress_idempotent|].
    split; [exact Hc|]. split; [exact Hs|]. split; [discriminate|]. split; assumption.
  - destruct (upsertProgress_run now user lesson status score c)
      as (doc & c1 & Hup & Hu & Hle & Hp1 & Ha1 & Hb1 & Hl1 & Hs1 & Hu1).
    destruct (Hdoc doc c1 Hup) as (_ & _ & Hc & Hs).
    exists doc, c1. split.
    { unfold postProgress, andThen. rewrite Hup, Hstatus. reflexivity. }
    rewrite Hp1. split; [now apply isProgress_one|].
    split; [now apply otherProgress_idempotent|].
    split; [exact Hc|]. split; [exact Hs|]. auto.
Qed.

(** X25.  Nothing keeps a lesson from being completed again: a second
    completion of the same lesson adds its points to those of the first
    one, and moves the level of the topic a second time.  The progress
    stays one document, with the date of the second request, and the
    starter badge stays one. *)
Theorem postProgress_twice :
  forall (now later : Z) (user lesson : string) (score again : JSValue)
         (concept : option string) (c : Collections),
  exists doc c1 doc' c2 concepts,
    postProgress now user lesson (Some "completed") score concept c = (Returned doc, c1)
    /\ postProgress later user lesson (Some "completed") again concept c1
       = (Returned doc', c2)
    /\ pointsOf user (leaderboard c2)
       = (pointsOf user (leaderboard c) + (10 + bonus score) + (10 + bonus again))%Z
    /\ findBankOf user c2 = Some concepts
    /\ levelOf (topicOf lesson concept c) concepts
       = Some (clamp (clamp (levelBefore user (topicOf lesson concept c) c
                             + calculateDeltaFromScore (countedScore score))
                      + calculateDeltaFromScore (countedScore again)))
    /\ filter (isProgress user lesson) (progress c2) = [doc']
    /\ pg_completedAt doc' = Some later
    /\ 1 <= badgeCount user "starter" c2 <= Nat.max 1 (badgeCount user "starter" c).
Proof.
  intros now later user lesson score again concept c.
  destruct (countedScore_number score) as (q & Hq).
  destruct (countedScore_number again) as (q' & Hq').
  destruct (postProgress_completed_run now user lesson score concept c q Hq)
    as (doc & c0 & c1 & Hrun & _ & _ & Hbank & _ & Hpoints & _ & Hcount & _ & Hl & _).
  destruct (postProgress_completed_run later user lesson again concept c1 q' Hq')
    as (doc' & c0' & c2 & Hrun' & Hup' & Hprogress' & Hbank' & _ & Hpoints' & _ & Hcount'
        & Hstarter' & _).
  assert (Htopic : topicOf lesson concept c1 = topicOf lesson concept c).
  { unfold topicOf. now rewrite Hl. }
  eexists doc, c1, doc', c2, _. split; [exact Hrun|]. split; [exact Hrun'|].
  split; [rewrite Hpoints', Hpoints; reflexivity|].
  split; [exact Hbank'|].
  split.
  { rewrite Htopic, levelOf_moved. unfold conceptsBefore. rewrite Hbank.
    rewrite levelOf_moved_before, Hq, Hq'. reflexivity. }
  unfold upsertProgress in Hup'. injection Hup' as Hdoc' _.
  split. { rewrite Hprogress'. apply isProgress_one; now rewrite <- Hdoc'. }
  split; [now rewrite <- Hdoc'|].
  destruct (Hcount user "starter") as [[_ H1] _].
  destruct (Hcount' user "starter") as [[_ H2] _]. lia.
Qed.
